(** * discord.cpp: gateway session engine, REST pipeline, dispatcher, cache

    A shallow embedding of the core runtime of the discord.cpp library and
    the properties its specification states about it.  Every definition is
    a transcription of the C++ function of the same name; the C++ file is
    named in the comment above it.

    Conventions.
    - A C++ [int] is a [Z]; [to_int] writes the 32-bit wrap-around out where
      the source narrows a wider value.  [uint64_t] is a [Z] below [2^64].
    - A [steady_clock] or [system_clock] time point is the [Z] count of its
      ticks (nanoseconds) since the epoch of the clock; the functions that
      read the clock take the instant [now] as an argument.  The count is a
      64-bit integer: [to_int64] writes the wrap-around out where the source
      converts a duration to nanoseconds or adds one to a time point.
    - [std::unordered_map<std::string, T>] and the object of a JSON value
      are [gmap string T]; [std::vector<T>] and [std::queue<T>] are [list T].
    - Code that can throw returns a [res]; a [catch] is a [match] on it.
    - Every member function that runs under the mutex of its object is one
      atomic step on the state of that object. *)

From Stdlib Require Import ZArith QArith Qround Qpower Qminmax Qabs.
From Stdlib Require Import String Ascii List Lia Bool.
From stdpp Require Import base option gmap strings pretty list fin_maps.
From stdpp Require Import sorting.

#[local] Set Warnings "-register-all".
#[local] Open Scope Z_scope.

(** ** Machine integers *)

Module MachineInt.

Definition INT_MIN : Z := - 2 ^ 31.
Definition INT_MAX : Z := 2 ^ 31 - 1.
Definition UINT64_MAX : Z := 2 ^ 64 - 1.

(** [static_cast<int>(z)] of a wider integer: reduction modulo [2^32]
    into the signed range. *)
Definition to_int (z : Z) : Z := (z + 2 ^ 31) mod 2 ^ 32 - 2 ^ 31.

(** [static_cast<size_t>(z)] of an [int]. *)
Definition to_size_t (z : Z) : Z := z mod 2 ^ 64.

Definition fits_int (z : Z) : Prop := INT_MIN <= z <= INT_MAX.

(** [long long], the representation of every [std::chrono] duration and
    time point here: reduction modulo [2^64] into the signed range. *)
Definition INT64_MIN : Z := - 2 ^ 63.
Definition INT64_MAX : Z := 2 ^ 63 - 1.

Definition to_int64 (z : Z) : Z := (z + 2 ^ 63) mod 2 ^ 64 - 2 ^ 63.

Definition fits_int64 (z : Z) : Prop := INT64_MIN <= z <= INT64_MAX.

(** Conversion of a floating-point value to an integer type: the
    fractional part is dropped (rounding toward zero). *)
Definition Qtrunc (q : Q) : Z := Z.quot (Qnum q) (Zpos (Qden q)).

End MachineInt.
Export MachineInt.

(** ** Exceptions and results *)

(** The exception classes the modelled code throws or catches.  All of them
    derive from [std::exception], so every [catch (const std::exception&)]
    catches each of them. *)
Inductive exn : Type :=
| json_type_error
| json_parse_error
| json_missing_key               (* const operator[] on an absent key *)
| invalid_argument
| out_of_range
| bad_function_call
| runtime_error (what : string)
| RateLimitException (retry_after : Z) (message : string)
| DiscordException (code : Z) (message : string).

Inductive res (A : Type) : Type :=
| Ok (a : A)
| Throw (e : exn).
Arguments Ok {A} a.
Arguments Throw {A} e.

(** [res] is an error monad; [x ← r; k] is stdpp's notation for its bind. *)
#[global] Instance res_ret : MRet res := fun A a => Ok a.
#[global] Instance res_bind : MBind res := fun A B k r =>
  match r with
  | Ok a => k a
  | Throw e => Throw e
  end.

(** ** JSON values (nlohmann::json) *)

Module Json.

(** [object] is a [std::map<std::string, json>]; a number is an integer or
    a floating-point number, the latter by the rational it denotes. *)
Inductive json : Type :=
| JNull
| JBool (b : bool)
| JInt (z : Z)
| JFloat (q : Q)
| JString (s : string)
| JArray (l : list json)
| JObject (m : gmap string json).

(** [j.contains(key)] *)
Definition contains (j : json) (key : string) : bool :=
  match j with
  | JObject m => bool_decide (is_Some (m !! key))
  | _ => false
  end.

(** [j[key]] on a [const json&]: a type error on a value that is not an
    object.  The library asserts that the key is there; an absent key is
    an exception here, so that it is told apart from every result. *)
Definition at_key (j : json) (key : string) : res json :=
  match j with
  | JObject m =>
      match m !! key with
      | Some v => Ok v
      | None => Throw json_missing_key
      end
  | _ => Throw json_type_error
  end.

(** [j.get<int>()], also the implicit conversion [int x = j]. *)
Definition get_int (j : json) : res Z :=
  match j with
  | JInt z => Ok (to_int z)
  | JFloat q => Ok (to_int (Qtrunc q))
  | JBool b => Ok (if b then 1 else 0)
  | _ => Throw json_type_error
  end.

(** [j.get<bool>()] *)
Definition get_bool (j : json) : res bool :=
  match j with
  | JBool b => Ok b
  | _ => Throw json_type_error
  end.

(** [j.get<std::string>()], also [std::string s = j]. *)
Definition get_string (j : json) : res string :=
  match j with
  | JString s => Ok s
  | _ => Throw json_type_error
  end.

(** [j.value(key, default)]: the converted member when the key is there,
    the default otherwise; a type error on a value that is not an object. *)
Definition value {A} (get : json -> res A) (j : json) (key : string)
    (default : A) : res A :=
  match j with
  | JObject m =>
      match m !! key with
      | Some v => get v
      | None => Ok default
      end
  | _ => Throw json_type_error
  end.

Definition value_int := value get_int.
Definition value_bool := value get_bool.
Definition value_string := value get_string.

(** [j == n] for an [int] n: numbers compare by value, everything else
    differs from a number. *)
Definition eq_int (j : json) (n : Z) : bool :=
  match j with
  | JInt z => z =? n
  | JFloat q => Qeq_bool q (inject_Z n)
  | _ => false
  end.

(** [json{{k1, v1}, ...}] *)
Definition obj (l : list (string * json)) : json := JObject (list_to_map l).

End Json.
Export Json.

(** ** Reconnection controller (src/gateway/reconnection.cpp) *)

Module Reconnection.

(** [ReconnectionManager::SessionInfo]; the [last_heartbeat] member is
    never read or written and is left out. *)
Record SessionInfo : Type := {
  session_id : string;
  sequence_number : Z;
  can_resume : bool
}.

Record ReconnectionManager : Type := {
  session_info_ : SessionInfo;
  auto_reconnect_enabled_ : bool;
  max_retries_ : Z;
  base_delay_ : Z;              (* milliseconds *)
  max_delay_ : Z;               (* milliseconds *)
  is_reconnecting_ : bool;
  current_retry_count_ : Z;
  should_stop_ : bool
}.

(** The default member initialisers of the class. *)
Definition initial : ReconnectionManager := {|
  session_info_ := {| session_id := ""; sequence_number := 0;
                      can_resume := false |};
  auto_reconnect_enabled_ := true;
  max_retries_ := 5;
  base_delay_ := 1000;
  max_delay_ := 30000;
  is_reconnecting_ := false;
  current_retry_count_ := 0;
  should_stop_ := false
|}.

Definition with_session (si : SessionInfo) (m : ReconnectionManager) :=
  {| session_info_ := si;
     auto_reconnect_enabled_ := auto_reconnect_enabled_ m;
     max_retries_ := max_retries_ m;
     base_delay_ := base_delay_ m;
     max_delay_ := max_delay_ m;
     is_reconnecting_ := is_reconnecting_ m;
     current_retry_count_ := current_retry_count_ m;
     should_stop_ := should_stop_ m |}.

Definition with_progress (reconnecting : bool) (count : Z) (stop : bool)
    (m : ReconnectionManager) :=
  {| session_info_ := session_info_ m;
     auto_reconnect_enabled_ := auto_reconnect_enabled_ m;
     max_retries_ := max_retries_ m;
     base_delay_ := base_delay_ m;
     max_delay_ := max_delay_ m;
     is_reconnecting_ := reconnecting;
     current_retry_count_ := count;
     should_stop_ := stop |}.

Definition with_config (enabled : bool) (retries base max : Z)
    (m : ReconnectionManager) :=
  {| session_info_ := session_info_ m;
     auto_reconnect_enabled_ := enabled;
     max_retries_ := retries;
     base_delay_ := base;
     max_delay_ := max;
     is_reconnecting_ := is_reconnecting_ m;
     current_retry_count_ := current_retry_count_ m;
     should_stop_ := should_stop_ m |}.

(** [session_id.clear(); sequence_number = 0; can_resume = false] *)
Definition cleared_session : SessionInfo :=
  {| session_id := ""; sequence_number := 0; can_resume := false |}.

(** [ReconnectionManager::is_resumable_close_code] *)
Definition is_resumable_close_code (close_code : Z) : bool :=
  match close_code with
  | 1000 | 1001 | 1006 | 1009 | 1011 | 1012 | 1013 | 1014 => true
  | 4000 | 4001 | 4002 | 4003 | 4004 | 4005 | 4007 | 4008 | 4009
  | 4010 | 4011 | 4012 | 4013 | 4014 => false
  | _ => (1000 <=? close_code) && (close_code <? 2000)
  end.

(** [ReconnectionManager::start_reconnect_sequence]: the thread it starts
    runs [exponential_backoff_reconnect], whose iterations are the
    [backoff_iteration] steps below. *)
Definition start_reconnect_sequence (m : ReconnectionManager)
    : ReconnectionManager :=
  if is_reconnecting_ m then m else with_progress true 0 false m.

(** [ReconnectionManager::handle_disconnect] *)
Definition handle_disconnect (close_code : Z) (reason : string)
    (m : ReconnectionManager) : ReconnectionManager :=
  if negb (auto_reconnect_enabled_ m) then m
  else
    let si := session_info_ m in
    let resumable := is_resumable_close_code close_code && can_resume si in
    let si' :=
      if resumable
      then {| session_id := session_id si;
              sequence_number := sequence_number si;
              can_resume := true |}
      else cleared_session in
    start_reconnect_sequence (with_session si' m).

(** [ReconnectionManager::handle_invalid_session] *)
Definition handle_invalid_session (resumable : bool)
    (m : ReconnectionManager) : ReconnectionManager :=
  let si := session_info_ m in
  let si' :=
    if resumable
    then {| session_id := session_id si;
            sequence_number := sequence_number si;
            can_resume := resumable |}
    else cleared_session in
  start_reconnect_sequence (with_session si' m).

(** [ReconnectionManager::handle_connection_restored] *)
Definition handle_connection_restored (m : ReconnectionManager)
    : ReconnectionManager :=
  with_progress false 0 true m.

Definition enable_auto_reconnect (enabled : bool) (m : ReconnectionManager) :=
  with_config enabled (max_retries_ m) (base_delay_ m) (max_delay_ m) m.

Definition set_max_retries (n : Z) (m : ReconnectionManager) :=
  with_config (auto_reconnect_enabled_ m) n (base_delay_ m) (max_delay_ m) m.

Definition set_base_delay (d : Z) (m : ReconnectionManager) :=
  with_config (auto_reconnect_enabled_ m) (max_retries_ m) d (max_delay_ m) m.

Definition set_max_delay (d : Z) (m : ReconnectionManager) :=
  with_config (auto_reconnect_enabled_ m) (max_retries_ m) (base_delay_ m) d m.

(** [ReconnectionManager::should_resume] *)
Definition should_resume (m : ReconnectionManager) : bool :=
  can_resume (session_info_ m)
  && negb (String.eqb (session_id (session_info_ m)) "").

(** [ReconnectionManager::reset_session] *)
Definition reset_session (m : ReconnectionManager) : ReconnectionManager :=
  with_session cleared_session m.

(** The calls [attempt_reconnection] makes on the two callbacks the owner
    of the manager installed with [set_callbacks]. *)
Inductive callback_call : Type :=
| reconnect_callback (should_resume : bool)
| resume_callback.

(** [ReconnectionManager::attempt_reconnection], with both callbacks set. *)
Definition attempt_reconnection (m : ReconnectionManager)
    : list callback_call :=
  let resume := should_resume m in
  [reconnect_callback resume] ++ (if resume then [resume_callback] else []).

(** Arithmetic on [double].  A finite [double] is the rational it denotes,
    and [fl x] stands for the [double] nearest to the real [x]: the result of
    an operation on doubles is [fl] of the exact result, and so is the
    conversion of an integer, as long as the result is finite.  What is
    used of [fl] is that it is monotone and that it leaves the integers up
    to [2^53] as they are. *)
Record rounding (fl : Q -> Q) : Prop := {
  fl_monotone : forall x y, (x <= y)%Q -> (fl x <= fl y)%Q;
  fl_integer : forall z, Z.abs z <= 2 ^ 53 -> (fl (inject_Z z) == inject_Z z)%Q
}.

(** A [double]: a finite one, or an infinity or a NaN.  The last three are
    not told apart: no operation here turns one of them into a finite
    value, and their conversion to an integer is undefined. *)
Inductive double : Type :=
| finite (q : Q)
| not_finite.

(** The least magnitude that rounds to an infinity: half an ulp above the
    largest finite [double]. *)
Definition DBL_OVERFLOW : Q := inject_Z (2 ^ 1024 - 2 ^ 970).

(** The [double] an exact result is rounded to. *)
Definition round (fl : Q -> Q) (x : Q) : double :=
  if Qle_bool DBL_OVERFLOW (Qabs x) then not_finite else finite (fl x).

(** The conversion of a [long long] to [double]. *)
Definition of_long_long (fl : Q -> Q) (z : Z) : double :=
  finite (fl (inject_Z z)).

(** The product of two doubles. *)
Definition mul (fl : Q -> Q) (a b : double) : double :=
  match a, b with
  | finite x, finite y => round fl (x * y)
  | _, _ => not_finite
  end.

(** [std::pow(2, attempt)] of an [int]: the power of two, which is exact
    while it is a [double]; an infinity from [2^1024] on, and zero below
    the least positive [double], [2^-1074]. *)
Definition pow2 (attempt : Z) : double :=
  if 1024 <=? attempt then not_finite
  else if attempt <? -1074 then finite 0
  else finite ((2 # 1) ^ attempt).

(** [static_cast<long long>(x)]: the fractional part is dropped.  The
    conversion is undefined, [None], when the result is not a [long long],
    and for an infinity and a NaN. *)
Definition to_long_long (x : double) : option Z :=
  match x with
  | finite q =>
      let t := Qtrunc q in
      if (INT64_MIN <=? t) && (t <=? INT64_MAX) then Some t else None
  | not_finite => None
  end.

(** [ReconnectionManager::calculate_backoff_delay], in milliseconds, on the
    base delay and the cap it loads; [None] when the conversion of the
    product is undefined.  The draw [u] of
    [uniform_real_distribution(0.8, 1.2)] is an argument. *)
Definition backoff_delay (fl : Q -> Q) (base max_delay attempt : Z) (u : Q)
    : option Z :=
  let product :=
    mul fl (mul fl (of_long_long fl base) (pow2 attempt)) (finite u) in
  delay ← to_long_long product;
  Some (Z.min delay max_delay).

Definition calculate_backoff_delay (fl : Q -> Q) (m : ReconnectionManager)
    (attempt : Z) (u : Q) : option Z :=
  backoff_delay fl (base_delay_ m) (max_delay_ m) attempt u.

(** One iteration of the loop of
    [ReconnectionManager::exponential_backoff_reconnect] whose wait (for
    [calculate_backoff_delay] of the retry count) was not interrupted: the
    callback calls made and the state afterwards.  [None] when the loop
    condition is false and the thread ends, clearing [is_reconnecting_]. *)
Definition backoff_iteration (m : ReconnectionManager)
    : option (list callback_call) * ReconnectionManager :=
  if should_stop_ m || negb (current_retry_count_ m <? max_retries_ m)
  then (None, with_progress false (current_retry_count_ m) (should_stop_ m) m)
  else
    (Some (attempt_reconnection m),
     with_progress (is_reconnecting_ m) (to_int (current_retry_count_ m + 1))
                   (should_stop_ m) m).

End Reconnection.

(** ** Gateway connection (src/gateway/websocket_client.cpp) *)

Module WebSocket.
Import Reconnection.

(** [GatewayOpcode] *)
Definition DISPATCH : Z := 0.
Definition HEARTBEAT : Z := 1.
Definition IDENTIFY : Z := 2.
Definition RESUME : Z := 6.
Definition RECONNECT : Z := 7.
Definition INVALID_SESSION : Z := 9.
Definition HELLO : Z := 10.
Definition HEARTBEAT_ACK : Z := 11.

(** The members of [WebSocketClient::Impl] the protocol code reads or
    writes.  [sent] is the sequence of text frames handed to the
    transport, oldest first; [heartbeat_] is the interval of the running
    heartbeat thread. *)
Record Impl : Type := {
  is_connected_ : bool;
  token_ : string;
  intents_ : Z;
  session_id_ : string;
  last_sequence_ : Z;
  heartbeat_ : option Z;
  reconnect_manager_ : ReconnectionManager;
  sent : list json
}.

(** [Impl::Impl()].  The constructor gives [intents_] and [last_sequence_]
    no value: whatever they hold is an argument here. *)
Definition initial (intents0 sequence0 : Z) : Impl := {|
  is_connected_ := false;
  token_ := "";
  intents_ := intents0;
  session_id_ := "";
  last_sequence_ := sequence0;
  heartbeat_ := None;
  reconnect_manager_ := Reconnection.initial;
  sent := []
|}.

Definition with_connected (b : bool) (c : Impl) : Impl :=
  {| is_connected_ := b; token_ := token_ c; intents_ := intents_ c;
     session_id_ := session_id_ c; last_sequence_ := last_sequence_ c;
     heartbeat_ := heartbeat_ c;
     reconnect_manager_ := reconnect_manager_ c; sent := sent c |}.

Definition with_manager (m : ReconnectionManager) (c : Impl) : Impl :=
  {| is_connected_ := is_connected_ c; token_ := token_ c;
     intents_ := intents_ c; session_id_ := session_id_ c;
     last_sequence_ := last_sequence_ c; heartbeat_ := heartbeat_ c;
     reconnect_manager_ := m; sent := sent c |}.

Definition with_sent (l : list json) (c : Impl) : Impl :=
  {| is_connected_ := is_connected_ c; token_ := token_ c;
     intents_ := intents_ c; session_id_ := session_id_ c;
     last_sequence_ := last_sequence_ c; heartbeat_ := heartbeat_ c;
     reconnect_manager_ := reconnect_manager_ c; sent := l |}.

Definition with_heartbeat (h : option Z) (c : Impl) : Impl :=
  {| is_connected_ := is_connected_ c; token_ := token_ c;
     intents_ := intents_ c; session_id_ := session_id_ c;
     last_sequence_ := last_sequence_ c; heartbeat_ := h;
     reconnect_manager_ := reconnect_manager_ c; sent := sent c |}.

(** [Impl::set_token], [Impl::set_intents] *)
Definition set_token (token : string) (c : Impl) : Impl :=
  {| is_connected_ := is_connected_ c; token_ := token;
     intents_ := intents_ c; session_id_ := session_id_ c;
     last_sequence_ := last_sequence_ c; heartbeat_ := heartbeat_ c;
     reconnect_manager_ := reconnect_manager_ c; sent := sent c |}.

Definition set_intents (intents : Z) (c : Impl) : Impl :=
  {| is_connected_ := is_connected_ c; token_ := token_ c;
     intents_ := intents; session_id_ := session_id_ c;
     last_sequence_ := last_sequence_ c; heartbeat_ := heartbeat_ c;
     reconnect_manager_ := reconnect_manager_ c; sent := sent c |}.

(** [Impl::send]: a frame goes out only while connected. *)
Definition send (payload : json) (c : Impl) : Impl :=
  if is_connected_ c then with_sent (sent c ++ [payload]) c else c.

Definition identify_payload (c : Impl) : json :=
  obj [("op", JInt 2);
       ("d", obj [("token", JString (token_ c));
                  ("intents", JInt (intents_ c));
                  ("properties", obj [("os", JString "linux");
                                      ("browser", JString "discord.cpp");
                                      ("device", JString "discord.cpp")])])].

Definition resume_payload (c : Impl) : json :=
  obj [("op", JInt 6);
       ("d", obj [("token", JString (token_ c));
                  ("session_id", JString (session_id_ c));
                  ("seq", JInt (last_sequence_ c))])].

Definition heartbeat_payload (c : Impl) : json :=
  obj [("op", JInt 1); ("d", JInt (last_sequence_ c))].

(** [Impl::identify] *)
Definition identify (c : Impl) : Impl := send (identify_payload c) c.

(** [Impl::resume] *)
Definition resume (c : Impl) : Impl :=
  if String.eqb (session_id_ c) "" then identify c
  else send (resume_payload c) c.

(** [Impl::start_heartbeat]: the thread it starts makes the
    [heartbeat_tick] steps. *)
Definition start_heartbeat (interval_ms : Z) (c : Impl) : Impl :=
  with_heartbeat (Some interval_ms) c.

(** One round of the loop of the heartbeat thread, after its sleep. *)
Definition heartbeat_tick (c : Impl) : Impl :=
  if is_connected_ c then send (heartbeat_payload c) c else c.

(** The open handler. *)
Definition on_open (c : Impl) : Impl :=
  with_manager (handle_connection_restored (reconnect_manager_ c))
               (with_connected true c).

(** The close handler, for the close code the transport reports. *)
Definition on_close (close_code : Z) (reason : string) (c : Impl) : Impl :=
  let c := with_connected false c in
  with_manager (handle_disconnect close_code reason (reconnect_manager_ c)) c.

(** The part of the message handler that looks at the opcode, inside its
    [try] block. *)
Definition handle_gateway_op (payload : json) (c : Impl) : res Impl :=
  if contains payload "op" then
    op ← at_key payload "op";
    opcode ← get_int op;
    if opcode =? HELLO then
      if contains payload "d" then
        d ← at_key payload "d";
        if contains d "heartbeat_interval" then
          i ← at_key d "heartbeat_interval";
          interval ← get_int i;
          Ok (start_heartbeat interval c)
        else Ok c
      else Ok c
    else if opcode =? INVALID_SESSION then
      resumable ← value_bool payload "d" false;
      Ok (with_manager
            (handle_invalid_session resumable (reconnect_manager_ c)) c)
    else if opcode =? RECONNECT then
      Ok (with_manager
            (handle_disconnect 1000 "Reconnect requested by Discord"
                               (reconnect_manager_ c)) c)
    else Ok c
  else Ok c.

(** The message handler on a frame that parsed to [payload]: the state
    afterwards, and the payload when it is passed on to the event
    callback.  An exception leaves through the [catch] before the callback
    is reached.  (A frame that does not parse throws before anything
    else happens.) *)
Definition on_message (payload : json) (c : Impl) : Impl * option json :=
  match handle_gateway_op payload c with
  | Ok c' => (c', Some payload)
  | Throw _ => (c, None)
  end.

(** The two callbacks [Impl::Impl()] installs in the manager. *)
Definition run_callback (call : callback_call) (c : Impl) : Impl :=
  match call with
  | reconnect_callback true => resume c
  | reconnect_callback false => identify c
  | resume_callback => resume c
  end.

(** One iteration of the manager's reconnection thread, run on the
    connection that owns the manager; there is such a thread only while
    [is_reconnecting_] is set. *)
Definition reconnect_attempt (c : Impl) : Impl :=
  if negb (is_reconnecting_ (reconnect_manager_ c)) then c
  else
    match backoff_iteration (reconnect_manager_ c) with
    | (Some calls, m) =>
        foldl (fun c call => run_callback call c) (with_manager m c) calls
    | (None, m) => with_manager m c
    end.

(** What can happen to a connection. *)
Inductive event : Type :=
| Open
| Close (close_code : Z) (reason : string)
| Message (payload : json)
| HeartbeatTick
| ReconnectAttempt
| CallIdentify
| SetToken (token : string)
| SetIntents (intents : Z).

Definition step (c : Impl) (e : event) : Impl :=
  match e with
  | Open => on_open c
  | Close code reason => on_close code reason c
  | Message payload => fst (on_message payload c)
  | HeartbeatTick => heartbeat_tick c
  | ReconnectAttempt => reconnect_attempt c
  | CallIdentify => identify c
  | SetToken t => set_token t c
  | SetIntents i => set_intents i c
  end.

Definition run (c : Impl) (events : list event) : Impl :=
  foldl step c events.

(** The opcode of a frame that was sent. *)
Definition is_op (n : Z) (frame : json) : bool :=
  match at_key frame "op" with
  | Ok op => eq_int op n
  | Throw _ => false
  end.

End WebSocket.

(** ** Shard manager (src/gateway/shard_manager.cpp) *)

Module Shard.

(** [ShardInfo]; the two time points are not read by the modelled code. *)
Record ShardInfo : Type := {
  shard_id : Z;
  shard_count : Z;
  session_id : string;
  sequence_number : Z;
  is_connected : bool;
  is_resumable : bool;
  reconnect_attempts : Z
}.

(** [ShardInfo::ShardInfo(id, total)] *)
Definition new_ShardInfo (id total : Z) : ShardInfo := {|
  shard_id := id; shard_count := total; session_id := "";
  sequence_number := 0; is_connected := false; is_resumable := false;
  reconnect_attempts := 0
|}.

Definition with_session (sid : string) (seq : Z) (resumable : bool)
    (info : ShardInfo) : ShardInfo :=
  {| shard_id := shard_id info; shard_count := shard_count info;
     session_id := sid; sequence_number := seq;
     is_connected := is_connected info; is_resumable := resumable;
     reconnect_attempts := reconnect_attempts info |}.


(** [ShardManager::handle_shard_ready], on the record of the shard. *)
Definition handle_shard_ready (ready_data : json) (info : ShardInfo)
    : res ShardInfo :=
  sid ← value_string ready_data "session_id" "";
  Ok (with_session sid 0 true info).

(** [ShardManager::handle_shard_resume] *)
Definition handle_shard_resume (resume_data : json) (info : ShardInfo)
    : ShardInfo :=
  with_session (session_id info) (sequence_number info) true info.

(** The first statement of [ShardManager::handle_shard_event]. *)
Definition update_sequence (event : json) (info : ShardInfo)
    : res ShardInfo :=
  if contains event "op"
     && match at_key event "op" with
        | Ok op => eq_int op 0
        | Throw _ => false
        end
     && contains event "s"
  then
    s ← value_int event "s" 0;
    Ok (with_session (session_id info) s (is_resumable info) info)
  else Ok info.

(** The second statement of [ShardManager::handle_shard_event]. *)
Definition handle_event_type (event : json) (info : ShardInfo)
    : res ShardInfo :=
  if contains event "t" then
    t ← at_key event "t";
    event_type ← get_string t;
    if String.eqb event_type "READY" then
      d ← at_key event "d";
      handle_shard_ready d info
    else if String.eqb event_type "RESUMED" then
      d ← at_key event "d";
      Ok (handle_shard_resume d info)
    else Ok info
  else Ok info.

(** [ShardManager::handle_shard_event], on the record of the shard: the
    record afterwards, and the exception that left the function, if any
    (what was assigned before it stays assigned). *)
Definition handle_shard_event (event : json) (info : ShardInfo)
    : ShardInfo * option exn :=
  match update_sequence event info with
  | Throw e => (info, Some e)
  | Ok info1 =>
      match handle_event_type event info1 with
      | Throw e => (info1, Some e)
      | Ok info2 => (info2, None)
      end
  end.


(** The loop body of [ShardManager::identify_all]. *)
Definition forget_session (info : ShardInfo) : ShardInfo :=
  with_session "" 0 false info.

(** The payloads of [ShardManager::resume_shard] and [identify_shard], and
    the choice [connect_shard] makes between the two after [connect]
    returned true.  The payload is passed to [WebSocketClient::send] of the
    shard's client, which drops it while its connection is not open. *)
Definition resume_payload (bot_token : string) (info : ShardInfo) : json :=
  obj [("op", JInt 6);
       ("d", obj [("token", JString bot_token);
                  ("session_id", JString (session_id info));
                  ("seq", JInt (sequence_number info))])].

Definition identify_payload (bot_token : string) (info : ShardInfo)
    (config_shard_count : Z) : json :=
  obj [("op", JInt 2);
       ("d", obj [("token", JString bot_token);
                  ("intents", JInt 0);
                  ("properties", obj [("os", JString "linux");
                                      ("browser", JString "discord.cpp");
                                      ("device", JString "discord.cpp")]);
                  ("shard", JArray [JInt (shard_id info);
                                    JInt config_shard_count])])].

Definition connect_payload (bot_token : string) (config_shard_count : Z)
    (info : ShardInfo) : json :=
  if is_resumable info && negb (String.eqb (session_id info) "")
  then resume_payload bot_token info
  else identify_payload bot_token info config_shard_count.

(** *** [std::stoull] *)

Definition is_space (c : ascii) : bool :=
  let n := Z.of_nat (nat_of_ascii c) in
  (n =? 32) || ((9 <=? n) && (n <=? 13)).

Fixpoint skip_space (s : string) : string :=
  match s with
  | String c r => if is_space c then skip_space r else s
  | EmptyString => s
  end.

Definition digit_of (c : ascii) : option Z :=
  let n := Z.of_nat (nat_of_ascii c) in
  if (48 <=? n) && (n <=? 57) then Some (n - 48) else None.

(** The value of the longest prefix of decimal digits, read after [acc]. *)
Fixpoint read_digits (s : string) (acc : Z) : Z :=
  match s with
  | String c r =>
      match digit_of c with
      | Some d => read_digits r (10 * acc + d)
      | None => acc
      end
  | EmptyString => acc
  end.

Definition starts_with_digit (s : string) : bool :=
  match s with
  | String c _ => bool_decide (is_Some (digit_of c))
  | EmptyString => false
  end.

(** [std::stoull(str)]: white space, an optional sign, decimal digits;
    what follows the digits is ignored.  No digit is [invalid_argument],
    a value above [ULLONG_MAX] is [out_of_range], and a minus sign negates
    the value modulo [2^64]. *)
Definition stoull (str : string) : res Z :=
  let s := skip_space str in
  let '(negative, s) :=
    match s with
    | String "-"%char r => (true, r)
    | String "+"%char r => (false, r)
    | _ => (false, s)
    end in
  if negb (starts_with_digit s) then Throw invalid_argument
  else
    let v := read_digits s 0 in
    if v >? UINT64_MAX then Throw out_of_range
    else Ok (if negative then (- v) mod 2 ^ 64 else v).

(** [ShardManager::get_shard_for_guild], for the configured shard count. *)
Definition get_shard_for_guild (config_shard_count : Z) (guild_id : string)
    : Z :=
  if config_shard_count <=? 1 then 0
  else
    match stoull guild_id with
    | Ok guild_id_num =>
        to_int (Z.shiftr guild_id_num 22 mod (config_shard_count mod 2 ^ 64))
    | Throw _ => 0
    end.

(** [ShardManager::validate_config] *)
Definition validate_config (config_shard_count max_concurrency : Z)
    (bot_token : string) : bool :=
  (0 <? config_shard_count) && (0 <? max_concurrency)
  && negb (String.eqb bot_token "").

End Shard.

(** ** Rate limiter (src/api/rate_limiter.cpp) *)

Module RateLimit.

(** [RateLimitInfo]; [remaining] and [limit] default to [-1]. *)
Record RateLimitInfo : Type := {
  remaining : Z;
  limit : Z;
  reset_time : Z;
  global : bool
}.

Definition default_RateLimitInfo : RateLimitInfo :=
  {| remaining := -1; limit := -1; reset_time := 0; global := false |}.

(** [RateLimiter::EndpointLimit]; [window] is in milliseconds and
    [request_times] is the queue, front first. *)
Record EndpointLimit : Type := {
  max_requests : Z;
  window : Z;
  request_times : list Z
}.

Record RateLimiter : Type := {
  rate_limits_ : gmap string RateLimitInfo;
  endpoint_limits_ : gmap string EndpointLimit;
  global_reset_time_ : Z
}.

Definition initial : RateLimiter :=
  {| rate_limits_ := ∅; endpoint_limits_ := ∅; global_reset_time_ := 0 |}.

(** Clock ticks (nanoseconds) in a millisecond. *)
Definition ticks_per_ms : Z := 1000000.

(** [RateLimiter::update_limits] *)
Definition update_limits (endpoint : string) (info : RateLimitInfo)
    (rl : RateLimiter) : RateLimiter :=
  {| rate_limits_ := <[endpoint := info]> (rate_limits_ rl);
     endpoint_limits_ := endpoint_limits_ rl;
     global_reset_time_ :=
       if global info then reset_time info else global_reset_time_ rl |}.

(** [RateLimiter::set_global_limit], reading the clock as [now].  The
    delay, in milliseconds, is converted to the nanoseconds of the clock
    and added to the instant, both in 64 bits. *)
Definition set_global_limit (now delay_ms : Z) (rl : RateLimiter)
    : RateLimiter :=
  {| rate_limits_ := rate_limits_ rl;
     endpoint_limits_ := endpoint_limits_ rl;
     global_reset_time_ :=
       to_int64 (now + to_int64 (delay_ms * ticks_per_ms)) |}.

(** [RateLimiter::set_endpoint_limit] *)
Definition set_endpoint_limit (endpoint : string) (max window_ms : Z)
    (rl : RateLimiter) : RateLimiter :=
  {| rate_limits_ := rate_limits_ rl;
     endpoint_limits_ :=
       <[endpoint := {| max_requests := max; window := window_ms;
                        request_times := [] |}]> (endpoint_limits_ rl);
     global_reset_time_ := global_reset_time_ rl |}.

(** The loop of [RateLimiter::cleanup_old_requests]: pop the front while
    it is older than the cutoff. *)
Fixpoint pop_older (cutoff : Z) (times : list Z) : list Z :=
  match times with
  | t :: rest => if t <? cutoff then pop_older cutoff rest else times
  | [] => []
  end.

(** [RateLimiter::cleanup_old_requests] *)
Definition cleanup_old_requests (now : Z) (endpoint : string)
    (rl : RateLimiter) : RateLimiter :=
  match endpoint_limits_ rl !! endpoint with
  | None => rl
  | Some el =>
      let cutoff := now - window el * ticks_per_ms in
      {| rate_limits_ := rate_limits_ rl;
         endpoint_limits_ :=
           <[endpoint := {| max_requests := max_requests el;
                            window := window el;
                            request_times :=
                              pop_older cutoff (request_times el) |}]>
             (endpoint_limits_ rl);
         global_reset_time_ := global_reset_time_ rl |}
  end.

(** The local request window of an endpoint is full. *)
Definition saturated (el : EndpointLimit) : bool :=
  to_size_t (max_requests el) <=? Z.of_nat (length (request_times el)).

(** [RateLimiter::can_make_request], reading the clock as [now]: the
    answer and the limiter afterwards. *)
Definition can_make_request (now : Z) (endpoint : string) (rl : RateLimiter)
    : bool * RateLimiter :=
  if now <? global_reset_time_ rl then (false, rl)
  else
    let blocked :=
      match rate_limits_ rl !! endpoint with
      | Some info =>
          (0 <=? remaining info)
          && ((remaining info =? 0) && (now <? reset_time info))
      | None => false
      end in
    if blocked then (false, rl)
    else
      match endpoint_limits_ rl !! endpoint with
      | Some _ =>
          let rl' := cleanup_old_requests now endpoint rl in
          match endpoint_limits_ rl' !! endpoint with
          | Some el' => (negb (saturated el'), rl')
          | None => (true, rl')
          end
      | None => (true, rl)
      end.

End RateLimit.

(** ** HTTP request pipeline (src/api/http_client.cpp) *)

Module Http.

(** [HTTPClient::Request]; the promise is named by a number. *)
Record Request : Type := {
  method : string;
  url : string;
  data : json;
  headers : list (string * string);
  promise : nat
}.

(** What one [curl_easy_perform] call gives back: whether it returned
    [CURLE_OK] (and the text of the error when not), the response code and
    the body collected by [WriteCallback]. *)
Record Transfer : Type := {
  curl_ok : bool;
  curl_strerror : string;
  response_code : Z;
  body : string
}.

(** [std::to_string] of a [long]. *)
Definition to_string (z : Z) : string := pretty z.

Section Pipeline.

(** [nlohmann::json::parse], and the remote end: the transfer that a
    request results in. *)
Variable parse : string -> res json.
Variable transport : Request -> Transfer.

(** The part of [HTTPClient::perform_request] after
    [curl_easy_perform] returned. *)
Definition check_response (t : Transfer) : res string :=
  if negb (curl_ok t)
  then Throw (runtime_error ("CURL error: " ++ curl_strerror t))
  else if 400 <=? response_code t then
    let error_msg := ("HTTP error " ++ to_string (response_code t))%string in
    let error_msg :=
      if negb (String.eqb (body t) "") then
        match parse (body t) with
        | Ok json_response =>
            if contains json_response "message" then
              match at_key json_response "message" ≫= get_string with
              | Ok m => (error_msg ++ ": " ++ m)%string
              | Throw _ => error_msg
              end
            else error_msg
        | Throw _ => error_msg
        end
      else error_msg in
    Throw (runtime_error error_msg)
  else Ok (body t).

(** [HTTPClient::perform_request]: one transfer, then the check. *)
Definition perform_request (r : Request) : res string :=
  check_response (transport r).

(** The pipeline: the queue (front first), the running flag, the
    requests handed to the transport so far (oldest first) and what each
    completed promise holds. *)
Record HTTPClient : Type := {
  request_queue_ : list Request;
  running_ : bool;
  performed : list Request;
  completed : list (nat * res json)
}.

(** The body of the [try] block of [HTTPClient::worker_loop]. *)
Definition serve (r : Request) : res json :=
  response ← perform_request r;
  if negb (String.eqb response "") then parse response else Ok JNull.

(** One iteration of the loop of [HTTPClient::worker_loop] that found a
    request in the queue. *)
Definition worker_iteration (h : HTTPClient) : HTTPClient :=
  if negb (running_ h) then h
  else
    match request_queue_ h with
    | [] => h
    | r :: rest =>
        {| request_queue_ := rest;
           running_ := running_ h;
           performed := performed h ++ [r];
           completed := completed h ++ [(promise r, serve r)] |}
    end.

(** [HTTPClient::get] and the like: the request joins the queue. *)
Definition submit (r : Request) (h : HTTPClient) : HTTPClient :=
  {| request_queue_ := request_queue_ h ++ [r];
     running_ := running_ h;
     performed := performed h;
     completed := completed h |}.

(** The worker run until the queue is empty. *)
Fixpoint drain (fuel : nat) (h : HTTPClient) : HTTPClient :=
  match fuel with
  | O => h
  | S fuel => drain fuel (worker_iteration h)
  end.

(** What the future of a promise holds. *)
Definition outcome (p : nat) (h : HTTPClient) : option (res json) :=
  match list_find (fun c => fst c = p) (completed h) with
  | Some (_, (_, r)) => Some r
  | None => None
  end.

End Pipeline.

End Http.

(** ** TTL cache (src/cache/cache_manager.cpp, cache_manager.h) *)

Module Cache.

(** [CacheEntry]; the two instants are [system_clock] time points. *)
Record CacheEntry : Type := {
  value : json;
  created_at : Z;
  expires_at : Z;
  is_persistent : bool
}.

(** [system_clock::time_point::max()] and the ticks in a second. *)
Definition time_point_max : Z := 2 ^ 63 - 1.
Definition ticks_per_second : Z := 1000000000.

(** [created_at + ttl]: the time to live, in seconds, is converted to the
    nanoseconds of the clock and added to the instant, both in 64 bits. *)
Definition after_seconds (tp ttl : Z) : Z :=
  to_int64 (tp + to_int64 (ttl * ticks_per_second)).

(** [CacheEntry::CacheEntry(val, ttl, persistent)], built at [now]; the
    time to live is in seconds. *)
Definition new_CacheEntry (now : Z) (val : json) (ttl : Z)
    (persistent : bool) : CacheEntry :=
  {| value := val;
     created_at := now;
     expires_at :=
       if 0 <? ttl then after_seconds now ttl else time_point_max;
     is_persistent := persistent |}.

(** [CacheEntry::is_expired], reading the clock as [now]. *)
Definition is_expired (now : Z) (e : CacheEntry) : bool :=
  negb (is_persistent e) && (expires_at e <? now).

(** [duration_cast<seconds>(tp.time_since_epoch()).count()] *)
Definition seconds_since_epoch (tp : Z) : Z := Z.quot tp ticks_per_second.

(** [system_clock::time_point(std::chrono::seconds(s))] *)
Definition time_point_of_seconds (s : Z) : Z := s * ticks_per_second.

Record CacheConfig : Type := {
  max_entries : Z;
  default_ttl : Z;
  cleanup_interval : Z;
  enable_persistence : bool;
  enable_compression : bool;
  cleanup_threshold : Q
}.

(** The [entry_data] object [export_cache] builds for one entry. *)
Definition entry_json (e : CacheEntry) : json :=
  obj [("value", value e);
       ("created_at", JInt (seconds_since_epoch (created_at e)));
       ("expires_at", JInt (seconds_since_epoch (expires_at e)));
       ("is_persistent", JBool (is_persistent e))].

(** The loop of [CacheManager::export_cache] over the cache. *)
Definition export_entries (now : Z) (cache_ : gmap string CacheEntry)
    : gmap string json :=
  map_fold (fun key entry acc =>
              if is_expired now entry then acc
              else <[key := entry_json entry]> acc)
           ∅ cache_.

Definition config_json (config_ : CacheConfig) : json :=
  obj [("max_entries", JInt (max_entries config_));
       ("default_ttl", JInt (default_ttl config_));
       ("cleanup_interval", JInt (cleanup_interval config_));
       ("enable_persistence", JBool (enable_persistence config_));
       ("enable_compression", JBool (enable_compression config_));
       ("cleanup_threshold", JFloat (cleanup_threshold config_))].

(** [CacheManager::export_cache] *)
Definition export_cache (now : Z) (config_ : CacheConfig)
    (cache_ : gmap string CacheEntry) : json :=
  obj [("entries", JObject (export_entries now cache_));
       ("config", config_json config_)].

(** The body of the [try] block of [CacheManager::import_cache]: the
    entry read from one [entry_data]. *)
Definition import_entry (entry_data : json) : res CacheEntry :=
  val ← at_key entry_data "value";
  persistent ← value_bool entry_data "is_persistent" false;
  created ← value_int entry_data "created_at" 0;
  expires ← value_int entry_data "expires_at" 0;
  Ok {| value := val;
        created_at := time_point_of_seconds created;
        expires_at := time_point_of_seconds expires;
        is_persistent := persistent |}.

(** The body of the loop of [CacheManager::import_cache]. *)
Definition import_step (overwrite : bool) (key : string) (entry_data : json)
    (cache_ : gmap string CacheEntry) : gmap string CacheEntry :=
  if String.eqb key "" then cache_
  else if negb overwrite && bool_decide (is_Some (cache_ !! key)) then cache_
  else
    match import_entry entry_data with
    | Ok entry => <[key := entry]> cache_
    | Throw _ => cache_
    end.

(** [j.items()] of a value that is not an object: the elements of an
    array under their indices, nothing for [null], and a scalar under the
    empty key. *)
Definition items (j : json) : list (string * json) :=
  match j with
  | JObject m => map_to_list m
  | JArray l => imap (fun i v => (pretty i, v)) l
  | JNull => []
  | _ => [("", j)]
  end.

(** [CacheManager::import_cache].  The keys of an object are distinct and
    a step touches the cache at its key only, so the order in which the
    loop meets them does not matter. *)
Definition import_cache (data : json) (overwrite : bool)
    (cache_ : gmap string CacheEntry) : gmap string CacheEntry :=
  if negb (contains data "entries") then cache_
  else
    match at_key data "entries" with
    | Ok (JObject entries) => map_fold (import_step overwrite) cache_ entries
    | Ok other =>
        foldl (fun c kv => import_step overwrite (fst kv) (snd kv) c)
              cache_ (items other)
    | Throw _ => cache_
    end.

(** [CacheManager::get], reading the clock as [now]. *)
Definition get (now : Z) (key : string) (cache_ : gmap string CacheEntry)
    : option json * gmap string CacheEntry :=
  if String.eqb key "" then (None, cache_)
  else
    match cache_ !! key with
    | None => (None, cache_)
    | Some e =>
        if is_expired now e then (None, delete key cache_)
        else (Some (value e), cache_)
    end.

(** The entries of a cache that are not expired at [now]. *)
Definition live (now : Z) (cache_ : gmap string CacheEntry)
    : gmap string CacheEntry :=
  filter (fun kv => is_expired now (snd kv) = false) cache_.

End Cache.

(** ** Event dispatcher (src/events/event_dispatcher.cpp) *)

Module Events.

(** A callable held by a [std::function<void(const json&)>]: the address
    of its [target_type()], a name by which a call of it is recorded, and
    the payloads on which it throws. *)
Record Callable : Type := {
  target_type : Z;
  target : nat;
  throws : json -> bool
}.

(** [EventHandlerInfo]; an empty [std::function] is [None]. *)
Record EventHandlerInfo : Type := {
  callback : option Callable;
  priority : Z;
  id : string;
  once : bool;
  created_at : Z
}.

(** What a move assignment leaves in the element it moved from: the
    function and the string are emptied, the scalars stay. *)
Definition moved_from (h : EventHandlerInfo) : EventHandlerInfo :=
  {| callback := None; priority := priority h; id := "";
     once := once h; created_at := created_at h |}.

(** The loop of [std::remove_if] from position [first] on, with [result]
    the position the next kept element moves to; [fuel] bounds the
    elements left. *)
Fixpoint remove_if_loop (pred : EventHandlerInfo -> bool) (fuel : nat)
    (v : list EventHandlerInfo) (result first : nat)
    : list EventHandlerInfo * nat :=
  match fuel with
  | O => (v, result)
  | S fuel =>
      match v !! first with
      | None => (v, result)
      | Some x =>
          if pred x then remove_if_loop pred fuel v result (S first)
          else remove_if_loop pred fuel
                 (<[first := moved_from x]> (<[result := x]> v))
                 (S result) (S first)
      end
  end.

(** [std::find_if]: the first position whose element satisfies the
    predicate, the length when there is none. *)
Fixpoint find_if (pred : EventHandlerInfo -> bool)
    (v : list EventHandlerInfo) : nat :=
  match v with
  | [] => O
  | x :: rest => if pred x then O else S (find_if pred rest)
  end.

(** [std::remove_if(v.begin(), v.end(), pred)]: the vector afterwards, of
    the same size, and the position of the returned iterator. *)
Definition remove_if (pred : EventHandlerInfo -> bool)
    (v : list EventHandlerInfo) : list EventHandlerInfo * nat :=
  let first := find_if pred v in
  if (first =? length v)%nat then (v, first)
  else remove_if_loop pred (length v) v first (S first).

(** [v.erase(pos)]: the one element at [pos] goes. *)
Definition erase_at (v : list EventHandlerInfo) (pos : nat)
    : list EventHandlerInfo :=
  take pos v ++ drop (S pos) v.

(** The comparison of [EventDispatcher::sort_handlers]. *)
Definition before (a b : EventHandlerInfo) : bool :=
  if negb (priority a =? priority b) then priority b <? priority a
  else created_at a <? created_at b.

Fixpoint insert_sorted (h : EventHandlerInfo) (v : list EventHandlerInfo)
    : list EventHandlerInfo :=
  match v with
  | [] => [h]
  | x :: rest => if before h x then h :: v else x :: insert_sorted h rest
  end.

(** [EventDispatcher::sort_handlers]: [std::sort] by [before].  Elements
    that [before] does not order keep their relative order here. *)
Definition sort_handlers (v : list EventHandlerInfo)
    : list EventHandlerInfo :=
  foldr insert_sorted [] v.

(** [IEventMiddleware], by what the chain depends on: whether [process]
    calls [next]. *)
Record Middleware : Type := {
  get_name : string;
  get_priority : Z;
  calls_next : string -> json -> bool
}.

Record EventDispatcher : Type := {
  handlers_ : gmap string (list EventHandlerInfo);
  middleware_ : list Middleware;
  events_dispatched_ : Z;
  handlers_executed_ : Z
}.

Definition initial : EventDispatcher :=
  {| handlers_ := ∅; middleware_ := [];
     events_dispatched_ := 0; handlers_executed_ := 0 |}.

Definition with_handlers (hs : gmap string (list EventHandlerInfo))
    (d : EventDispatcher) : EventDispatcher :=
  {| handlers_ := hs; middleware_ := middleware_ d;
     events_dispatched_ := events_dispatched_ d;
     handlers_executed_ := handlers_executed_ d |}.

(** [EventDispatcher::on], registering at the instant [now]. *)
Definition on (now : Z) (event_name : string) (cb : Callable)
    (prio : Z) (handler_id : string) (is_once : bool) (d : EventDispatcher)
    : string * EventDispatcher :=
  let final_handler_id :=
    if String.eqb handler_id ""
    then ("handler_" ++ pretty (target_type cb))%string
    else handler_id in
  let info := {| callback := Some cb; priority := prio;
                 id := final_handler_id; once := is_once;
                 created_at := now |} in
  let v := default [] (handlers_ d !! event_name) ++ [info] in
  (final_handler_id,
   with_handlers (<[event_name := sort_handlers v]> (handlers_ d)) d).

(** [EventDispatcher::off] *)
Definition off (event_name handler_id : string) (d : EventDispatcher)
    : bool * EventDispatcher :=
  match handlers_ d !! event_name with
  | None => (false, d)
  | Some handlers =>
      let '(handlers', handler_it) :=
        remove_if (fun info => String.eqb (id info) handler_id) handlers in
      let removed := negb (handler_it =? length handlers')%nat in
      (removed, with_handlers (<[event_name := handlers']> (handlers_ d)) d)
  end.

(** [EventDispatcher::get_handlers] *)
Definition get_handlers (event_name : string) (d : EventDispatcher)
    : list EventHandlerInfo :=
  default [] (handlers_ d !! event_name).

(** [EventDispatcher::get_handler_count] *)
Definition get_handler_count (d : EventDispatcher) : nat :=
  map_fold (fun _ handlers total => (total + length handlers)%nat) O
           (handlers_ d).

(** The calls of the loop over the copied handlers in [emit]: the callables
    called in order, how many returned, and the one-shot handlers to
    remove.  An empty function throws [bad_function_call], which the
    [catch] of the loop swallows like any other exception. *)
Fixpoint call_handlers (event_data : json) (handlers : list EventHandlerInfo)
    : list nat * Z * list EventHandlerInfo :=
  match handlers with
  | [] => ([], 0, [])
  | h :: rest =>
      let '(called, executed, to_remove) := call_handlers event_data rest in
      match callback h with
      | None => (called, executed, to_remove)
      | Some cb =>
          if throws cb event_data
          then (target cb :: called, executed, to_remove)
          else (target cb :: called, executed + 1,
                if once h then h :: to_remove else to_remove)
      end
  end.

(** The removal of the one-shot handlers at the end of [emit]. *)
Definition remove_fired (to_remove handler_list : list EventHandlerInfo)
    : list EventHandlerInfo :=
  foldl (fun handler_list remove_info =>
           let '(v, pos) :=
             remove_if (fun info => String.eqb (id info) (id remove_info))
                       handler_list in
           erase_at v pos)
        handler_list to_remove.

(** The final handler [emit] passes to the middleware chain. *)
Definition deliver (event_name : string) (event_data : json)
    (d : EventDispatcher) : list nat * EventDispatcher :=
  match handlers_ d !! event_name with
  | None => ([], d)
  | Some handlers =>
      let '(called, executed, to_remove) :=
        call_handlers event_data handlers in
      let hs :=
        match to_remove with
        | [] => handlers_ d
        | _ => <[event_name := remove_fired to_remove handlers]>
                 (handlers_ d)
        end in
      (called,
       {| handlers_ := hs; middleware_ := middleware_ d;
          events_dispatched_ := events_dispatched_ d;
          handlers_executed_ := handlers_executed_ d + executed |})
  end.

(** [EventDispatcher::execute_middleware_chain]: the final handler runs
    when every middleware of the chain called [next]. *)
Definition chain_passes (event_name : string) (event_data : json)
    (chain : list Middleware) : bool :=
  forallb (fun m => calls_next m event_name event_data) chain.

(** [EventDispatcher::emit]: the callables called, in order, and the
    dispatcher afterwards. *)
Definition emit (event_name : string) (event_data : json)
    (d : EventDispatcher) : list nat * EventDispatcher :=
  let d := {| handlers_ := handlers_ d; middleware_ := middleware_ d;
              events_dispatched_ := events_dispatched_ d + 1;
              handlers_executed_ := handlers_executed_ d |} in
  if chain_passes event_name event_data (middleware_ d)
  then deliver event_name event_data d
  else ([], d).

End Events.

(** ** The reconnection thread and the events of a controller
    (src/gateway/reconnection.cpp) *)

Module Controller.
Import Reconnection.

(** [ReconnectionManager::exponential_backoff_reconnect], run for at most
    [fuel] iterations, none of whose waits is interrupted: the callback
    calls of each attempt, in order, and the state afterwards. *)
Fixpoint backoff_loop (fuel : nat) (m : ReconnectionManager)
    : list (list callback_call) * ReconnectionManager :=
  match fuel with
  | O => ([], m)
  | S fuel =>
      match backoff_iteration m with
      | (None, m') => ([], m')
      | (Some calls, m') =>
          let '(rest, m'') := backoff_loop fuel m' in (calls :: rest, m'')
      end
  end.

(** What can happen to a controller: the calls of its public member
    functions, and an iteration of its thread. *)
Inductive event : Type :=
| Disconnect (close_code : Z) (reason : string)
| InvalidSession (resumable : bool)
| ConnectionRestored
| ResetSession
| EnableAutoReconnect (enabled : bool)
| SetMaxRetries (n : Z)
| SetBaseDelay (d : Z)
| SetMaxDelay (d : Z)
| Iteration.

Definition step (m : ReconnectionManager) (e : event) : ReconnectionManager :=
  match e with
  | Disconnect code reason => handle_disconnect code reason m
  | InvalidSession resumable => handle_invalid_session resumable m
  | ConnectionRestored => handle_connection_restored m
  | ResetSession => reset_session m
  | EnableAutoReconnect enabled => enable_auto_reconnect enabled m
  | SetMaxRetries n => set_max_retries n m
  | SetBaseDelay d => set_base_delay d m
  | SetMaxDelay d => set_max_delay d m
  | Iteration => snd (backoff_iteration m)
  end.

Definition run (m : ReconnectionManager) (events : list event)
    : ReconnectionManager :=
  foldl step m events.

End Controller.

(** ** Shard configurations (src/gateway/shard_manager.cpp, ShardFactory) *)

Module ShardFactory.

(** [ShardConfig] *)
Record ShardConfig : Type := {
  shard_count : Z;
  max_concurrency : Z;
  connection_delay : Z;           (* milliseconds *)
  heartbeat_interval : Z;         (* milliseconds *)
  auto_sharding : bool;
  compress : bool
}.

(** [ShardConfig::ShardConfig()] with the three members the factory sets. *)
Definition make_config (count concurrency delay : Z) : ShardConfig :=
  {| shard_count := count; max_concurrency := concurrency;
     connection_delay := delay; heartbeat_interval := 41250;
     auto_sharding := true; compress := true |}.

(** [ShardFactory::create_small_bot_config] and its two siblings. *)
Definition create_small_bot_config : ShardConfig := make_config 1 1 5000.
Definition create_medium_bot_config : ShardConfig := make_config 4 2 2500.
Definition create_large_bot_config : ShardConfig := make_config 16 4 1000.

(** [ShardFactory::calculate_optimal_shards]; the sum and the difference
    are [int]s, and the division of two [int]s drops the fractional
    part. *)
Definition calculate_optimal_shards (guild_count : Z) : Z :=
  let guilds_per_shard := 2000 in
  Z.max 1 (Z.quot (to_int (to_int (guild_count + guilds_per_shard) - 1))
                  guilds_per_shard).

(** [ShardFactory::create_config_for_guild_count] *)
Definition create_config_for_guild_count (guild_count : Z) : ShardConfig :=
  let count := calculate_optimal_shards guild_count in
  make_config count (Z.min 4 count) (Z.max 500 (Z.quot 5000 count)).

(** [ShardManager::validate_config] on a configuration. *)
Definition valid (config : ShardConfig) (bot_token : string) : bool :=
  Shard.validate_config (shard_count config) (max_concurrency config) bot_token.

End ShardFactory.

(** ** The shard manager under its mutex (src/gateway/shard_manager.cpp) *)

Module Manager.
Import Shard.

(** What a call of a member function comes to: it returns, or it locks
    the [std::mutex] of the manager while the calling thread already holds
    it.  The latter is undefined; on the usual implementations the thread
    waits for itself and the call never returns. *)
Inductive outcome (A : Type) : Type :=
| returns (a : A)
| relocks.
Arguments returns {A} a.
Arguments relocks {A}.

#[global] Instance outcome_ret : MRet outcome := fun A a => returns a.
#[global] Instance outcome_bind : MBind outcome := fun A B k r =>
  match r with
  | returns a => k a
  | relocks => relocks
  end.











End Manager.

(** ** The rest of the rate limiter (src/api/rate_limiter.cpp) *)

Module RateLimitOps.
Import RateLimit.

(** [duration_cast<milliseconds>] of a difference of time points. *)
Definition to_ms (ticks : Z) : Z := Z.quot ticks ticks_per_ms.

(** [RateLimiter::get_wait_time], reading the clock as [now]: the wait in
    milliseconds and the limiter afterwards.  The wait is [None] where the
    source takes the front of an empty queue, which is undefined. *)
Definition get_wait_time (now : Z) (endpoint : string) (rl : RateLimiter)
    : option Z * RateLimiter :=
  if now <? global_reset_time_ rl
  then (Some (to_ms (global_reset_time_ rl - now)), rl)
  else
    let bucket_wait :=
      match rate_limits_ rl !! endpoint with
      | Some info =>
          if (remaining info =? 0) && (now <? reset_time info)
          then Some (to_ms (reset_time info - now))
          else None
      | None => None
      end in
    match bucket_wait with
    | Some w => (Some w, rl)
    | None =>
        match endpoint_limits_ rl !! endpoint with
        | Some _ =>
            let rl' := cleanup_old_requests now endpoint rl in
            match endpoint_limits_ rl' !! endpoint with
            | Some el' =>
                if saturated el' then
                  match request_times el' with
                  | oldest_request :: _ =>
                      let reset := oldest_request + window el' * ticks_per_ms in
                      if now <? reset then (Some (to_ms (reset - now)), rl')
                      else (Some 0, rl')
                  | [] => (None, rl')
                  end
                else (Some 0, rl')
            | None => (Some 0, rl')
            end
        | None => (Some 0, rl)
        end
    end.

(** The calls of the public member functions of a limiter, each with the
    instant at which it reads the clock.  [wait_if_needed] changes the
    limiter as [get_wait_time] does. *)
Inductive call : Type :=
| UpdateLimits (endpoint : string) (info : RateLimitInfo)
| CanMakeRequest (now : Z) (endpoint : string)
| WaitIfNeeded (now : Z) (endpoint : string)
| SetGlobalLimit (now delay_ms : Z)
| SetEndpointLimit (endpoint : string) (max_requests window_ms : Z).

Definition step (rl : RateLimiter) (c : call) : RateLimiter :=
  match c with
  | UpdateLimits endpoint info => update_limits endpoint info rl
  | CanMakeRequest now endpoint => snd (can_make_request now endpoint rl)
  | WaitIfNeeded now endpoint => snd (get_wait_time now endpoint rl)
  | SetGlobalLimit now delay_ms => set_global_limit now delay_ms rl
  | SetEndpointLimit endpoint max window_ms =>
      set_endpoint_limit endpoint max window_ms rl
  end.

Definition run (rl : RateLimiter) (calls : list call) : RateLimiter :=
  foldl step rl calls.

(** The bucket of a route holds [remaining = 0] and its reset instant is
    still ahead. *)
Definition bucket_blocks (now : Z) (endpoint : string) (rl : RateLimiter)
    : bool :=
  match rate_limits_ rl !! endpoint with
  | Some info => (remaining info =? 0) && (now <? reset_time info)
  | None => false
  end.

End RateLimitOps.

(** ** Shutting the HTTP pipeline down (src/api/http_client.cpp) *)

Module HttpShutdown.
Import Http.

Definition shutting_down : exn := runtime_error "HTTP client shutting down".

(** [HTTPClient::shutdown]: the worker is stopped and joined, and every
    request still in the queue has its promise failed. *)
Definition shutdown (h : HTTPClient) : HTTPClient :=
  {| request_queue_ := [];
     running_ := false;
     performed := performed h;
     completed :=
       completed h
       ++ map (fun r => (promise r, Throw shutting_down)) (request_queue_ h) |}.

End HttpShutdown.

(** ** The operations of the cache manager (src/cache/cache_manager.cpp) *)

Module CacheOps.
Import Cache.

(** The members of [CacheManager] the operations read or write, and
    [notified], the pairs of key and value passed to the eviction callbacks
    so far, oldest first. *)
Record CacheManager : Type := {
  cache_ : gmap string CacheEntry;
  config_ : CacheConfig;
  last_cleanup_ : Z;
  notified : list (string * json)
}.

(** [CacheManager::CacheManager(config)], constructed at [now]. *)
Definition new_CacheManager (now : Z) (config : CacheConfig) : CacheManager :=
  {| cache_ := ∅; config_ := config; last_cleanup_ := now; notified := [] |}.

Definition with_cache (c : gmap string CacheEntry) (st : CacheManager)
    : CacheManager :=
  {| cache_ := c; config_ := config_ st; last_cleanup_ := last_cleanup_ st;
     notified := notified st |}.

(** What [set] and [set_persistent] throw on an empty key.  The header that
    declares the constructor from a message alone is not among the sources;
    the code it gives is taken to be 0. *)
Definition empty_key_error : exn :=
  DiscordException 0 "Cache key cannot be empty".

(** [CacheManager::should_cleanup]; the interval, converted to the
    nanoseconds of the clock, and the time since the last cleanup are
    64-bit counts. *)
Definition should_cleanup (now : Z) (st : CacheManager) : bool :=
  to_int64 (cleanup_interval (config_ st) * ticks_per_second)
  <=? to_int64 (now - last_cleanup_ st).

(** The loop of [CacheManager::cleanup_expired]: every entry of the table
    is visited once, and an expired one is notified and erased.  The
    accumulator is the table and the notifications so far. *)
Definition cleanup_loop (now : Z) (cache : gmap string CacheEntry)
    (log : list (string * json))
    : gmap string CacheEntry * list (string * json) :=
  map_fold (fun key entry acc =>
              if is_expired now entry
              then (delete key (fst acc), snd acc ++ [(key, value entry)])
              else acc)
           (cache, log) cache.

(** [CacheManager::cleanup_expired] *)
Definition cleanup_expired (now : Z) (force : bool) (st : CacheManager)
    : CacheManager :=
  if negb force && negb (should_cleanup now st) then st
  else
    let '(cache, log) := cleanup_loop now (cache_ st) (notified st) in
    {| cache_ := cache; config_ := config_ st; last_cleanup_ := now;
       notified := log |}.

(** The loop of [CacheManager::evict_lru].  [order] is the order in which
    the iteration from [begin()] meets the keys of the hash table, which
    the library does not specify; [budget] is what is left of [to_remove].
    Persistent entries are skipped. *)
Fixpoint evict_loop (order : list string) (budget : nat)
    (cache : gmap string CacheEntry) (log : list (string * json))
    : gmap string CacheEntry * list (string * json) :=
  match order, budget with
  | [], _ | _, O => (cache, log)
  | key :: rest, S budget' =>
      match cache !! key with
      | Some entry =>
          if is_persistent entry then evict_loop rest budget cache log
          else evict_loop rest budget' (delete key cache)
                          (log ++ [(key, value entry)])
      | None => evict_loop rest budget cache log
      end
  end.

(** [CacheManager::evict_lru(required_space)].  The product of the size and
    the threshold is computed in [float]; [fl] is the rounding to the
    nearest [float]. *)
Definition evict_lru (fl : Q -> Q) (order : list string) (required_space : Z)
    (st : CacheManager) : CacheManager :=
  if bool_decide (cache_ st = ∅) then st
  else
    let size := Z.of_nat (size (cache_ st)) in
    let to_remove :=
      if 0 <? required_space then required_space
      else to_size_t
             (Qtrunc (fl (fl (inject_Z size)
                          * cleanup_threshold (config_ st))%Q)) in
    let '(cache, log) :=
      evict_loop order (Z.to_nat to_remove) (cache_ st) (notified st) in
    {| cache_ := cache; config_ := config_ st;
       last_cleanup_ := last_cleanup_ st; notified := log |}.

(** The common part of [set] and [set_persistent]: the cleanup that is due,
    the eviction when the table is full, and the insertion. *)
Definition make_room (fl : Q -> Q) (order : list string) (now : Z)
    (st : CacheManager) : CacheManager :=
  let st := if should_cleanup now st then cleanup_expired now false st else st in
  if max_entries (config_ st) <=? Z.of_nat (size (cache_ st))
  then evict_lru fl order 0 st
  else st.

(** [CacheManager::set]; the time to live is in seconds. *)
Definition set (fl : Q -> Q) (order : list string) (now : Z) (key : string)
    (val : json) (ttl : Z) (st : CacheManager) : res CacheManager :=
  if String.eqb key "" then Throw empty_key_error
  else
    let st := make_room fl order now st in
    let ttl := if 0 <? ttl then ttl else default_ttl (config_ st) in
    Ok (with_cache (<[key := new_CacheEntry now val ttl false]> (cache_ st)) st).

(** [CacheManager::set_persistent] *)
Definition set_persistent (fl : Q -> Q) (order : list string) (now : Z)
    (key : string) (val : json) (st : CacheManager) : res CacheManager :=
  if String.eqb key "" then Throw empty_key_error
  else
    let st := make_room fl order now st in
    Ok (with_cache (<[key := new_CacheEntry now val 0 true]> (cache_ st)) st).

(** [CacheManager::get] *)
Definition get (now : Z) (key : string) (st : CacheManager)
    : option json * CacheManager :=
  let '(result, cache) := Cache.get now key (cache_ st) in
  (result, with_cache cache st).

(** [CacheManager::exists] *)
Definition exists_ (now : Z) (key : string) (st : CacheManager)
    : bool * CacheManager :=
  if String.eqb key "" then (false, st)
  else
    match cache_ st !! key with
    | None => (false, st)
    | Some e =>
        if is_expired now e then (false, with_cache (delete key (cache_ st)) st)
        else (true, st)
    end.

(** [CacheManager::remove] *)
Definition remove (key : string) (st : CacheManager) : CacheManager :=
  if String.eqb key "" then st
  else
    match cache_ st !! key with
    | None => st
    | Some e =>
        {| cache_ := delete key (cache_ st); config_ := config_ st;
           last_cleanup_ := last_cleanup_ st;
           notified := notified st ++ [(key, value e)] |}
    end.

(** [CacheManager::update_ttl] *)
Definition update_ttl (now : Z) (key : string) (ttl : Z) (st : CacheManager)
    : CacheManager :=
  match cache_ st !! key with
  | Some e =>
      if is_persistent e then st
      else
        with_cache
          (<[key := {| value := value e; created_at := created_at e;
                       expires_at :=
                         if 0 <? ttl then after_seconds now ttl
                         else time_point_max;
                       is_persistent := is_persistent e |}]> (cache_ st)) st
  | None => st
  end.

(** [std::chrono::seconds::max()] *)
Definition seconds_max : Z := 2 ^ 63 - 1.

(** [CacheManager::get_ttl], in seconds; its two readings of the clock are
    taken at the same instant [now]. *)
Definition get_ttl (now : Z) (key : string) (st : CacheManager) : Z :=
  match cache_ st !! key with
  | None => 0
  | Some e =>
      if is_expired now e then 0
      else if is_persistent e then seconds_max
      else if expires_at e <=? now then 0
      else Z.quot (to_int64 (expires_at e - now)) ticks_per_second
  end.

(** [CacheManager::set_config] *)
Definition set_config (fl : Q -> Q) (order : list string)
    (config : CacheConfig) (st : CacheManager) : CacheManager :=
  let st := {| cache_ := cache_ st; config_ := config;
               last_cleanup_ := last_cleanup_ st; notified := notified st |} in
  let size := Z.of_nat (size (cache_ st)) in
  if max_entries config <? size
  then evict_lru fl order (size - max_entries config) st
  else st.

(** [CacheManager::force_cleanup] *)
Definition force_cleanup (now : Z) (st : CacheManager) : CacheManager :=
  cleanup_expired now true st.

(** The calls of the member functions above, each with the instant at which
    it reads the clock and, where it may evict, the order in which the
    table is iterated. *)
Inductive call : Type :=
| Set_ (order : list string) (now : Z) (key : string) (val : json) (ttl : Z)
| SetPersistent (order : list string) (now : Z) (key : string) (val : json)
| Get (now : Z) (key : string)
| Exists (now : Z) (key : string)
| Remove (key : string)
| UpdateTtl (now : Z) (key : string) (ttl : Z)
| GetTtl (now : Z) (key : string)
| ForceCleanup (now : Z)
| SetConfig (order : list string) (config : CacheConfig).

(** The state after a call; a call that throws leaves it as it was. *)
Definition step (fl : Q -> Q) (st : CacheManager) (c : call) : CacheManager :=
  match c with
  | Set_ order now key val ttl =>
      match set fl order now key val ttl st with
      | Ok st' => st'
      | Throw _ => st
      end
  | SetPersistent order now key val =>
      match set_persistent fl order now key val st with
      | Ok st' => st'
      | Throw _ => st
      end
  | Get now key => snd (get now key st)
  | Exists now key => snd (exists_ now key st)
  | Remove key => remove key st
  | UpdateTtl now key ttl => update_ttl now key ttl st
  | GetTtl _ _ => st
  | ForceCleanup now => force_cleanup now st
  | SetConfig order config => set_config fl order config st
  end.

Definition run (fl : Q -> Q) (st : CacheManager) (calls : list call)
    : CacheManager :=
  foldl (step fl) st calls.

(** The call writes or removes the entry of [key] by name. *)
Definition names (key : string) (c : call) : bool :=
  match c with
  | Set_ _ _ k _ _ | SetPersistent _ _ k _ | Remove k => String.eqb k key
  | _ => false
  end.

End CacheOps.

(** ** Filters, collectors and the rate-limiting middleware
    (src/events/event_dispatcher.cpp, include/discord/events/event_dispatcher.h) *)

Module EventFilters.
Import Events.

(** [EventFilter], a [std::function<bool(const json&)>]: [None] is the
    empty function; the predicate of a filter that holds one is taken not
    to throw. *)
Definition EventFilter : Type := option (json -> bool).

(** [!filter || !filter(event)] *)
Definition fails (filter : EventFilter) (event : json) : bool :=
  match filter with
  | None => true
  | Some p => negb (p event)
  end.

(** [filter && filter(event)] *)
Definition holds (filter : EventFilter) (event : json) : bool :=
  match filter with
  | None => false
  | Some p => p event
  end.

(** [EventFilters::and_filter] *)
Definition and_filter (filters : list EventFilter) : EventFilter :=
  Some (fun event => forallb (fun f => negb (fails f event)) filters).

(** [EventFilters::or_filter] *)
Definition or_filter (filters : list EventFilter) : EventFilter :=
  Some (fun event => existsb (fun f => holds f event) filters).

(** [EventFilters::not_filter] *)
Definition not_filter (filter : EventFilter) : EventFilter :=
  Some (fun event => fails filter event).

(** [EventDispatcher::emit_filtered] *)
Definition emit_filtered (event_name : string) (event_data : json)
    (filters : list EventFilter) (d : EventDispatcher)
    : list nat * EventDispatcher :=
  if forallb (fun f => negb (fails f event_data)) filters
  then emit event_name event_data d
  else ([], d).

End EventFilters.

Module Collector.

(** [CollectorConfig]; the timeout is in milliseconds. *)
Record CollectorConfig : Type := {
  timeout : Z;
  max_matches : Z;
  dispose_on_timeout : bool
}.

(** [EventCollector<nlohmann::json>]: the conversion of an event to the
    collected type is the identity.  A filter may throw. *)
Record EventCollector : Type := {
  collected_items_ : list json;
  filter_ : option (json -> res bool);
  config_ : CollectorConfig;
  is_active_ : bool;
  start_time_ : Z
}.

(** [EventCollector::EventCollector(filter, config)]; the start time is
    the epoch until [start] sets it. *)
Definition new_EventCollector (filter : option (json -> res bool))
    (config : CollectorConfig) : EventCollector :=
  {| collected_items_ := []; filter_ := filter; config_ := config;
     is_active_ := false; start_time_ := 0 |}.

(** [EventCollector::should_stop_collecting] *)
Definition should_stop_collecting (c : EventCollector) : bool :=
  (0 <? max_matches (config_ c))
  && (to_size_t (max_matches (config_ c))
      <=? Z.of_nat (length (collected_items_ c))).

(** [EventCollector::stop] *)
Definition stop (c : EventCollector) : EventCollector :=
  if negb (is_active_ c) then c
  else {| collected_items_ := collected_items_ c; filter_ := filter_ c;
          config_ := config_ c; is_active_ := false;
          start_time_ := start_time_ c |}.

(** What [EventCollector::start] does to the collector, at the instant
    [now]; the callback it registers is [callback] below. *)
Definition start (now : Z) (c : EventCollector) : EventCollector :=
  if is_active_ c then c
  else {| collected_items_ := collected_items_ c; filter_ := filter_ c;
          config_ := config_ c; is_active_ := true; start_time_ := now |}.

Definition push_back (event : json) (c : EventCollector) : EventCollector :=
  {| collected_items_ := collected_items_ c ++ [event]; filter_ := filter_ c;
     config_ := config_ c; is_active_ := is_active_ c;
     start_time_ := start_time_ c |}.

(** The callback [start] registers with the dispatcher.  An exception of
    the filter is caught and the event is not collected. *)
Definition callback (c : EventCollector) (event : json) : EventCollector :=
  if negb (is_active_ c) then c
  else
    let collect :=
      let c := push_back event c in
      if should_stop_collecting c then stop c else c in
    match filter_ c with
    | None => collect
    | Some f =>
        match f event with
        | Ok true => collect
        | Ok false => c
        | Throw _ => c
        end
    end.

End Collector.

Module EventMiddleware.

(** [EventMiddleware::RateLimiter]: per event name, the count of the
    current window and the instant at which the window began; the window
    size is in milliseconds. *)
Record RateLimiter : Type := {
  max_events_per_window_ : Z;
  window_size_ : Z;
  counters_ : gmap string (Z * Z)
}.

Definition ticks_per_ms : Z := 1000000.

(** [RateLimiter::process] at the instant [now]: whether [next] is called,
    which is also what it returns, and the limiter afterwards.
    [counters_[event_name]] of a name not seen yet is a zero count and the
    epoch.  The time since the window began and the window size, converted
    to the nanoseconds of the clock, are 64-bit counts. *)
Definition process (now : Z) (event_name : string) (rl : RateLimiter)
    : bool * RateLimiter :=
  let counter := default (0, 0) (counters_ rl !! event_name) in
  let counter :=
    if to_int64 (window_size_ rl * ticks_per_ms)
       <=? to_int64 (now - snd counter)
    then (0, now) else counter in
  if max_events_per_window_ rl <=? fst counter
  then (false,
        {| max_events_per_window_ := max_events_per_window_ rl;
           window_size_ := window_size_ rl;
           counters_ := <[event_name := counter]> (counters_ rl) |})
  else (true,
        {| max_events_per_window_ := max_events_per_window_ rl;
           window_size_ := window_size_ rl;
           counters_ := <[event_name := (fst counter + 1, snd counter)]>
                          (counters_ rl) |}).

(** The events of one name arriving at the instants [nows], in order: how
    many were passed on, and the limiter afterwards. *)
Fixpoint passed (event_name : string) (nows : list Z) (rl : RateLimiter)
    : Z * RateLimiter :=
  match nows with
  | [] => (0, rl)
  | now :: rest =>
      let '(ok, rl) := process now event_name rl in
      let '(n, rl) := passed event_name rest rl in
      ((if ok then 1 else 0) + n, rl)
  end.

End EventMiddleware.

(** * Vocabulary of the properties: predicates and sample inputs *)

Module Samples.
Import Reconnection.

(** The session identity is what it was: same id, same sequence, and
    resuming is allowed as before. *)
Definition session_preserved (m m' : ReconnectionManager) : Prop :=
  session_id (session_info_ m') = session_id (session_info_ m)
  /\ sequence_number (session_info_ m') = sequence_number (session_info_ m)
  /\ can_resume (session_info_ m') = can_resume (session_info_ m).

(** The controller after the gateway answered an identify with
    INVALID_SESSION and [d = true]: resuming is allowed. *)
Definition after_invalid_session : ReconnectionManager :=
  handle_invalid_session true Reconnection.initial.

(** The controller with ten retries configured and the default delays. *)
Definition ten_retries : ReconnectionManager :=
  set_max_retries 10 Reconnection.initial.

(** What C6 says of the delay scheduled for attempt [k] with jitter [u]: it
    is the smaller of the cap and the jittered product, and it lies between
    0.8 times the uncapped delay and the smaller of the cap and 1.2 times
    it. *)
Definition claimed_backoff (fl : Q -> Q) (m : ReconnectionManager) (k : Z)
    (u : Q) : Prop :=
  let B := inject_Z (base_delay_ m * 2 ^ k) in
  exists scheduled,
    calculate_backoff_delay fl m k u = Some scheduled
    /\ let delay := inject_Z scheduled in
       (delay == Qmin (inject_Z (max_delay_ m)) (B * u)
        /\ (4 # 5) * B <= delay
        /\ delay <= Qmin (inject_Z (max_delay_ m)) ((6 # 5) * B))%Q.

(** Arithmetic without rounding error. *)
Definition no_rounding (x : Q) : Q := x.

(** Payloads as the gateway sends them. *)
Definition hello_payload : json :=
  obj [("op", JInt 10); ("s", JNull); ("t", JNull);
       ("d", obj [("heartbeat_interval", JInt 45000)])].

Definition ready_payload : json :=
  obj [("op", JInt 0); ("s", JInt 1); ("t", JString "READY");
       ("d", obj [("v", JInt 10); ("session_id", JString "abc")])].

Definition message_create_payload (s : Z) : json :=
  obj [("op", JInt 0); ("s", JInt s); ("t", JString "MESSAGE_CREATE");
       ("d", obj [("content", JString "hello")])].

Definition reconnect_payload : json :=
  obj [("op", JInt 7); ("s", JNull); ("t", JNull); ("d", JNull)].

(** What C8 says of the session record of a shard. *)
Definition claimed_session_invariant (info : Shard.ShardInfo) : Prop :=
  Shard.is_resumable info = true ->
  Shard.session_id info <> "" /\ 0 < Shard.sequence_number info.

(** The record of shard 0 of 1 once its READY dispatch is processed. *)
Definition shard_after_ready : Shard.ShardInfo :=
  fst (Shard.handle_shard_event ready_payload (Shard.new_ShardInfo 0 1)).

(** A connection that is opened, greeted, identified and made ready, and
    then receives one more dispatch with sequence number [s]. *)
Definition established (s : Z) : list WebSocket.event :=
  [WebSocket.SetToken "token"; WebSocket.SetIntents 513; WebSocket.Open;
   WebSocket.Message hello_payload; WebSocket.CallIdentify;
   WebSocket.Message ready_payload;
   WebSocket.Message (message_create_payload s)].

(** The gateway then asks for a reconnect (opcode 7, handled as close code
    1000), and the reconnection thread makes its first attempt. *)
Definition reconnect_requested : list WebSocket.event :=
  established 2
  ++ [WebSocket.Message reconnect_payload; WebSocket.ReconnectAttempt].

(** Or the transport drops with close code 1006, and the reconnection
    thread makes its first attempt. *)
Definition transport_dropped : list WebSocket.event :=
  established 2
  ++ [WebSocket.Close 1006 "Abnormal closure"; WebSocket.ReconnectAttempt].

(** No frame of a list is a RESUME. *)
Definition no_resume (frames : list json) : Prop :=
  Forall (fun frame => WebSocket.is_op WebSocket.RESUME frame = false) frames.

(** An instant cut to whole seconds. *)
Definition whole_seconds (tp : Z) : Z :=
  Cache.time_point_of_seconds (Cache.seconds_since_epoch tp).

(** What [import_cache] reads back from the [entry_data] that
    [export_cache] wrote for an entry. *)
Definition reimported (e : Cache.CacheEntry) : Cache.CacheEntry :=
  {| Cache.value := Cache.value e;
     Cache.created_at :=
       Cache.time_point_of_seconds
         (to_int (Cache.seconds_since_epoch (Cache.created_at e)));
     Cache.expires_at :=
       Cache.time_point_of_seconds
         (to_int (Cache.seconds_since_epoch (Cache.expires_at e)));
     Cache.is_persistent := Cache.is_persistent e |}.

(** The default [CacheConfig]. *)
Definition default_config : Cache.CacheConfig :=
  {| Cache.max_entries := 10000; Cache.default_ttl := 3600;
     Cache.cleanup_interval := 300; Cache.enable_persistence := false;
     Cache.enable_compression := false; Cache.cleanup_threshold := 4 # 5 |}.

(** A cache with one entry, set half a second past a full second with a
    time to live of ten seconds, and an instant 9.7 seconds later. *)
Definition half_past : Z := 1700000000500000000.
Definition a_little_before_expiry : Z := 1700000010200000000.
Definition one_entry : gmap string Cache.CacheEntry :=
  {["user:1" := Cache.new_CacheEntry half_past (JString "Ada") 10 false]}.

(** The export of a cache, imported with [overwrite = true] into an empty
    cache. *)
Definition round_trip (now : Z) (config_ : Cache.CacheConfig)
    (cache_ : gmap string Cache.CacheEntry) : gmap string Cache.CacheEntry :=
  Cache.import_cache (Cache.export_cache now config_ cache_) true ∅.

(** A double quote, and the body of a rate-limited response:
    a JSON object with the members message, retry_after and global. *)
Definition dq : string := String (ascii_of_nat 34) "".

Definition rate_limited_body : string :=
  ("{" ++ dq ++ "message" ++ dq ++ ": " ++ dq ++ "You are being rate limited."
   ++ dq ++ ", " ++ dq ++ "retry_after" ++ dq ++ ": 1.5, " ++ dq ++ "global"
   ++ dq ++ ": false}")%string.

(** [nlohmann::json::parse] on that body; no other body is parsed in the
    sample exchange. *)
Definition parse_sample (text : string) : res json :=
  if String.eqb text rate_limited_body
  then Ok (obj [("message", JString "You are being rate limited.");
                ("retry_after", JFloat (3 # 2));
                ("global", JBool false)])
  else Throw json_parse_error.

(** A remote end that answers every request with status 429 and that body. *)
Definition always_429 (r : Http.Request) : Http.Transfer :=
  {| Http.curl_ok := true; Http.curl_strerror := "No error";
     Http.response_code := 429; Http.body := rate_limited_body |}.

Definition post_message : Http.Request :=
  {| Http.method := "POST";
     Http.url := "https://discord.com/api/v10/channels/1/messages";
     Http.data := obj [("content", JString "hello")];
     Http.headers := [];
     Http.promise := 0%nat |}.

(** A running pipeline with the requests [queue] waiting. *)
Definition pipeline (queue : list Http.Request) : Http.HTTPClient :=
  {| Http.request_queue_ := queue; Http.running_ := true;
     Http.performed := []; Http.completed := [] |}.

(** The message of a response body: the string member [message] of the
    JSON object the body parses to.  There is none when the body is empty,
    does not parse, is not an object, or has no such member that is a
    string. *)
Definition body_message (parse : string -> res json) (text : string)
    : option string :=
  if String.eqb text "" then None
  else
    match parse text with
    | Ok (JObject members) =>
        match members !! "message" with
        | Some (JString m) => Some m
        | _ => None
        end
    | _ => None
    end.

(** The text of the error for a response of status 429 with that body. *)
Definition error_429 (parse : string -> res json) (text : string) : string :=
  match body_message parse text with
  | Some m => ("HTTP error 429: " ++ m)%string
  | None => "HTTP error 429"
  end.

(** What C4 says the future of a rate-limited request holds. *)
Definition rate_limited_error (o : option (res json)) : Prop :=
  exists retry_after message,
    o = Some (Throw (RateLimitException retry_after message)).

(** What C5 says of the bucket stored by an update. *)
Definition stored_remaining_nonneg (endpoint : string)
    (rl : RateLimit.RateLimiter) : Prop :=
  forall bucket,
    RateLimit.rate_limits_ rl !! endpoint = Some bucket ->
    0 <= RateLimit.remaining bucket.

(** The local sliding window of an endpoint is not saturated at [now]:
    there is none, or it has room once the old requests are dropped. *)
Definition window_open (now : Z) (endpoint : string)
    (rl : RateLimit.RateLimiter) : Prop :=
  forall el,
    RateLimit.endpoint_limits_ rl !! endpoint = Some el ->
    Z.of_nat (length (RateLimit.pop_older
                        (now - RateLimit.window el * RateLimit.ticks_per_ms)
                        (RateLimit.request_times el)))
    < to_size_t (RateLimit.max_requests el).

(** A limiter that learnt from a response that the bucket of a route is
    used up until the instant 2000. *)
Definition exhausted_until_2000 : RateLimit.RateLimiter :=
  RateLimit.update_limits "/channels/1/messages"
    {| RateLimit.remaining := 0; RateLimit.limit := 5;
       RateLimit.reset_time := 2000; RateLimit.global := false |}
    RateLimit.initial.

(** Two callables that return normally, and dispatchers with one and with
    two handlers registered for MESSAGE_CREATE. *)
Definition greeter : Events.Callable :=
  {| Events.target_type := 4198400; Events.target := 1%nat;
     Events.throws := fun _ => false |}.

Definition logger : Events.Callable :=
  {| Events.target_type := 4198432; Events.target := 2%nat;
     Events.throws := fun _ => false |}.

Definition one_handler : Events.EventDispatcher :=
  snd (Events.on 100 "MESSAGE_CREATE" greeter 0 "greet" false Events.initial).

Definition two_handlers : Events.EventDispatcher :=
  snd (Events.on 200 "MESSAGE_CREATE" logger 0 "log" false one_handler).

(** The handlers of an event that have the id [handler_id]. *)
Definition with_id (handler_id : string) (v : list Events.EventHandlerInfo)
    : list Events.EventHandlerInfo :=
  filter (fun info => Events.id info = handler_id) v.

(** A connection that holds a session, as [READY] would have left it had it
    been recorded: connected, with the id and the sequence number stored
    both in the connection and in its controller, and the reconnection
    thread started. *)
Definition holding_session (sid : string) (seq : Z) : WebSocket.Impl :=
  {| WebSocket.is_connected_ := true;
     WebSocket.token_ := "token";
     WebSocket.intents_ := 513;
     WebSocket.session_id_ := sid;
     WebSocket.last_sequence_ := seq;
     WebSocket.heartbeat_ := Some 45000;
     WebSocket.reconnect_manager_ :=
       start_reconnect_sequence
         (with_session {| session_id := sid; sequence_number := seq;
                          can_resume := true |} Reconnection.initial);
     WebSocket.sent := [] |}.

(** The record of shard 0 of 1 after READY and a dispatch with sequence
    number 2. *)
Definition shard_after_dispatch : Shard.ShardInfo :=
  fst (Shard.handle_shard_event (message_create_payload 2) shard_after_ready).

(** A cache whose one entry was made never to expire, by [update_ttl] with
    a time to live of zero. *)
Definition never_expiring : gmap string Cache.CacheEntry :=
  {["motd" := {| Cache.value := JString "welcome";
                 Cache.created_at := half_past;
                 Cache.expires_at := Cache.time_point_max;
                 Cache.is_persistent := false |}]}.

End Samples.

(** * Further vocabulary *)

Module MoreSamples.

(** A frame a connection may send of its own: an IDENTIFY built from some
    state of the connection, or the HEARTBEAT that carries [sequence]. *)
Definition own_frame (sequence : Z) (frame : json) : Prop :=
  (exists c, frame = WebSocket.identify_payload c)
  \/ frame = obj [("op", JInt 1); ("d", JInt sequence)].

(** The queue of every local window of a limiter is empty. *)
Definition queues_empty (rl : RateLimit.RateLimiter) : Prop :=
  forall endpoint el,
    RateLimit.endpoint_limits_ rl !! endpoint = Some el ->
    RateLimit.request_times el = [].

(** An instant that is a whole number of seconds after the epoch, the
    number fitting an [int]. *)
Definition on_whole_seconds (tp : Z) : Prop :=
  exists s, fits_int s /\ tp = Cache.time_point_of_seconds s.

(** A cache with one persistent entry. *)
Definition pinned : CacheOps.CacheManager :=
  CacheOps.with_cache (<["p" := Cache.new_CacheEntry 0 JNull 0 true]> ∅)
    (CacheOps.new_CacheManager 0 Samples.default_config).

(** The events a collector's filter lets through: every event when there
    is no filter, none on which the filter throws. *)
Definition accepted (filter : option (json -> res bool)) (event : json) : bool :=
  match filter with
  | None => true
  | Some f => match f event with Ok b => b | Throw _ => false end
  end.

(** The order in which handlers are to run: higher priority first, and
    among equal priorities the one registered earlier. *)
Definition runs_before (a b : Events.EventHandlerInfo) : Prop :=
  Events.priority b < Events.priority a
  \/ (Events.priority a = Events.priority b
      /\ Events.created_at a <= Events.created_at b).

(** The callables of a list of handlers, in order. *)
Definition callables (handlers : list Events.EventHandlerInfo) : list nat :=
  omap (fun h => Events.target <$> Events.callback h) handlers.

(** A one-shot handler whose callback returns on the event. *)
Definition fired (event_data : json) (h : Events.EventHandlerInfo) : bool :=
  match Events.callback h with
  | Some cb => negb (Events.throws cb event_data) && Events.once h
  | None => false
  end.


End MoreSamples.

(** * Properties *)

(** ** Machine integers *)

Section MachineIntFacts.

Lemma to_int_fits z : fits_int z -> to_int z = z.
Proof.
  unfold fits_int, to_int, INT_MIN, INT_MAX. intros H.
  rewrite Z.mod_small; lia.
Qed.

Lemma to_int64_fits z : fits_int64 z -> to_int64 z = z.
Proof.
  unfold fits_int64, to_int64, INT64_MIN, INT64_MAX. intros H.
  rewrite Z.mod_small; lia.
Qed.

Lemma to_int_range z : fits_int (to_int z).
Proof.
  unfold fits_int, to_int, INT_MIN, INT_MAX.
  pose proof (Z.mod_pos_bound (z + 2 ^ 31) (2 ^ 32) ltac:(lia)). lia.
Qed.

End MachineIntFacts.

(** ** Close codes and the session of the reconnection controller *)

Section CloseCodes.
Import Reconnection Samples.

(** The [switch] of [is_resumable_close_code] agrees with its [default]
    branch on every code: the listed 1xxx codes lie in the range, the
    listed 4xxx codes do not. *)
Lemma is_resumable_close_code_range c :
  is_resumable_close_code c = (1000 <=? c) && (c <? 2000).
Proof.
  destruct c as [|p|p]; try reflexivity.
  unfold is_resumable_close_code.
  repeat (match goal with
          | |- context [match ?q with xH => _ | _ => _ end] =>
              is_var q; destruct q
          end; try reflexivity).
Qed.

Lemma session_eta (si : SessionInfo) :
  can_resume si = true ->
  {| session_id := session_id si; sequence_number := sequence_number si;
     can_resume := true |} = si.
Proof. destruct si; simpl; intros ->; reflexivity. Qed.

Lemma start_reconnect_sequence_session m :
  session_info_ (start_reconnect_sequence m) = session_info_ m.
Proof. unfold start_reconnect_sequence. destruct (is_reconnecting_ m); reflexivity. Qed.

(** C1, as stated, fails: a disconnect with close code 4000 does not
    preserve the session of a controller that was allowed to resume. *)
Lemma close_4000_drops_session :
  can_resume (session_info_ after_invalid_session) = true
  /\ ~ session_preserved after_invalid_session
        (handle_disconnect 4000 "Unknown error" after_invalid_session).
Proof.
  split; [reflexivity|].
  unfold session_preserved. vm_compute. intros (_ & _ & H). discriminate H.
Qed.

(** C1, amended: a close code is classified resumable exactly when it lies
    in [1000, 2000), so each of 4000-4005 and 4007-4014 is not; and with
    auto-reconnect on, handling a disconnect leaves the session as it is
    when the code is resumable and the session may resume, and clears it
    (empty id, sequence 0, no resume) in every other case.  With
    auto-reconnect off the session is not touched. *)
Theorem handle_disconnect_session c reason m :
  is_resumable_close_code c = (1000 <=? c) && (c <? 2000)
  /\ session_info_ (handle_disconnect c reason m) =
       if auto_reconnect_enabled_ m
          && negb (is_resumable_close_code c && can_resume (session_info_ m))
       then cleared_session
       else session_info_ m.
Proof.
  split; [apply is_resumable_close_code_range|].
  unfold handle_disconnect.
  destruct (auto_reconnect_enabled_ m); simpl; [|reflexivity].
  rewrite start_reconnect_sequence_session. simpl.
  destruct (is_resumable_close_code c); simpl; [|reflexivity].
  destruct (can_resume (session_info_ m)) eqn:E; simpl; [|reflexivity].
  by apply session_eta.
Qed.

End CloseCodes.

(** ** Exponential backoff *)

Section Backoff.
Import Reconnection Samples.

Lemma Qtrunc_nonneg q : (0 <= q)%Q -> Qtrunc q = Qfloor q.
Proof.
  destruct q as [n d]. unfold Qle, Qtrunc, Qfloor. simpl. intros H.
  apply Z.quot_div_nonneg; lia.
Qed.

Lemma scaled_base base k :
  0 <= k -> (inject_Z base * (2 # 1) ^ k == inject_Z (base * 2 ^ k))%Q.
Proof.
  intros Hk. rewrite inject_Z_mult, (Zpower_Qpower 2 k Hk). reflexivity.
Qed.

Lemma no_rounding_is_rounding : rounding no_rounding.
Proof. split; unfold no_rounding; [auto | reflexivity]. Qed.

Lemma fl_proper fl x y : rounding fl -> (x == y -> fl x == fl y)%Q.
Proof.
  intros Hfl E. apply Qle_antisym; apply (fl_monotone fl Hfl);
    rewrite E; apply Qle_refl.
Qed.

(** The rounded value of a real that is at least (at most) an integer up to
    [2^53] is at least (at most) that integer, and so is its integer part. *)
Lemma floor_fl_lower fl n x :
  rounding fl -> 0 <= n <= 2 ^ 53 -> (inject_Z n <= x)%Q -> n <= Qfloor (fl x).
Proof.
  intros Hfl Hn Hx.
  rewrite <- (Qfloor_Z n). apply Qfloor_resp_le.
  rewrite <- (fl_integer fl Hfl n) by lia. by apply (fl_monotone fl Hfl).
Qed.

Lemma floor_fl_upper fl n x :
  rounding fl -> 0 <= n <= 2 ^ 53 -> (x <= inject_Z n)%Q -> Qfloor (fl x) <= n.
Proof.
  intros Hfl Hn Hx.
  rewrite <- (Qfloor_Z n). apply Qfloor_resp_le.
  rewrite <- (fl_integer fl Hfl n) by lia. by apply (fl_monotone fl Hfl).
Qed.

(** The product of the base delay and the power of two is exact. *)
Lemma rounded_base fl base k :
  rounding fl -> 0 <= base -> 0 <= k -> base * 2 ^ k <= 2 ^ 53 ->
  (fl (fl (inject_Z base) * (2 # 1) ^ k) == inject_Z (base * 2 ^ k))%Q.
Proof.
  intros Hfl Hb Hk HB.
  assert (1 <= 2 ^ k) by (apply (Z.pow_le_mono_r 2 0 k); lia).
  assert (Hbase : (fl (inject_Z base) == inject_Z base)%Q)
    by (apply (fl_integer fl Hfl); nia).
  rewrite <- (fl_integer fl Hfl (base * 2 ^ k)) by nia.
  apply (fl_proper fl _ _ Hfl). rewrite Hbase. by apply scaled_base.
Qed.

(** A result of magnitude at most [2^53] is rounded to a finite double. *)
Lemma round_finite fl x :
  (0 <= x)%Q -> (x <= inject_Z (2 ^ 53))%Q -> round fl x = finite (fl x).
Proof.
  intros H0 Hx. unfold round.
  destruct (Qle_bool DBL_OVERFLOW (Qabs x)) eqn:E; [|reflexivity].
  exfalso. apply Qle_bool_iff in E. rewrite (Qabs_pos x H0) in E.
  assert (Hlt : (inject_Z (2 ^ 53) < DBL_OVERFLOW)%Q)
    by (apply Qlt_alt; vm_compute; reflexivity).
  apply (Qlt_not_le _ _ Hlt). eapply Qle_trans; [exact E | exact Hx].
Qed.

(** While the attempt number is below 1024 and the products stay within
    the integers a [double] holds exactly, the conversion is defined: the
    delay is the rounded product cut to whole milliseconds, capped. *)
Lemma backoff_delay_rounded fl base max_delay k u :
  rounding fl -> 0 <= base -> 0 <= k <= 1023 -> base * 2 ^ k <= 2 ^ 53 ->
  (0 <= u)%Q -> (inject_Z (base * 2 ^ k) * u <= inject_Z (2 ^ 53))%Q ->
  backoff_delay fl base max_delay k u
  = Some (Z.min (Qfloor (fl (inject_Z (base * 2 ^ k) * u)%Q)) max_delay).
Proof.
  intros Hfl Hb Hk HB Hu Hcap.
  assert (HB0 : 0 <= base * 2 ^ k) by (apply Z.mul_nonneg_nonneg; lia).
  assert (H1 : 1 <= 2 ^ k) by (apply (Z.pow_le_mono_r 2 0 k); lia).
  assert (Hbase : (fl (inject_Z base) == inject_Z base)%Q)
    by (apply (fl_integer fl Hfl); nia).
  assert (Hfirst : (fl (inject_Z base) * (2 # 1) ^ k
                    == inject_Z (base * 2 ^ k))%Q)
    by (rewrite Hbase; apply scaled_base; lia).
  assert (Hprod : (fl (fl (inject_Z base) * (2 # 1) ^ k)
                   == inject_Z (base * 2 ^ k))%Q)
    by (apply rounded_base; auto; lia).
  assert (Hsecond : (fl (fl (inject_Z base) * (2 # 1) ^ k) * u
                     == inject_Z (base * 2 ^ k) * u)%Q)
    by (rewrite Hprod; reflexivity).
  assert (HBu : (0 <= inject_Z (base * 2 ^ k) * u)%Q).
  { apply Qmult_le_0_compat; [|exact Hu]. by rewrite <- (Zle_Qle 0). }
  assert (E : (fl (fl (fl (inject_Z base) * (2 # 1) ^ k) * u)
               == fl (inject_Z (base * 2 ^ k) * u))%Q)
    by (apply (fl_proper fl _ _ Hfl); exact Hsecond).
  assert (H0 : (0 <= fl (inject_Z (base * 2 ^ k) * u)%Q)%Q).
  { rewrite <- (fl_integer fl Hfl 0) by (simpl; lia).
    apply (fl_monotone fl Hfl). exact HBu. }
  assert (Hfloor : Qfloor (fl (fl (fl (inject_Z base) * (2 # 1) ^ k) * u)%Q)
                   = Qfloor (fl (inject_Z (base * 2 ^ k) * u)%Q))
    by (apply Qfloor_comp; exact E).
  assert (Hlo : 0 <= Qfloor (fl (inject_Z (base * 2 ^ k) * u)%Q)).
  { rewrite <- (Qfloor_Z 0). apply Qfloor_resp_le. exact H0. }
  assert (Hhi : Qfloor (fl (inject_Z (base * 2 ^ k) * u)%Q) <= 2 ^ 53)
    by (apply floor_fl_upper; [exact Hfl | lia | exact Hcap]).
  unfold backoff_delay, of_long_long, pow2, mul.
  destruct (Z.leb_spec 1024 k); [lia|].
  destruct (Z.ltb_spec k (-1074)); [lia|].
  rewrite round_finite;
    [|rewrite Hfirst; by rewrite <- (Zle_Qle 0)
     |rewrite Hfirst; by rewrite <- Zle_Qle].
  rewrite round_finite; [|by rewrite Hsecond|by rewrite Hsecond].
  unfold to_long_long.
  rewrite Qtrunc_nonneg by (by rewrite E).
  rewrite Hfloor.
  assert (R : (INT64_MIN <=? Qfloor (fl (inject_Z (base * 2 ^ k) * u)%Q))
              && (Qfloor (fl (inject_Z (base * 2 ^ k) * u)%Q) <=? INT64_MAX)
              = true).
  { apply andb_true_iff. unfold INT64_MIN, INT64_MAX.
    split; apply Z.leb_le; lia. }
  rewrite R. reflexivity.
Qed.

(** C6, as stated, fails twice, whatever the rounding of the arithmetic.
    With ten retries configured, attempt 6 with jitter 1 is scheduled after
    at most the cap of 30000 ms, below the claimed lower bound of 51200 ms.
    And with the default settings, attempt 0 with jitter 13/16 cannot be
    scheduled after the 812.5 ms of the formula: the delay is a whole number
    of milliseconds. *)
Lemma backoff_outside_claim :
  (0 <= 6 < max_retries_ ten_retries
   /\ ~ exists fl, claimed_backoff fl ten_retries 6 1)
  /\ (0 <= 0 < max_retries_ Reconnection.initial
      /\ ~ exists fl, claimed_backoff fl Reconnection.initial 0 (13 # 16)).
Proof.
  split; (split; [vm_compute; split; [discriminate | reflexivity] |]).
  - intros (fl & scheduled & Hs & _ & H & _). simpl in H.
    assert (Hcap : scheduled <= 30000).
    { unfold calculate_backoff_delay, backoff_delay in Hs.
      destruct (to_long_long _) as [delay|]; [|discriminate].
      injection Hs as <-. apply Z.le_min_r. }
    rewrite Zle_Qle in Hcap.
    assert (Hlt : (inject_Z 30000 < (4 # 5) * inject_Z (1000 * 2 ^ 6))%Q)
      by reflexivity.
    apply (Qlt_not_le _ _ Hlt). eapply Qle_trans; [exact H | exact Hcap].
  - intros (fl & scheduled & _ & H & _). simpl in H.
    assert (E : (Qmin (inject_Z 30000) (inject_Z (1000 * 2 ^ 0) * (13 # 16))
                 == 1625 # 2)%Q).
    { rewrite Q.min_r; [reflexivity | discriminate]. }
    rewrite E in H. unfold Qeq in H. simpl in H. lia.
Qed.

(** C6, amended: for a base delay that is not negative, an attempt number
    from 0 to 1023 (such that 1.2 times the uncapped delay is within the
    integers a [double] holds exactly) and a jitter draw [u] in [0.8, 1.2],
    the delay is defined: it is the smaller of the cap and the rounded
    product [base * 2^k * u] cut to whole milliseconds, and it lies between
    the smaller of the cap and [floor (0.8 * base * 2^k)] and the smaller
    of the cap and [ceiling (1.2 * base * 2^k)]. *)
Theorem backoff_delay_bounds fl base max_delay k u :
  rounding fl ->
  0 <= base -> 0 <= k <= 1023 -> 6 * (base * 2 ^ k) <= 5 * 2 ^ 53 ->
  ((4 # 5) <= u)%Q -> (u <= (6 # 5))%Q ->
  let B := inject_Z (base * 2 ^ k) in
  exists delay,
    backoff_delay fl base max_delay k u = Some delay
    /\ delay = Z.min (Qfloor (fl (B * u)%Q)) max_delay
    /\ Z.min max_delay (Qfloor ((4 # 5) * B))
       <= delay
       <= Z.min max_delay (Qceiling ((6 # 5) * B)).
Proof.
  intros Hfl Hb Hk Hrange Hlo Hhi B.
  assert (0 <= base * 2 ^ k) by (apply Z.mul_nonneg_nonneg; lia).
  assert (HB : (0 <= B)%Q) by (unfold B; by rewrite <- (Zle_Qle 0)).
  assert (Hu : (0 <= u)%Q) by (eapply Qle_trans; [|exact Hlo]; discriminate).
  assert (Hle : ((4 # 5) * B <= B * u)%Q).
  { rewrite (Qmult_comm B u). by apply Qmult_le_compat_r. }
  assert (Hge : (B * u <= (6 # 5) * B)%Q).
  { rewrite (Qmult_comm B u). by apply Qmult_le_compat_r. }
  assert (Htop : ((6 # 5) * B <= inject_Z (2 ^ 53))%Q).
  { unfold B, Qle. simpl. lia. }
  exists (Z.min (Qfloor (fl (B * u)%Q)) max_delay).
  split; [|split; [reflexivity|]].
  { apply backoff_delay_rounded; auto; [lia|].
    eapply Qle_trans; [exact Hge | exact Htop]. }
  assert (H1 : Qfloor ((4 # 5) * B) <= Qfloor (fl (B * u)%Q)).
  { apply floor_fl_lower; [exact Hfl | |].
    - split.
      + rewrite <- (Qfloor_Z 0). apply Qfloor_resp_le.
        apply Qmult_le_0_compat; [discriminate | exact HB].
      + rewrite <- (Qfloor_Z (2 ^ 53)). apply Qfloor_resp_le.
        eapply Qle_trans; [exact Hle|]. eapply Qle_trans; [exact Hge|exact Htop].
    - eapply Qle_trans; [apply Qfloor_le | exact Hle]. }
  assert (H2 : Qfloor (fl (B * u)%Q) <= Qceiling ((6 # 5) * B)).
  { apply floor_fl_upper; [exact Hfl | |].
    - split.
      + rewrite <- (Qceiling_Z 0). apply Qceiling_resp_le.
        apply Qmult_le_0_compat; [discriminate | exact HB].
      + rewrite <- (Qceiling_Z (2 ^ 53)). by apply Qceiling_resp_le.
    - eapply Qle_trans; [exact Hge | apply Qle_ceiling]. }
  lia.
Qed.

(** The amended C6 at the default delays of the controller, attempt 3 and
    jitter 9/10, in arithmetic without rounding error: the delay is 7200
    ms, between 6400 ms and 9600 ms. *)
Lemma backoff_delay_bounds_witness :
  backoff_delay no_rounding 1000 30000 3 (9 # 10) = Some 7200
  /\ exists delay,
       backoff_delay no_rounding 1000 30000 3 (9 # 10) = Some delay
       /\ 6400 <= delay <= 9600.
Proof.
  destruct (backoff_delay_bounds no_rounding 1000 30000 3 (9 # 10))
    as (delay & H1 & H2 & H3).
  - exact no_rounding_is_rounding.
  - lia.
  - lia.
  - lia.
  - discriminate.
  - discriminate.
  - split; [rewrite H1, H2; reflexivity|].
    exists delay. split; [exact H1 | exact H3].
Defined.

End Backoff.

(** ** Shard for a guild *)

Section ShardForGuild.
Import Shard.

(** C7, as stated, fails in its example: the guild id parses to itself, and
    shifted right by 22 bits it is a multiple of 4, so the shard is 0, not
    1. *)
Lemma shard_of_example_guild_is_not_1 :
  stoull "613425648685547541" = Ok 613425648685547541
  /\ Z.shiftr 613425648685547541 22 mod 4 = 0
  /\ get_shard_for_guild 4 "613425648685547541" <> 1.
Proof. vm_compute. repeat split; discriminate. Qed.

(** C7, amended: for every guild id string that [std::stoull] parses to [G]
    and every configured shard count [N > 0], the owning shard is
    [(G >> 22) mod N]; with [N = 4] and [G = 613425648685547541] it is 0. *)
Theorem shard_for_guild_rule :
  (forall (guild_id : string) (G N : Z),
      0 < N <= INT_MAX ->
      stoull guild_id = Ok G ->
      get_shard_for_guild N guild_id = Z.shiftr G 22 mod N)
  /\ get_shard_for_guild 4 "613425648685547541" = 0.
Proof.
  split; [|reflexivity].
  intros guild_id G N HN HG. unfold get_shard_for_guild. rewrite HG.
  destruct (Z.leb_spec N 1) as [H1|H1].
  - assert (N = 1) as -> by lia. symmetry. apply Z.mod_1_r.
  - unfold INT_MAX in HN.
    rewrite (Z.mod_small N) by lia.
    pose proof (Z.mod_pos_bound (Z.shiftr G 22) N ltac:(lia)).
    apply to_int_fits. unfold fits_int, INT_MIN, INT_MAX. lia.
Qed.

(** The amended C7 at a guild id with white space before it and 16 shards. *)
Lemma shard_for_guild_rule_witness :
  get_shard_for_guild 16 " 81384788765712384" = Z.shiftr 81384788765712384 22 mod 16.
Proof.
  apply (proj1 shard_for_guild_rule " 81384788765712384" 81384788765712384 16).
  - unfold INT_MAX. lia.
  - reflexivity.
Defined.

End ShardForGuild.

(** ** The session record of a shard *)

Section ShardSession.
Import Shard Samples.

(** C8, as stated, fails: once READY is processed the shard is resumable
    and its last sequence is 0. *)
Lemma ready_breaks_session_invariant :
  is_resumable shard_after_ready = true
  /\ sequence_number shard_after_ready = 0
  /\ ~ claimed_session_invariant shard_after_ready.
Proof.
  split; [reflexivity|]. split; [reflexivity|].
  intros H. destruct (H eq_refl) as [_ H0]. vm_compute in H0. discriminate H0.
Qed.

(** C8, amended: in the state reached immediately after a READY dispatch is
    processed (no exception leaving the handler), the resumable flag is
    true, the last sequence is 0, and the session id is the one READY
    carries in [d.session_id], the empty string when it carries none. *)
Theorem ready_session_state (event : json) (info : ShardInfo) :
  at_key event "t" = Ok (JString "READY") ->
  snd (handle_shard_event event info) = None ->
  let info' := fst (handle_shard_event event info) in
  is_resumable info' = true
  /\ sequence_number info' = 0
  /\ exists d, at_key event "d" = Ok d
               /\ value_string d "session_id" "" = Ok (session_id info').
Proof.
  intros Ht. unfold handle_shard_event.
  destruct (update_sequence event info) as [info1|e]; [|discriminate].
  unfold handle_event_type.
  assert (Hc : contains event "t" = true).
  { unfold at_key in Ht. destruct event; try discriminate.
    simpl. destruct (m !! "t"); [by apply bool_decide_eq_true_2 | discriminate]. }
  rewrite Hc, Ht. simpl.
  destruct (at_key event "d") as [d|e] eqn:Hd; simpl; [|discriminate].
  unfold handle_shard_ready.
  destruct (value_string d "session_id" "") as [sid|e] eqn:Hsid; simpl;
    [|discriminate].
  intros _. repeat split. exists d. split; [reflexivity | exact Hsid].
Qed.

(** The amended C8 at the sample READY payload. *)
Lemma ready_session_state_witness :
  is_resumable shard_after_ready = true
  /\ sequence_number shard_after_ready = 0
  /\ exists d, at_key ready_payload "d" = Ok d
               /\ value_string d "session_id" "" = Ok (session_id shard_after_ready).
Proof.
  apply (ready_session_state ready_payload (new_ShardInfo 0 1)).
  - reflexivity.
  - reflexivity.
Defined.

End ShardSession.

(** ** The gateway connection: resume and heartbeat *)

Section GatewayConnection.
Import Reconnection WebSocket Samples.

(** No member function writes [session_id_] or [last_sequence_]. *)
Lemma send_session payload c :
  session_id_ (send payload c) = session_id_ c
  /\ last_sequence_ (send payload c) = last_sequence_ c.
Proof. unfold send. destruct (is_connected_ c); split; reflexivity. Qed.

Lemma run_callback_session call c :
  session_id_ (run_callback call c) = session_id_ c
  /\ last_sequence_ (run_callback call c) = last_sequence_ c.
Proof.
  destruct call as [[|]|]; simpl; unfold resume, identify;
    try destruct (String.eqb (session_id_ c) ""); apply send_session.
Qed.

Lemma run_callbacks_session calls c :
  session_id_ (foldl (fun c call => run_callback call c) c calls) = session_id_ c
  /\ last_sequence_ (foldl (fun c call => run_callback call c) c calls)
     = last_sequence_ c.
Proof.
  revert c. induction calls as [|call calls IH]; intros c; simpl; [done|].
  destruct (IH (run_callback call c)) as [-> ->]. apply run_callback_session.
Qed.

Lemma handle_gateway_op_session payload c c' :
  handle_gateway_op payload c = Ok c' ->
  session_id_ c' = session_id_ c /\ last_sequence_ c' = last_sequence_ c.
Proof.
  unfold handle_gateway_op. intros H.
  repeat (match type of H with
          | (if ?b then _ else _) = _ => destruct b
          | (match ?r with Ok _ => _ | Throw _ => _ end) = _ => destruct r
          | (mbind _ ?r) = _ => destruct r; simpl in H
          | Ok _ = Ok _ => injection H as <-
          | Throw _ = Ok _ => discriminate H
          end); split; reflexivity.
Qed.

Lemma step_session c e :
  session_id_ (step c e) = session_id_ c
  /\ last_sequence_ (step c e) = last_sequence_ c.
Proof.
  destruct e; simpl; try (split; reflexivity).
  - unfold on_message.
    destruct (handle_gateway_op payload c) as [c'|] eqn:E; simpl; [|done].
    by apply (handle_gateway_op_session payload).
  - unfold heartbeat_tick. destruct (is_connected_ c); [apply send_session|done].
  - unfold reconnect_attempt.
    destruct (negb _); [done|].
    destruct (backoff_iteration (reconnect_manager_ c)) as [[calls|] m];
      [|done].
    apply (run_callbacks_session calls (with_manager m c)).
  - apply send_session.
Qed.

(** The session id and the sequence number of a connection are, after any
    events, what its constructor left in them. *)
Lemma run_session events c :
  session_id_ (run c events) = session_id_ c
  /\ last_sequence_ (run c events) = last_sequence_ c.
Proof.
  revert c. unfold run.
  induction events as [|e events IH]; intros c; simpl; [done|].
  destruct (IH (step c e)) as [-> ->]. apply step_session.
Qed.

(** The frames a connection without a session id sends are never RESUME. *)
Lemma send_no_resume payload c :
  is_op RESUME payload = false -> no_resume (sent c) ->
  no_resume (sent (send payload c)).
Proof.
  intros Hp Hc. unfold send. destruct (is_connected_ c); [|exact Hc].
  simpl. apply Forall_app. split; [exact Hc|]. by constructor.
Qed.

Lemma identify_no_resume c : no_resume (sent c) -> no_resume (sent (identify c)).
Proof. apply send_no_resume. reflexivity. Qed.

Lemma resume_no_resume c :
  session_id_ c = "" -> no_resume (sent c) -> no_resume (sent (resume c)).
Proof. intros H. unfold resume. rewrite H. simpl. apply identify_no_resume. Qed.

Lemma run_callbacks_no_resume calls c :
  session_id_ c = "" -> no_resume (sent c) ->
  no_resume (sent (foldl (fun c call => run_callback call c) c calls)).
Proof.
  revert c. induction calls as [|call calls IH]; intros c Hs Hc; simpl;
    [exact Hc|].
  apply IH.
  - by rewrite (proj1 (run_callback_session call c)).
  - destruct call as [[|]|]; simpl;
      auto using resume_no_resume, identify_no_resume.
Qed.

Lemma handle_gateway_op_sent payload c c' :
  handle_gateway_op payload c = Ok c' -> sent c' = sent c.
Proof.
  unfold handle_gateway_op. intros H.
  repeat (match type of H with
          | (if ?b then _ else _) = _ => destruct b
          | (match ?r with Ok _ => _ | Throw _ => _ end) = _ => destruct r
          | (mbind _ ?r) = _ => destruct r; simpl in H
          | Ok _ = Ok _ => injection H as <-
          | Throw _ = Ok _ => discriminate H
          end); reflexivity.
Qed.

Lemma step_no_resume c e :
  session_id_ c = "" -> no_resume (sent c) -> no_resume (sent (step c e)).
Proof.
  intros Hs Hc. destruct e; simpl; try exact Hc.
  - unfold on_message.
    destruct (handle_gateway_op payload c) as [c'|] eqn:E; simpl; [|exact Hc].
    by rewrite (handle_gateway_op_sent payload c c' E).
  - unfold heartbeat_tick. destruct (is_connected_ c); [|exact Hc].
    apply send_no_resume; [reflexivity | exact Hc].
  - unfold reconnect_attempt.
    destruct (negb _); [exact Hc|].
    destruct (backoff_iteration (reconnect_manager_ c)) as [[calls|] m];
      [|exact Hc].
    by apply run_callbacks_no_resume.
  - by apply identify_no_resume.
Qed.

(** Whatever happens to a connection, it never sends a RESUME. *)
Lemma connection_never_resumes intents0 sequence0 events :
  no_resume (sent (run (WebSocket.initial intents0 sequence0) events)).
Proof.
  assert (H : forall c, session_id_ c = "" -> no_resume (sent c) ->
                        no_resume (sent (run c events))).
  { unfold run. induction events as [|e events IH]; intros c Hs Hc; simpl;
      [exact Hc|].
    apply IH; [|by apply step_no_resume].
    by rewrite (proj1 (step_session c e)). }
  apply H; [reflexivity | constructor].
Qed.

(** Were a session held, the attempt would resume: the reconnect callback
    and the resume callback both call [resume], so the RESUME frame, built
    from the id and the sequence number the connection holds, goes out
    twice, and no IDENTIFY. *)
Lemma attempt_with_session_resumes_twice sid seq :
  sid <> "" ->
  sent (reconnect_attempt (holding_session sid seq))
  = [resume_payload (holding_session sid seq);
     resume_payload (holding_session sid seq)].
Proof.
  intros Hsid.
  assert (E : String.eqb sid "" = false) by (by apply String.eqb_neq).
  unfold reconnect_attempt, backoff_iteration. simpl.
  unfold attempt_reconnection, should_resume. simpl. rewrite E. simpl.
  unfold resume. simpl. rewrite E. simpl. rewrite E. reflexivity.
Qed.

(** The shard manager does record the session: after READY with the
    session id "abc" and a dispatch with sequence number 2, what
    [connect_shard] passes to the client of the shard is the RESUME with
    that id and that number. *)
Lemma shard_manager_resumes :
  Shard.connect_payload "token" 1 shard_after_dispatch
  = obj [("op", JInt 6);
         ("d", obj [("token", JString "token");
                    ("session_id", JString "abc");
                    ("seq", JInt 2)])].
Proof. reflexivity. Qed.

(** C2 on the code.  A session is established (READY carries the session id
    "abc", the last dispatch the sequence number 2).  When the gateway then
    asks for a reconnect, the attempt sends a second IDENTIFY; when the
    transport drops with code 1006, the attempt sends nothing.  Neither
    sends a RESUME: the connection has stored no session id, and its
    controller does not allow a resume. *)
Theorem reconnect_attempt_identifies intents0 sequence0 :
  let c := run (WebSocket.initial intents0 sequence0) reconnect_requested in
  let c' := run (WebSocket.initial intents0 sequence0) transport_dropped in
  sent c = [identify_payload c; identify_payload c]
  /\ sent c' = [identify_payload c']
  /\ no_resume (sent c) /\ no_resume (sent c')
  /\ session_id_ c = "" /\ should_resume (reconnect_manager_ c) = false.
Proof.
  repeat split; try reflexivity; apply connection_never_resumes.
Qed.

(** C3 on the code.  After a dispatch with sequence number 42 the
    connection still holds whatever its constructor left in
    [last_sequence_], and that is what the next heartbeat carries: not the
    sequence number of the dispatch, and never null. *)
Theorem heartbeat_carries_initial_sequence intents0 sequence0 :
  let c := run (WebSocket.initial intents0 sequence0) (established 42) in
  last_sequence_ c = sequence0
  /\ sent (heartbeat_tick c)
     = sent c ++ [obj [("op", JInt 1); ("d", JInt sequence0)]].
Proof. split; reflexivity. Qed.

End GatewayConnection.

(** ** Cache export and import *)

Section CacheRoundTrip.
Import Cache Samples.

Lemma export_entries_lookup now (cache_ : gmap string CacheEntry) key :
  export_entries now cache_ !! key
  = cache_ !! key
    ≫= (fun e => if is_expired now e then None else Some (entry_json e)).
Proof.
  unfold export_entries.
  apply (map_fold_weak_ind (fun r m => r !! key = m !! key ≫= _)).
  - by rewrite !lookup_empty.
  - intros i x m r Hi IH.
    destruct (decide (i = key)) as [->|Hne].
    + rewrite lookup_insert_eq. simpl. destruct (is_expired now x).
      * rewrite IH, Hi. reflexivity.
      * by rewrite lookup_insert_eq.
    + rewrite (lookup_insert_ne m) by done.
      destruct (is_expired now x); [done|]. by rewrite lookup_insert_ne.
Qed.

Lemma import_entry_json e : import_entry (entry_json e) = Ok (reimported e).
Proof. reflexivity. Qed.

Lemma import_entries_lookup (entries : gmap string json) key :
  map_fold (import_step true) ∅ entries !! key
  = if String.eqb key "" then None
    else entries !! key
         ≫= (fun j => match import_entry j with
                      | Ok e => Some e
                      | Throw _ => None
                      end).
Proof.
  apply (map_fold_weak_ind
           (fun r m => r !! key = if String.eqb key "" then None else m !! key ≫= _)).
  - rewrite !lookup_empty. by destruct (String.eqb key "").
  - intros i x m r Hi IH. unfold import_step. simpl.
    destruct (decide (i = key)) as [->|Hne].
    + rewrite lookup_insert_eq. simpl.
      destruct (String.eqb key "") eqn:Hk; [exact IH|].
      destruct (import_entry x).
      * by rewrite lookup_insert_eq.
      * rewrite IH, Hi. reflexivity.
    + rewrite (lookup_insert_ne m) by done.
      destruct (String.eqb i ""); [exact IH|].
      destruct (import_entry x); [|exact IH].
      by rewrite lookup_insert_ne.
Qed.

(** What the round trip holds at a key: nothing at the empty key, and at
    any other key the original entry as it is read back, when that entry
    had not expired at the time of the export. *)
Lemma round_trip_lookup now config_ (cache_ : gmap string CacheEntry) key :
  round_trip now config_ cache_ !! key
  = if String.eqb key "" then None
    else cache_ !! key
         ≫= (fun e => if is_expired now e then None else Some (reimported e)).
Proof.
  unfold round_trip, import_cache, export_cache.
  change (contains (obj _) "entries") with true.
  change (at_key (obj [("entries", ?x); ?y]) "entries") with (Ok x).
  simpl. rewrite import_entries_lookup.
  destruct (String.eqb key ""); [reflexivity|].
  rewrite export_entries_lookup.
  destruct (cache_ !! key) as [e|]; simpl; [|reflexivity].
  destruct (is_expired now e); simpl; [reflexivity|].
  by rewrite import_entry_json.
Qed.

(** C9, as stated, fails: an entry that expires at 10.5 s comes back
    expiring at 10 s, so at 10.2 s it is live in the original cache and
    expired in the imported one. *)
Lemma round_trip_loses_live_entry :
  live a_little_before_expiry one_entry = one_entry
  /\ live a_little_before_expiry
       (round_trip a_little_before_expiry default_config one_entry) = ∅
  /\ live a_little_before_expiry
       (round_trip a_little_before_expiry default_config one_entry)
     <> live a_little_before_expiry one_entry.
Proof.
  assert (H1 : live a_little_before_expiry one_entry = one_entry)
    by (vm_compute; reflexivity).
  assert (H2 : live a_little_before_expiry
                 (round_trip a_little_before_expiry default_config one_entry)
               = ∅) by (vm_compute; reflexivity).
  split; [exact H1|]. split; [exact H2|].
  rewrite H1, H2. intros H.
  apply (f_equal (fun m => m !! "user:1")) in H. vm_compute in H. discriminate H.
Qed.

(** The count of seconds is read back through an [int].  The expiry instant
    of an entry that never expires is [time_point::max()], 9223372036 s; it
    comes back as 633437444 s, in 1990, and the entry as expired. *)
Lemma never_expiring_entry_comes_back_expired :
  live a_little_before_expiry never_expiring = never_expiring
  /\ expires_at <$> (round_trip a_little_before_expiry default_config
                       never_expiring !! "motd")
     = Some (time_point_of_seconds 633437444)
  /\ live a_little_before_expiry
       (round_trip a_little_before_expiry default_config never_expiring) = ∅.
Proof. vm_compute. repeat split. Qed.

(** C9, amended: the export holds the entries that are not expired, and
    only those.  Importing it with [overwrite = true] into an empty cache
    yields a cache whose keys are the keys other than the empty one of the
    original's entries that are not expired; each comes back with its value
    and persistent flag, and with its creation and expiry instant cut to
    whole seconds when the count of seconds fits an [int]. *)
Theorem export_import_round_trip now config_ (cache_ : gmap string CacheEntry) :
  (forall key j,
      export_entries now cache_ !! key = Some j <->
      exists e, cache_ !! key = Some e /\ is_expired now e = false
                /\ j = entry_json e)
  /\ (forall key e',
        round_trip now config_ cache_ !! key = Some e' ->
        key <> "" /\ exists e, cache_ !! key = Some e
                               /\ is_expired now e = false)
  /\ (forall key e,
        key <> "" -> cache_ !! key = Some e -> is_expired now e = false ->
        exists e',
          round_trip now config_ cache_ !! key = Some e'
          /\ value e' = value e
          /\ is_persistent e' = is_persistent e
          /\ (fits_int (seconds_since_epoch (created_at e)) ->
              created_at e' = whole_seconds (created_at e))
          /\ (fits_int (seconds_since_epoch (expires_at e)) ->
              expires_at e' = whole_seconds (expires_at e))).
Proof.
  split; [|split].
  - intros key j. rewrite export_entries_lookup. split.
    + destruct (cache_ !! key) as [e|]; simpl; [|discriminate].
      destruct (is_expired now e) eqn:E; [discriminate|].
      intros [= <-]. by exists e.
    + intros (e & -> & Hlive & ->). unfold mbind, option_bind.
      by rewrite Hlive.
  - intros key e'. rewrite round_trip_lookup.
    destruct (String.eqb_spec key "") as [->|Hk]; [discriminate|].
    destruct (cache_ !! key) as [e|]; simpl; [|discriminate].
    destruct (is_expired now e) eqn:E; [discriminate|].
    intros _. split; [exact Hk | by exists e].
  - intros key e Hk He Hlive. exists (reimported e).
    rewrite round_trip_lookup.
    destruct (String.eqb_spec key "") as [->|_]; [done|].
    rewrite He. unfold mbind, option_bind. rewrite Hlive.
    repeat split; unfold whole_seconds; simpl; intros H;
      by rewrite to_int_fits.
Qed.

(** The amended C9 at the cache with one entry: the entry comes back with
    its value, and expiring at the full second. *)
Lemma export_import_round_trip_witness :
  exists e',
    round_trip a_little_before_expiry default_config one_entry !! "user:1"
    = Some e'
    /\ value e' = JString "Ada"
    /\ expires_at e' = 1700000010000000000.
Proof.
  destruct (proj2 (proj2 (export_import_round_trip
                            a_little_before_expiry default_config one_entry))
              "user:1"
              (new_CacheEntry half_past (JString "Ada") 10 false))
    as (e' & H1 & H2 & _ & _ & H5).
  - discriminate.
  - reflexivity.
  - reflexivity.
  - exists e'. split; [exact H1|]. split; [exact H2|].
    apply H5. vm_compute. split; discriminate.
Defined.

End CacheRoundTrip.

(** ** The HTTP pipeline on status 429 *)

Section Http429.
Import Http Samples.

(** The worker moves requests from the queue to the transport and never
    back: what was performed and what waits is, together, constant. *)
Lemma worker_iteration_conserves parse transport h :
  performed (worker_iteration parse transport h)
  ++ request_queue_ (worker_iteration parse transport h)
  = performed h ++ request_queue_ h.
Proof.
  destruct h as [queue running done results]. unfold worker_iteration. simpl.
  destruct running; simpl; [|reflexivity].
  destruct queue as [|r rest]; simpl; [reflexivity|].
  by rewrite <- app_assoc.
Qed.

Lemma drain_conserves parse transport fuel h :
  performed (drain parse transport fuel h)
  ++ request_queue_ (drain parse transport fuel h)
  = performed h ++ request_queue_ h.
Proof.
  revert h. induction fuel as [|fuel IH]; intros h; simpl; [reflexivity|].
  rewrite IH. apply worker_iteration_conserves.
Qed.

Lemma check_response_429 parse t :
  curl_ok t = true -> response_code t = 429 ->
  check_response parse t
  = Throw (runtime_error (error_429 parse (body t))).
Proof.
  intros Hok Hcode. unfold check_response, error_429, body_message.
  rewrite Hok, Hcode. simpl.
  change (to_string 429) with "429".
  destruct (String.eqb (body t) ""); simpl; [reflexivity|].
  destruct (parse (body t)) as [j|]; [|reflexivity].
  destruct j as [| | | | |l|m]; try reflexivity.
  simpl. destruct (m !! "message") as [v|] eqn:E.
  - rewrite bool_decide_eq_true_2 by eauto.
    destruct v; reflexivity.
  - rewrite bool_decide_eq_false_2; [reflexivity|].
    intros [v Hv]. discriminate.
Qed.

(** C4, as stated, fails: the future of a request answered with 429 and a
    [retry_after] of 1.5 s holds a plain runtime error with the status and
    the message, not a rate-limit error with the [retry_after]. *)
Lemma status_429_is_a_plain_error :
  outcome 0 (worker_iteration parse_sample always_429 (pipeline [post_message]))
  = Some (Throw (runtime_error "HTTP error 429: You are being rate limited."))
  /\ ~ rate_limited_error
         (outcome 0 (worker_iteration parse_sample always_429
                       (pipeline [post_message]))).
Proof.
  assert (H : outcome 0 (worker_iteration parse_sample always_429
                           (pipeline [post_message]))
              = Some (Throw (runtime_error
                               "HTTP error 429: You are being rate limited.")))
    by (vm_compute; reflexivity).
  split; [exact H|]. rewrite H. intros (retry_after & message & E).
  discriminate E.
Qed.

(** C4, amended: for every submitted request whose transport response has
    status 429, the future of the request fails with the runtime error of
    any status of 400 or more.  Its text is "HTTP error 429" followed by a
    colon and the message of the body when the body is a JSON object with
    a string member [message], and "HTTP error 429" alone in every other
    case.  The request was handed to the transport once and is not put
    back in the queue: however long the worker runs on, it is never
    retried. *)
Theorem status_429_fails_without_retry parse transport r rest done results :
  curl_ok (transport r) = true ->
  response_code (transport r) = 429 ->
  let h := {| request_queue_ := r :: rest; running_ := true;
              performed := done; completed := results |} in
  let h' := worker_iteration parse transport h in
  completed h'
  = results
    ++ [(promise r,
         Throw (runtime_error (error_429 parse (body (transport r)))))]
  /\ performed h' = done ++ [r]
  /\ request_queue_ h' = rest
  /\ forall fuel,
       performed (drain parse transport fuel h')
       ++ request_queue_ (drain parse transport fuel h')
       = done ++ r :: rest.
Proof.
  intros Hok Hcode h h'. subst h h'. simpl.
  split; [|split; [reflexivity | split; [reflexivity|]]].
  - unfold serve, perform_request.
    rewrite (check_response_429 parse (transport r) Hok Hcode). reflexivity.
  - intros fuel. rewrite drain_conserves. simpl. by rewrite <- app_assoc.
Qed.

(** The amended C4 at the sample exchange: the text of the error is the
    status and the message of the body. *)
Lemma status_429_fails_without_retry_witness :
  completed (worker_iteration parse_sample always_429
               (pipeline [post_message]))
  = [(0%nat,
      Throw (runtime_error "HTTP error 429: You are being rate limited."))]
  /\ performed (worker_iteration parse_sample always_429
                  (pipeline [post_message])) = [post_message].
Proof.
  destruct (status_429_fails_without_retry parse_sample always_429
              post_message [] [] [] eq_refl eq_refl)
    as (H1 & H2 & _).
  split; [exact H1 | exact H2].
Defined.

End Http429.

(** ** The rate limiter *)

Section RateLimiterGate.
Import RateLimit Samples.

(** C5, as stated, fails in its first part: an update stores the bucket it
    is given, and a [RateLimitInfo] carries [remaining = -1] unless the
    caller set it. *)
Lemma update_stores_negative_remaining :
  rate_limits_ (update_limits "/gateway/bot" default_RateLimitInfo
                  RateLimit.initial) !! "/gateway/bot"
  = Some default_RateLimitInfo
  /\ ~ stored_remaining_nonneg "/gateway/bot"
         (update_limits "/gateway/bot" default_RateLimitInfo RateLimit.initial).
Proof.
  split; [reflexivity|]. intros H.
  specialize (H default_RateLimitInfo eq_refl). vm_compute in H. by apply H.
Qed.

(** C5, amended: an update stores the bucket as it is given, whatever its
    remaining count.  Whenever a bucket holds [remaining = 0] with reset
    instant [t], a probe at a time before [t] answers no; a probe at or
    after [t], with the global window over and the local sliding window of
    the route not saturated, answers yes. *)
Theorem bucket_gate endpoint info rl now :
  rate_limits_ (update_limits endpoint info rl) !! endpoint = Some info
  /\ forall bucket,
       rate_limits_ rl !! endpoint = Some bucket ->
       remaining bucket = 0 ->
       (now < reset_time bucket ->
        fst (can_make_request now endpoint rl) = false)
       /\ (reset_time bucket <= now ->
           global_reset_time_ rl <= now ->
           window_open now endpoint rl ->
           fst (can_make_request now endpoint rl) = true).
Proof.
  split; [apply lookup_insert_eq|].
  intros bucket Hb Hr. unfold can_make_request. rewrite Hb, Hr. split.
  - intros Hlt. destruct (now <? global_reset_time_ rl); [reflexivity|].
    simpl. destruct (Z.ltb_spec now (reset_time bucket)); [reflexivity | lia].
  - intros Hge Hglobal Hwin.
    destruct (Z.ltb_spec now (global_reset_time_ rl)); [lia|].
    simpl. destruct (Z.ltb_spec now (reset_time bucket)); [lia|].
    destruct (endpoint_limits_ rl !! endpoint) as [el|] eqn:Hel; [|reflexivity].
    unfold cleanup_old_requests. rewrite Hel. simpl.
    rewrite lookup_insert_eq. simpl. unfold saturated. simpl.
    specialize (Hwin el Hel).
    destruct (Z.leb_spec (to_size_t (max_requests el))
                (Z.of_nat (length (pop_older (now - window el * ticks_per_ms)
                                             (request_times el)))));
      [lia | reflexivity].
Qed.

(** The amended C5 at a bucket used up until the instant 2000: a probe at
    1999 answers no, a probe at 2000 answers yes. *)
Lemma bucket_gate_witness :
  fst (can_make_request 1999 "/channels/1/messages" exhausted_until_2000) = false
  /\ fst (can_make_request 2000 "/channels/1/messages" exhausted_until_2000) = true.
Proof.
  split.
  - apply (proj2 (bucket_gate "/channels/1/messages" default_RateLimitInfo
                    exhausted_until_2000 1999)
             {| remaining := 0; limit := 5; reset_time := 2000;
                global := false |});
      [reflexivity | reflexivity | simpl; lia].
  - apply (proj2 (bucket_gate "/channels/1/messages" default_RateLimitInfo
                    exhausted_until_2000 2000)
             {| remaining := 0; limit := 5; reset_time := 2000;
                global := false |});
      [reflexivity | reflexivity | simpl; lia | simpl; lia |].
    intros el Hel. vm_compute in Hel. discriminate Hel.
Defined.

End RateLimiterGate.

(** ** Removing a handler *)

Section HandlerRemoval.
Import Events Samples.

(** [std::remove_if] alone does not shrink the vector. *)
Lemma remove_if_loop_length pred fuel v result first :
  length (fst (remove_if_loop pred fuel v result first)) = length v.
Proof.
  revert v result first.
  induction fuel as [|fuel IH]; intros v result first; simpl; [reflexivity|].
  destruct (v !! first) as [x|]; [|reflexivity].
  destruct (pred x); rewrite IH; [reflexivity|].
  by rewrite !length_insert.
Qed.

Lemma remove_if_length pred v : length (fst (remove_if pred v)) = length v.
Proof.
  unfold remove_if. destruct (_ =? _)%nat; [reflexivity|].
  apply remove_if_loop_length.
Qed.

(** [off] leaves every event with as many handlers as it had. *)
Lemma off_keeps_count event_name handler_id d (e : string) :
  length (get_handlers e (snd (off event_name handler_id d)))
  = length (get_handlers e d).
Proof.
  unfold off, get_handlers.
  destruct (handlers_ d !! event_name) as [handlers|] eqn:E; [|reflexivity].
  pose proof (remove_if_length
                (fun info => String.eqb (id info) handler_id) handlers) as Hlen.
  destruct (remove_if _ handlers) as [handlers' pos]. simpl in *.
  destruct (decide (event_name = e)) as [<-|Hne].
  - by rewrite lookup_insert_eq, E.
  - by rewrite lookup_insert_ne.
Qed.

(** When the handler to remove is the last of the vector, and the only one
    of its id, [std::remove_if] moves nothing: the vector stays as it is
    and the returned position is that of the handler. *)
Lemma find_if_last pred v x :
  Forall (fun y => pred y = false) v -> pred x = true ->
  find_if pred (v ++ [x]) = length v.
Proof.
  intros Hv Hx. induction Hv as [|y v Hy Hv IH]; simpl.
  - by rewrite Hx.
  - by rewrite Hy, IH.
Qed.

Lemma remove_if_last pred v x :
  Forall (fun y => pred y = false) v -> pred x = true ->
  remove_if pred (v ++ [x]) = (v ++ [x], length v).
Proof.
  intros Hv Hx. unfold remove_if. rewrite (find_if_last pred v x Hv Hx).
  rewrite length_app. simpl.
  destruct (Nat.eqb_spec (length v) (length v + 1)); [lia|].
  replace (length v + 1)%nat with (S (length v)) by lia. simpl.
  rewrite lookup_ge_None_2; [reflexivity|].
  rewrite length_app. simpl. lia.
Qed.

(** C10 on the code.  With one handler registered, [off] for its id answers
    true, a handler with that id was indeed registered, and yet the handler
    is still in the table: the count of handlers is 1 as before, and the
    next [emit] calls the callback.  With two handlers registered, removing
    the first answers true and leaves two entries in the table; removing
    the second answers true and the next [emit] still calls both. *)
Theorem off_leaves_handler_registered :
  let d := snd (off "MESSAGE_CREATE" "greet" one_handler) in
  let d2 := snd (off "MESSAGE_CREATE" "greet" two_handlers) in
  fst (off "MESSAGE_CREATE" "greet" one_handler) = true
  /\ length (with_id "greet" (get_handlers "MESSAGE_CREATE" one_handler)) = 1%nat
  /\ get_handlers "MESSAGE_CREATE" d = get_handlers "MESSAGE_CREATE" one_handler
  /\ length (with_id "greet" (get_handlers "MESSAGE_CREATE" d)) = 1%nat
  /\ get_handler_count d = get_handler_count one_handler
  /\ fst (emit "MESSAGE_CREATE" (JString "hello") d) = [target greeter]
  /\ fst (off "MESSAGE_CREATE" "greet" two_handlers) = true
  /\ get_handler_count two_handlers = 2%nat
  /\ get_handler_count d2 = 2%nat
  /\ fst (off "MESSAGE_CREATE" "log" two_handlers) = true
  /\ fst (emit "MESSAGE_CREATE" (JString "hello")
            (snd (off "MESSAGE_CREATE" "log" two_handlers)))
     = [target greeter; target logger].
Proof. vm_compute. repeat split. Qed.

End HandlerRemoval.

(** ** The retry budget and the controller's session *)

Section ControllerFacts.
Import Reconnection Controller.

Lemma backoff_loop_budget fuel m :
  should_stop_ m = false ->
  0 <= current_retry_count_ m <= max_retries_ m ->
  max_retries_ m <= INT_MAX ->
  max_retries_ m - current_retry_count_ m < Z.of_nat fuel ->
  length (fst (backoff_loop fuel m))
  = Z.to_nat (max_retries_ m - current_retry_count_ m)
  /\ Forall (fun calls => calls = attempt_reconnection m)
            (fst (backoff_loop fuel m))
  /\ is_reconnecting_ (snd (backoff_loop fuel m)) = false
  /\ current_retry_count_ (snd (backoff_loop fuel m)) = max_retries_ m.
Proof.
  revert m. induction fuel as [|fuel IH]; intros m Hstop Hcount Hmax Hfuel.
  - simpl in Hfuel. lia.
  - simpl. unfold backoff_iteration. rewrite Hstop. simpl.
    destruct (Z.ltb_spec (current_retry_count_ m) (max_retries_ m)) as [Hlt|Hge];
      simpl.
    + set (m' := with_progress _ _ _ m).
      assert (Hc : current_retry_count_ m' = current_retry_count_ m + 1).
      { subst m'. simpl. apply to_int_fits.
        unfold fits_int, INT_MIN, INT_MAX in *. lia. }
      destruct (IH m') as (H1 & H2 & H3 & H4);
        [reflexivity | rewrite Hc; simpl; lia | exact Hmax
        | rewrite Hc; simpl; lia |].
      destruct (backoff_loop fuel m') as [rest m'']. simpl in *.
      rewrite Hc in H1. repeat split; [| |exact H3|exact H4].
      * rewrite H1. lia.
      * constructor; [reflexivity | exact H2].
    + assert (current_retry_count_ m = max_retries_ m) as -> by lia.
      rewrite Z.sub_diag. repeat split. constructor.
Qed.

(** X1: the reconnection thread, none of whose waits is interrupted, makes
    as many attempts as the retry budget has left, [max_retries] less the
    retry count, then ends and clears [is_reconnecting_]. *)
Theorem retry_budget fuel m :
  should_stop_ m = false ->
  0 <= current_retry_count_ m <= max_retries_ m ->
  max_retries_ m <= INT_MAX ->
  max_retries_ m - current_retry_count_ m < Z.of_nat fuel ->
  Z.of_nat (length (fst (backoff_loop fuel m)))
  = max_retries_ m - current_retry_count_ m
  /\ is_reconnecting_ (snd (backoff_loop fuel m)) = false
  /\ fst (backoff_iteration (snd (backoff_loop fuel m))) = None.
Proof.
  intros Hstop Hcount Hmax Hfuel.
  destruct (backoff_loop_budget fuel m Hstop Hcount Hmax Hfuel)
    as (H1 & _ & H3 & H4).
  split; [rewrite H1; lia|]. split; [exact H3|].
  unfold backoff_iteration.
  assert (Hmax' : max_retries_ (snd (backoff_loop fuel m)) = max_retries_ m).
  { clear. revert m. induction fuel as [|fuel IH]; intros m; simpl; [done|].
    unfold backoff_iteration.
    destruct (should_stop_ m || negb (_ <? _)); simpl; [done|].
    specialize (IH (with_progress (is_reconnecting_ m)
                      (to_int (current_retry_count_ m + 1)) (should_stop_ m) m)).
    destruct (backoff_loop fuel _) as [rest m'']. simpl in *. exact IH. }
  rewrite H4, Hmax', Z.ltb_irrefl. simpl. by rewrite orb_true_r.
Qed.

(** X1 at a controller after a disconnect with the default budget of five
    retries: five attempts. *)
Lemma retry_budget_witness :
  length (fst (backoff_loop 10
                 (handle_disconnect 1006 "Abnormal closure"
                                    Reconnection.initial))) = 5%nat.
Proof.
  destruct (retry_budget 10 (handle_disconnect 1006 "Abnormal closure"
                                               Reconnection.initial))
    as (H & _).
  - reflexivity.
  - change (0 <= 0 <= 5). lia.
  - change (5 <= 2 ^ 31 - 1). lia.
  - change (5 - 0 < 10). lia.
  - change (max_retries_ _ - current_retry_count_ _) with 5 in H. lia.
Defined.

Lemma step_session_id m e :
  session_id (session_info_ m) = "" ->
  session_id (session_info_ (step m e)) = "".
Proof.
  intros H. destruct e; simpl; try exact H; try reflexivity.
  - unfold handle_disconnect.
    destruct (negb (auto_reconnect_enabled_ m)); [exact H|].
    rewrite start_reconnect_sequence_session. simpl.
    destruct (is_resumable_close_code close_code
              && can_resume (session_info_ m)); [exact H | reflexivity].
  - unfold handle_invalid_session.
    rewrite start_reconnect_sequence_session. simpl.
    destruct resumable; [exact H | reflexivity].
  - unfold backoff_iteration.
    destruct (should_stop_ m
              || negb (current_retry_count_ m <? max_retries_ m)); exact H.
Qed.

(** X2: no sequence of events makes a controller ask for a resume.  Its
    session id stays empty, [should_resume] answers no, and an attempt
    calls the reconnect callback alone, with [false]. *)
Theorem controller_never_resumes events :
  session_id (session_info_ (run Reconnection.initial events)) = ""
  /\ should_resume (run Reconnection.initial events) = false
  /\ attempt_reconnection (run Reconnection.initial events)
     = [reconnect_callback false].
Proof.
  assert (H : session_id (session_info_ (run Reconnection.initial events)) = "").
  { unfold run.
    assert (G : forall m, session_id (session_info_ m) = "" ->
                          session_id (session_info_ (foldl step m events)) = "").
    { induction events as [|e events IH]; intros m Hm; simpl; [exact Hm|].
      apply IH. by apply step_session_id. }
    by apply G. }
  assert (H2 : should_resume (run Reconnection.initial events) = false).
  { unfold should_resume. rewrite H. simpl. apply andb_false_r. }
  split; [exact H|]. split; [exact H2|].
  unfold attempt_reconnection. by rewrite H2.
Qed.

End ControllerFacts.

(** ** Growth of the backoff delay *)

Section BackoffGrowth.
Import Reconnection.

(** X3: for a base delay that is not negative, an attempt number [k] from
    0 to 1022 and a jitter draw between 0 and 1.2, such that 1.2 times the
    uncapped delay of attempt [k + 1] is within the integers a [double]
    holds exactly, the delays of attempts [k] and [k + 1] are both defined,
    the delay of the next attempt under the same draw is not shorter, and
    it is not longer than the cap. *)
Theorem backoff_delay_grows fl base max_delay k u :
  rounding fl -> 0 <= base -> 0 <= k <= 1022 ->
  6 * (base * 2 ^ (k + 1)) <= 5 * 2 ^ 53 ->
  (0 <= u)%Q -> (u <= (6 # 5))%Q ->
  exists delay next,
    backoff_delay fl base max_delay k u = Some delay
    /\ backoff_delay fl base max_delay (k + 1) u = Some next
    /\ delay <= next /\ next <= max_delay.
Proof.
  intros Hfl Hb Hk Hrange Hu Hhi.
  assert (Hpow : 2 ^ (k + 1) = 2 * 2 ^ k)
    by (replace (k + 1) with (Z.succ k) by lia; apply Z.pow_succ_r; lia).
  assert (H1 : 1 <= 2 ^ k) by (apply (Z.pow_le_mono_r 2 0 k); lia).
  assert (H0 : 0 <= base * 2 ^ k) by (apply Z.mul_nonneg_nonneg; lia).
  assert (Hstep : base * 2 ^ k <= base * 2 ^ (k + 1)) by nia.
  assert (Hcap : forall B, 0 <= B -> 6 * B <= 5 * 2 ^ 53 ->
                           (inject_Z B * u <= inject_Z (2 ^ 53))%Q).
  { intros B HB0 HB.
    apply Qle_trans with (inject_Z B * (6 # 5))%Q.
    - rewrite !(Qmult_comm (inject_Z B)).
      apply Qmult_le_compat_r; [exact Hhi | by rewrite <- (Zle_Qle 0)].
    - unfold Qle. simpl. lia. }
  exists (Z.min (Qfloor (fl (inject_Z (base * 2 ^ k) * u)%Q)) max_delay),
         (Z.min (Qfloor (fl (inject_Z (base * 2 ^ (k + 1)) * u)%Q)) max_delay).
  split; [|split; [|split]].
  - apply backoff_delay_rounded; try assumption; try lia; apply Hcap; lia.
  - apply backoff_delay_rounded; try assumption; try lia; apply Hcap; lia.
  - apply Z.min_le_compat_r, Qfloor_resp_le, (fl_monotone fl Hfl).
    apply Qmult_le_compat_r; [|exact Hu]. by rewrite <- Zle_Qle.
  - apply Z.le_min_r.
Qed.

(** X3 at the default delays, from attempt 3 to attempt 4 with jitter 1:
    8000 ms, then 16000 ms, below the cap of 30000 ms. *)
Lemma backoff_delay_grows_witness :
  exists delay next,
    backoff_delay Samples.no_rounding 1000 30000 3 1 = Some delay
    /\ backoff_delay Samples.no_rounding 1000 30000 (3 + 1) 1 = Some next
    /\ delay <= next /\ next <= 30000.
Proof.
  apply (backoff_delay_grows Samples.no_rounding 1000 30000 3 1).
  - exact no_rounding_is_rounding.
  - lia.
  - lia.
  - lia.
  - discriminate.
  - discriminate.
Defined.

End BackoffGrowth.

(** ** What a connection sends, and when *)

Section ConnectionFrames.
Import Reconnection WebSocket Samples MoreSamples.

Lemma send_own s payload c :
  own_frame s payload -> Forall (own_frame s) (sent c) ->
  Forall (own_frame s) (sent (send payload c)).
Proof.
  intros Hp Hc. unfold send. destruct (is_connected_ c); [|exact Hc].
  simpl. apply Forall_app. split; [exact Hc|]. by constructor.
Qed.

Lemma identify_own s c :
  Forall (own_frame s) (sent c) -> Forall (own_frame s) (sent (identify c)).
Proof. apply send_own. left. by exists c. Qed.

Lemma resume_own s c :
  session_id_ c = "" -> Forall (own_frame s) (sent c) ->
  Forall (own_frame s) (sent (resume c)).
Proof. intros H. unfold resume. rewrite H. simpl. apply identify_own. Qed.

Lemma run_callbacks_own s calls c :
  session_id_ c = "" -> Forall (own_frame s) (sent c) ->
  Forall (own_frame s)
         (sent (foldl (fun c call => run_callback call c) c calls)).
Proof.
  revert c. induction calls as [|call calls IH]; intros c Hs Hc; simpl;
    [exact Hc|].
  apply IH.
  - by rewrite (proj1 (run_callback_session call c)).
  - destruct call as [[|]|]; simpl; auto using resume_own, identify_own.
Qed.

Lemma step_own c e :
  session_id_ c = "" ->
  Forall (own_frame (last_sequence_ c)) (sent c) ->
  Forall (own_frame (last_sequence_ c)) (sent (step c e)).
Proof.
  intros Hs Hc. destruct e; simpl; try exact Hc.
  - unfold on_message.
    destruct (handle_gateway_op payload c) as [c'|] eqn:E; simpl; [|exact Hc].
    by rewrite (handle_gateway_op_sent payload c c' E).
  - unfold heartbeat_tick. destruct (is_connected_ c); [|exact Hc].
    apply send_own; [by right | exact Hc].
  - unfold reconnect_attempt.
    destruct (negb (is_reconnecting_ (reconnect_manager_ c))); [exact Hc|].
    destruct (backoff_iteration (reconnect_manager_ c)) as [[calls|] m];
      [|exact Hc].
    by apply run_callbacks_own.
  - by apply identify_own.
Qed.

(** X4: whatever happens to a connection, each frame it sends of its own
    is an IDENTIFY or a HEARTBEAT, and every HEARTBEAT carries the sequence
    number the constructor left, whatever was dispatched since. *)
Theorem connection_sends_identify_and_heartbeat intents0 sequence0 events :
  Forall (own_frame sequence0)
         (sent (run (WebSocket.initial intents0 sequence0) events)).
Proof.
  assert (H : forall c, session_id_ c = "" ->
                        Forall (own_frame (last_sequence_ c)) (sent c) ->
                        Forall (own_frame (last_sequence_ c))
                               (sent (run c events))).
  { unfold run. induction events as [|e events IH]; intros c Hs Hc; simpl;
      [exact Hc|].
    destruct (step_session c e) as [Hs' Hl'].
    rewrite <- Hl'. apply IH; [by rewrite Hs' | rewrite Hl'].
    by apply step_own. }
  apply (H (WebSocket.initial intents0 sequence0)); [reflexivity | constructor].
Qed.

Lemma send_disconnected payload c :
  is_connected_ c = false -> send payload c = c.
Proof. intros H. unfold send. by rewrite H. Qed.

Lemma handle_gateway_op_connected payload c c' :
  handle_gateway_op payload c = Ok c' -> is_connected_ c' = is_connected_ c.
Proof.
  unfold handle_gateway_op. intros H.
  repeat (match type of H with
          | (if ?b then _ else _) = _ => destruct b
          | (match ?r with Ok _ => _ | Throw _ => _ end) = _ => destruct r
          | (mbind _ ?r) = _ => destruct r; simpl in H
          | Ok _ = Ok _ => injection H as <-
          | Throw _ = Ok _ => discriminate H
          end); reflexivity.
Qed.

Lemma run_callbacks_disconnected calls c :
  is_connected_ c = false ->
  foldl (fun c call => run_callback call c) c calls = c.
Proof.
  intros Hc. induction calls as [|call calls IH]; simpl; [reflexivity|].
  assert (E : run_callback call c = c).
  { destruct call as [[|]|]; simpl; unfold resume, identify;
      try destruct (String.eqb (session_id_ c) "");
      by apply send_disconnected. }
  by rewrite E.
Qed.

(** X5: a connection that is not connected sends nothing, and only the open
    handler connects it: any other event leaves the frames sent as they are
    and the connection disconnected. *)
Theorem disconnected_sends_nothing c e :
  is_connected_ c = false -> e <> Open ->
  sent (step c e) = sent c /\ is_connected_ (step c e) = false.
Proof.
  intros Hc He. destruct e; simpl; try done.
  - unfold on_message.
    destruct (handle_gateway_op payload c) as [c'|] eqn:E; simpl; [|done].
    split; [by apply (handle_gateway_op_sent payload)|].
    by rewrite (handle_gateway_op_connected payload c c' E).
  - unfold heartbeat_tick. by rewrite Hc.
  - unfold reconnect_attempt.
    destruct (negb (is_reconnecting_ (reconnect_manager_ c))); [done|].
    destruct (backoff_iteration (reconnect_manager_ c)) as [[calls|] m];
      [|done].
    by rewrite run_callbacks_disconnected.
  - unfold identify. by rewrite send_disconnected.
Qed.

(** X5 at a connection whose transport has just closed: its reconnection
    attempt sends nothing. *)
Lemma disconnected_sends_nothing_witness :
  sent (step (run (WebSocket.initial 0 0)
                  (established 2 ++ [Close 1006 "Abnormal closure"]))
             ReconnectAttempt)
  = sent (run (WebSocket.initial 0 0)
              (established 2 ++ [Close 1006 "Abnormal closure"])).
Proof.
  apply (disconnected_sends_nothing
           (run (WebSocket.initial 0 0)
                (established 2 ++ [Close 1006 "Abnormal closure"]))
           ReconnectAttempt).
  - reflexivity.
  - discriminate.
Defined.

End ConnectionFrames.

(** ** Shards: routing, sizing, session tracking *)

Section ShardFacts.
Import Shard ShardFactory Samples.

(** X6: for every configured shard count that an [int] holds and every
    guild id string, the shard computed is a valid shard index, and a
    string that [std::stoull] rejects (no digits, or a value above
    [2^64 - 1]) goes to shard 0. *)
Theorem shard_for_guild_in_range (N : Z) (guild_id : string) :
  N <= INT_MAX ->
  0 <= get_shard_for_guild N guild_id < Z.max N 1
  /\ (forall e, stoull guild_id = Throw e -> get_shard_for_guild N guild_id = 0).
Proof.
  intros HN. unfold get_shard_for_guild.
  destruct (Z.leb_spec N 1) as [H1|H1]; [split; [lia | done]|].
  destruct (stoull guild_id) as [g|e]; [|split; [lia | done]].
  split; [|discriminate].
  unfold INT_MAX in HN. rewrite (Z.mod_small N) by lia.
  pose proof (Z.mod_pos_bound (Z.shiftr g 22) N ltac:(lia)).
  rewrite to_int_fits; [lia|]. unfold fits_int, INT_MIN, INT_MAX. lia.
Qed.

(** X6 at four shards and a guild id that is not a number. *)
Lemma shard_for_guild_in_range_witness :
  0 <= get_shard_for_guild 4 "general" < Z.max 4 1
  /\ get_shard_for_guild 4 "general" = 0.
Proof.
  destruct (shard_for_guild_in_range 4 "general") as [H1 H2].
  - unfold INT_MAX. lia.
  - split; [exact H1 | by apply (H2 invalid_argument)].
Defined.

(** X7: for a guild count of at most [INT_MAX - 2000], so that the sum the
    function forms is an [int], the number of shards computed for a
    positive count is the count divided by 2000 and rounded up: the least
    number of shards of at most 2000 guilds each.  For a count that is not
    positive it is 1. *)
Theorem optimal_shards_is_ceiling (guild_count : Z) :
  INT_MIN <= guild_count <= INT_MAX - 2000 ->
  let shards := calculate_optimal_shards guild_count in
  1 <= shards
  /\ (0 < guild_count ->
      2000 * (shards - 1) < guild_count <= 2000 * shards)
  /\ (guild_count <= 0 -> shards = 1).
Proof.
  intros Hg shards. subst shards. unfold calculate_optimal_shards.
  rewrite (to_int_fits (guild_count + 2000))
    by (unfold fits_int, INT_MIN, INT_MAX in *; lia).
  rewrite to_int_fits by (unfold fits_int, INT_MIN, INT_MAX in *; lia).
  split; [lia|]. split.
  - intros Hpos. rewrite Z.quot_div_nonneg by lia.
    pose proof (Z.div_mod (guild_count + 2000 - 1) 2000 ltac:(lia)).
    pose proof (Z.mod_pos_bound (guild_count + 2000 - 1) 2000 ltac:(lia)).
    lia.
  - intros Hneg.
    pose proof (Z.quot_rem' (guild_count + 2000 - 1) 2000) as E.
    destruct (Z.le_gt_cases 0 (guild_count + 2000 - 1)) as [H0|H0].
    + pose proof (Z.rem_bound_pos (guild_count + 2000 - 1) 2000 H0 ltac:(lia)).
      lia.
    + pose proof (Z.rem_bound_pos_neg (guild_count + 2000 - 1) 2000
                    ltac:(lia) ltac:(lia)).
      lia.
Qed.

(** X7 at 4001 guilds: three shards. *)
Lemma optimal_shards_is_ceiling_witness :
  calculate_optimal_shards 4001 = 3
  /\ 2000 * (3 - 1) < 4001 <= 2000 * 3.
Proof.
  destruct (optimal_shards_is_ceiling 4001) as (_ & H & _).
  - unfold INT_MIN, INT_MAX. lia.
  - split; [reflexivity | apply H; lia].
Defined.

(** X8: the configurations the factory makes pass
    [ShardManager::validate_config] with a token that is not empty: the
    three presets, and the one made for a guild count of at most
    [INT_MAX - 2000], whose concurrency is between 1 and 4 and at most its
    shard count, and whose delay between connections is between 500 ms and
    5000 ms. *)
Theorem factory_configs_are_valid (guild_count : Z) (bot_token : string) :
  bot_token <> "" ->
  INT_MIN <= guild_count <= INT_MAX - 2000 ->
  let config := create_config_for_guild_count guild_count in
  valid config bot_token = true
  /\ 1 <= max_concurrency config <= Z.min 4 (shard_count config)
  /\ 500 <= connection_delay config <= 5000
  /\ valid create_small_bot_config bot_token = true
  /\ valid create_medium_bot_config bot_token = true
  /\ valid create_large_bot_config bot_token = true.
Proof.
  intros Htoken Hg config.
  assert (Ht : negb (String.eqb bot_token "") = true).
  { apply negb_true_iff. by apply String.eqb_neq. }
  pose proof (proj1 (optimal_shards_is_ceiling guild_count Hg)) as Hs.
  subst config. unfold create_config_for_guild_count, valid, Shard.validate_config.
  simpl. rewrite Ht.
  set (n := calculate_optimal_shards guild_count) in *.
  assert (0 <= Z.quot 5000 n <= 5000).
  { rewrite Z.quot_div_nonneg by lia. split.
    - apply Z.div_pos; lia.
    - apply Z.div_le_upper_bound; nia. }
  assert (Hvalid : (0 <? n) && (0 <? Z.min 4 n) && true = true).
  { destruct (Z.ltb_spec 0 n); [|lia].
    destruct (Z.ltb_spec 0 (Z.min 4 n)); [reflexivity | lia]. }
  split; [exact Hvalid|]. repeat split; lia.
Qed.

(** X8 at 10000 guilds: five shards, four at a time, a second apart. *)
Lemma factory_configs_are_valid_witness :
  valid (create_config_for_guild_count 10000) "token" = true
  /\ shard_count (create_config_for_guild_count 10000) = 5
  /\ connection_delay (create_config_for_guild_count 10000) = 1000.
Proof.
  destruct (factory_configs_are_valid 10000 "token") as (H & _).
  - discriminate.
  - unfold INT_MIN, INT_MAX. lia.
  - split; [exact H | split; reflexivity].
Defined.

Lemma contains_at_key (event : json) key v :
  at_key event key = Ok v -> contains event key = true.
Proof.
  destruct event; try discriminate. simpl.
  destruct (m !! key); [intros _; by apply bool_decide_eq_true_2 | discriminate].
Qed.

(** X9: for a dispatch (opcode 0) that carries an integer [s] and a type
    other than READY and RESUMED, the shard manager records [s], as an
    [int], as the last sequence of the shard, leaves the session id and the
    resumable flag as they are, and no exception leaves the handler. *)
Theorem dispatch_updates_sequence (event : json) (info : ShardInfo) s t :
  at_key event "op" = Ok (JInt 0) ->
  at_key event "s" = Ok (JInt s) ->
  at_key event "t" = Ok (JString t) ->
  t <> "READY" -> t <> "RESUMED" ->
  handle_shard_event event info
  = (with_session (session_id info) (to_int s) (is_resumable info) info, None).
Proof.
  intros Hop Hs Ht Hready Hresumed.
  unfold handle_shard_event, update_sequence, handle_event_type.
  rewrite (contains_at_key event "op" _ Hop), Hop.
  rewrite (contains_at_key event "s" _ Hs). simpl.
  assert (Hv : value_int event "s" 0 = Ok (to_int s)).
  { unfold value_int, value. destruct event; try discriminate.
    simpl in Hs. destruct (m !! "s"); [|discriminate].
    by injection Hs as ->. }
  rewrite Hv. simpl.
  rewrite (contains_at_key event "t" _ Ht), Ht. simpl.
  rewrite (proj2 (String.eqb_neq t "READY") Hready).
  rewrite (proj2 (String.eqb_neq t "RESUMED") Hresumed). reflexivity.
Qed.

(** X9 at a MESSAGE_CREATE with sequence number 2, after READY. *)
Lemma dispatch_updates_sequence_witness :
  sequence_number (fst (handle_shard_event (message_create_payload 2)
                                           shard_after_ready)) = 2
  /\ session_id (fst (handle_shard_event (message_create_payload 2)
                                         shard_after_ready)) = "abc".
Proof.
  rewrite (dispatch_updates_sequence (message_create_payload 2)
             shard_after_ready 2 "MESSAGE_CREATE");
    [split; reflexivity | reflexivity | reflexivity | reflexivity
    | discriminate | discriminate].
Defined.

(** X10: a payload that is not a dispatch and whose type member [t] is
    null, as in every HELLO and heartbeat acknowledgement, makes
    [handle_shard_event] throw a type error on the conversion of [t] to a
    string: the record of the shard is left as it is, and the user callback
    after the conversion is not reached. *)
Theorem null_type_throws (event : json) (info : ShardInfo) n :
  at_key event "op" = Ok (JInt n) -> n <> 0 ->
  at_key event "t" = Ok JNull ->
  handle_shard_event event info = (info, Some json_type_error).
Proof.
  intros Hop Hn Ht.
  unfold handle_shard_event, update_sequence, handle_event_type.
  rewrite (contains_at_key event "op" _ Hop), Hop. simpl.
  rewrite (proj2 (Z.eqb_neq n 0) Hn). simpl.
  rewrite (contains_at_key event "t" _ Ht), Ht. reflexivity.
Qed.

(** X10 at the HELLO payload. *)
Lemma null_type_throws_witness :
  handle_shard_event hello_payload (new_ShardInfo 0 1)
  = (new_ShardInfo 0 1, Some json_type_error).
Proof.
  apply (null_type_throws hello_payload (new_ShardInfo 0 1) 10).
  - reflexivity.
  - lia.
  - reflexivity.
Defined.



End ShardFacts.

(** ** The rate limiter: global window, waits, local windows *)

Section RateLimiterFacts.
Import RateLimit RateLimitOps MoreSamples.

(** X12: the global window overrides every bucket.  After
    [set_global_limit] at [now] with a delay whose count of nanoseconds,
    and whose end, fit the 64 bits of the clock, and after an update whose
    info has the global flag set, no route may proceed before the global
    reset instant, whatever its bucket and local window say. *)
Theorem global_window_blocks_all_routes rl now delay_ms endpoint info route t :
  fits_int64 (delay_ms * ticks_per_ms) ->
  fits_int64 (now + delay_ms * ticks_per_ms) ->
  (t < now + delay_ms * ticks_per_ms ->
   fst (can_make_request t route (set_global_limit now delay_ms rl)) = false)
  /\ (global info = true -> t < reset_time info ->
      fst (can_make_request t route (update_limits endpoint info rl)) = false).
Proof.
  intros Hdelay Hend. split.
  - intros Ht. unfold can_make_request, set_global_limit. simpl.
    rewrite (to_int64_fits _ Hdelay), (to_int64_fits _ Hend).
    by destruct (Z.ltb_spec t (now + delay_ms * ticks_per_ms)); [|lia].
  - intros Hg Ht. unfold can_make_request, update_limits. simpl.
    rewrite Hg. by destruct (Z.ltb_spec t (reset_time info)); [|lia].
Qed.

(** X12 at a global limit of two seconds set at the instant 0. *)
Lemma global_window_blocks_all_routes_witness :
  fst (can_make_request 1999999999 "/users/@me"
         (set_global_limit 0 2000 RateLimit.initial)) = false.
Proof.
  destruct (global_window_blocks_all_routes RateLimit.initial 0 2000
              "" default_RateLimitInfo "/users/@me" 1999999999) as [H _].
  - unfold fits_int64, INT64_MIN, INT64_MAX, ticks_per_ms. lia.
  - unfold fits_int64, INT64_MIN, INT64_MAX, ticks_per_ms. lia.
  - apply H. unfold ticks_per_ms. lia.
Defined.

(** X13: a route that may proceed has nothing to wait for: when
    [can_make_request] answers yes at an instant, [get_wait_time] at that
    instant is 0 ms, and both leave the limiter in the same state. *)
Theorem proceed_means_no_wait now endpoint rl :
  fst (can_make_request now endpoint rl) = true ->
  get_wait_time now endpoint rl = (Some 0, snd (can_make_request now endpoint rl)).
Proof.
  unfold can_make_request, get_wait_time.
  destruct (now <? global_reset_time_ rl); [discriminate|].
  destruct (rate_limits_ rl !! endpoint) as [info|].
  - destruct (remaining info =? 0) eqn:Hr; simpl.
    + destruct (now <? reset_time info); simpl.
      * rewrite andb_true_r.
        destruct (0 <=? remaining info) eqn:H0; [discriminate|].
        apply Z.eqb_eq in Hr. apply Z.leb_gt in H0. lia.
      * rewrite andb_false_r.
        destruct (endpoint_limits_ rl !! endpoint); [|done].
        destruct (endpoint_limits_ (cleanup_old_requests now endpoint rl)
                    !! endpoint) as [el'|]; [|done].
        simpl. by destruct (saturated el').
    + rewrite andb_false_r.
      destruct (endpoint_limits_ rl !! endpoint); [|done].
      destruct (endpoint_limits_ (cleanup_old_requests now endpoint rl)
                  !! endpoint) as [el'|]; [|done].
      simpl. by destruct (saturated el').
  - destruct (endpoint_limits_ rl !! endpoint); [|done].
    destruct (endpoint_limits_ (cleanup_old_requests now endpoint rl)
                !! endpoint) as [el'|]; [|done].
    simpl. by destruct (saturated el').
Qed.

(** X13 at a fresh limiter. *)
Lemma proceed_means_no_wait_witness :
  get_wait_time 5 "/users/@me" RateLimit.initial = (Some 0, RateLimit.initial).
Proof. apply (proceed_means_no_wait 5 "/users/@me" RateLimit.initial eq_refl). Defined.

Lemma cleanup_keeps_queues_empty now endpoint rl :
  queues_empty rl -> queues_empty (cleanup_old_requests now endpoint rl).
Proof.
  intros H. unfold cleanup_old_requests.
  destruct (endpoint_limits_ rl !! endpoint) as [el|] eqn:E; [|exact H].
  intros e el'. simpl. rewrite lookup_insert.
  destruct (decide (endpoint = e)) as [<-|Hne]; [|apply H].
  intros [= <-]. simpl. by rewrite (H endpoint el E).
Qed.

Lemma step_keeps_queues_empty rl c :
  queues_empty rl -> queues_empty (step rl c).
Proof.
  intros H. destruct c; simpl.
  - exact H.
  - unfold can_make_request.
    destruct (now <? global_reset_time_ rl); [exact H|].
    destruct (match rate_limits_ rl !! endpoint with
              | Some info => _ | None => false end); [exact H|].
    destruct (endpoint_limits_ rl !! endpoint); [|exact H].
    pose proof (cleanup_keeps_queues_empty now endpoint rl H).
    by destruct (endpoint_limits_ (cleanup_old_requests now endpoint rl)
                   !! endpoint).
  - unfold get_wait_time.
    destruct (now <? global_reset_time_ rl); [exact H|].
    destruct (match rate_limits_ rl !! endpoint with
              | Some info => _ | None => None end); [exact H|].
    destruct (endpoint_limits_ rl !! endpoint); [|exact H].
    pose proof (cleanup_keeps_queues_empty now endpoint rl H).
    destruct (endpoint_limits_ (cleanup_old_requests now endpoint rl)
                !! endpoint) as [el'|]; [|done].
    destruct (saturated el'); [|done].
    destruct (request_times el'); [done|].
    by destruct (now <? _).
  - exact H.
  - intros e el. simpl. rewrite lookup_insert.
    destruct (decide (endpoint = e)) as [<-|Hne]; [|apply H].
    by intros [= <-].
Qed.

Lemma run_keeps_queues_empty calls rl :
  queues_empty rl -> queues_empty (run rl calls).
Proof.
  revert rl. unfold run.
  induction calls as [|c calls IH]; intros rl H; simpl; [exact H|].
  apply IH. by apply step_keeps_queues_empty.
Qed.

(** X14: no call of the limiter records the instant of a request, so the
    queue of every local window stays empty, whatever calls were made.  A
    local policy therefore never holds a request back, unless its
    [max_requests] is 0, in which case it holds back every request: a route
    may proceed exactly when the global window is over and its bucket does
    not block. *)
Theorem local_window_never_fills calls now endpoint :
  let rl := run RateLimit.initial calls in
  queues_empty rl
  /\ (forall el, endpoint_limits_ rl !! endpoint = Some el ->
                 fits_int (max_requests el) ->
                 fst (can_make_request now endpoint rl)
                 = negb (now <? global_reset_time_ rl)
                   && negb (bucket_blocks now endpoint rl)
                   && negb (max_requests el =? 0)).
Proof.
  intros rl.
  assert (Hq : queues_empty rl).
  { apply run_keeps_queues_empty. intros e el H. simpl in H.
    by rewrite lookup_empty in H. }
  split; [exact Hq|]. intros el Hel Hfits.
  unfold can_make_request.
  destruct (now <? global_reset_time_ rl); [reflexivity|]. simpl.
  assert (Hb : match rate_limits_ rl !! endpoint with
               | Some info => (0 <=? remaining info)
                              && ((remaining info =? 0) && (now <? reset_time info))
               | None => false
               end
               = bucket_blocks now endpoint rl).
  { unfold bucket_blocks.
    destruct (rate_limits_ rl !! endpoint) as [info|]; [|reflexivity].
    destruct (Z.eqb_spec (remaining info) 0) as [->|]; [reflexivity|].
    apply andb_false_r. }
  rewrite Hb. destruct (bucket_blocks now endpoint rl); [reflexivity|].
  rewrite Hel. simpl.
  unfold cleanup_old_requests. rewrite Hel. simpl. rewrite lookup_insert_eq.
  unfold saturated. simpl. rewrite (Hq endpoint el Hel). simpl.
  unfold fits_int, INT_MIN, INT_MAX, to_size_t in *.
  destruct (Z.eqb_spec (max_requests el) 0) as [->|Hne]; [reflexivity|].
  simpl. apply negb_true_iff. apply Z.leb_gt.
  destruct (Z.le_gt_cases 0 (max_requests el)).
  - rewrite Z.mod_small; lia.
  - replace (max_requests el)
      with (max_requests el + 2 ^ 64 + (-1) * 2 ^ 64) by lia.
    rewrite Z.mod_add by lia. rewrite Z.mod_small; lia.
Qed.

(** X14 at a limiter with a local policy of five requests a second, after
    two probes: the route may proceed. *)
Lemma local_window_never_fills_witness :
  fst (can_make_request 20 "/users/@me"
         (run RateLimit.initial
              [SetEndpointLimit "/users/@me" 5 1000;
               CanMakeRequest 10 "/users/@me";
               WaitIfNeeded 11 "/users/@me"])) = true.
Proof.
  rewrite (proj2 (local_window_never_fills
                    [SetEndpointLimit "/users/@me" 5 1000;
                     CanMakeRequest 10 "/users/@me";
                     WaitIfNeeded 11 "/users/@me"] 20 "/users/@me")
             {| max_requests := 5; window := 1000; request_times := [] |}).
  - reflexivity.
  - reflexivity.
  - unfold fits_int, INT_MIN, INT_MAX. simpl. lia.
Defined.

End RateLimiterFacts.

(** ** The HTTP pipeline: order, outcome, shutdown *)

Section PipelineFacts.
Import Http HttpShutdown.

Lemma drain_stopped parse transport fuel h :
  running_ h = false -> drain parse transport fuel h = h.
Proof.
  intros H. induction fuel as [|fuel IH]; simpl; [reflexivity|].
  unfold worker_iteration at 1. rewrite H. simpl. exact IH.
Qed.

Lemma drain_fifo parse transport fuel queue done results :
  drain parse transport fuel
    {| request_queue_ := queue; running_ := true;
       performed := done; completed := results |}
  = {| request_queue_ := drop fuel queue; running_ := true;
       performed := done ++ take fuel queue;
       completed :=
         results ++ map (fun r => (promise r, serve parse transport r))
                        (take fuel queue) |}.
Proof.
  revert queue done results.
  induction fuel as [|fuel IH]; intros queue done results; simpl.
  - by rewrite drop_0, take_0, !app_nil_r.
  - unfold worker_iteration at 1. simpl. destruct queue as [|r rest].
    + rewrite drop_nil, take_nil. simpl. rewrite !app_nil_r.
      rewrite IH. by rewrite drop_nil, take_nil, !app_nil_r.
    + rewrite IH. simpl. by rewrite <- !app_assoc.
Qed.

(** X15: the worker serves the queue in the order of submission, one
    request at a time and each once.  After [k] iterations of a running
    pipeline, the requests handed to the transport are the first [k] of the
    queue, in order, after those handed over before; their promises are
    completed in that order, each with the outcome of its own transfer;
    and the rest of the queue waits as it was. *)
Theorem worker_serves_in_order parse transport k (h : HTTPClient) :
  running_ h = true ->
  let h' := drain parse transport k h in
  performed h' = performed h ++ take k (request_queue_ h)
  /\ completed h'
     = completed h ++ map (fun r => (promise r, serve parse transport r))
                          (take k (request_queue_ h))
  /\ request_queue_ h' = drop k (request_queue_ h).
Proof.
  intros Hrun. destruct h as [queue running done results]. simpl in *.
  subst running. by rewrite drain_fifo.
Qed.

(** X15 at a pipeline with two requests waiting, after two iterations. *)
Lemma worker_serves_in_order_witness :
  performed (drain Samples.parse_sample Samples.always_429 2
               (submit Samples.post_message
                  (Samples.pipeline [Samples.post_message])))
  = [Samples.post_message; Samples.post_message]
  /\ request_queue_ (drain Samples.parse_sample Samples.always_429 2
                       (submit Samples.post_message
                          (Samples.pipeline [Samples.post_message]))) = [].
Proof.
  destruct (worker_serves_in_order Samples.parse_sample Samples.always_429 2
              (submit Samples.post_message
                 (Samples.pipeline [Samples.post_message])) eq_refl)
    as (H1 & _ & H3).
  split; [exact H1 | exact H3].
Defined.

(** X16: a transfer succeeds exactly when curl returned [CURLE_OK] and the
    status is below 400, and then the response is the body as received.
    Every failure is a [std::runtime_error], whatever the status: there is
    no error of its own for 401, 403 or 429. *)
Theorem check_response_outcome parse (t : Transfer) :
  (forall response,
      check_response parse t = Ok response <->
      curl_ok t = true /\ response_code t < 400 /\ response = body t)
  /\ (forall e, check_response parse t = Throw e ->
                exists what, e = runtime_error what).
Proof.
  unfold check_response. split.
  - intros response. destruct (curl_ok t); simpl.
    + destruct (Z.leb_spec 400 (response_code t)).
      * split; [discriminate | lia].
      * split; [intros [= <-]; repeat split; lia | by intros (_ & _ & ->)].
    + split; [discriminate | by intros [? _]].
  - intros e. destruct (curl_ok t); simpl; [|intros [= <-]; eauto].
    destruct (400 <=? response_code t); [intros [= <-]; eauto | discriminate].
Qed.

(** X16 at a transfer that ends with status 204 and an empty body. *)
Lemma check_response_outcome_witness :
  check_response Samples.parse_sample
    {| curl_ok := true; curl_strerror := "No error";
       response_code := 204; body := "" |} = Ok "".
Proof.
  apply (proj1 (check_response_outcome Samples.parse_sample
                  {| curl_ok := true; curl_strerror := "No error";
                     response_code := 204; body := "" |})).
  simpl. split; [reflexivity | split; [lia | reflexivity]].
Defined.

(** X17: shutting the pipeline down fails the promise of every request that
    still waits with the error "HTTP client shutting down", hands none of
    them to the transport, and leaves the queue empty.  A request submitted
    afterwards stays in the queue: however often the worker loop is
    entered, it is neither performed nor completed. *)
Theorem shutdown_fails_the_queue parse transport (h : HTTPClient) r fuel :
  let h' := shutdown h in
  performed h' = performed h
  /\ request_queue_ h' = []
  /\ completed h'
     = completed h ++ map (fun r => (promise r, Throw shutting_down))
                          (request_queue_ h)
  /\ drain parse transport fuel (submit r h') = submit r h'
  /\ request_queue_ (drain parse transport fuel (submit r h')) = [r].
Proof.
  intros h'. repeat split.
  - by apply drain_stopped.
  - by rewrite drain_stopped.
Qed.

End PipelineFacts.

(** ** The cache manager: time to live, cleanup, eviction, import *)

Section CacheFacts.
Import Cache CacheOps MoreSamples.

Lemma persistent_not_expired now e :
  is_persistent e = true -> is_expired now e = false.
Proof. unfold is_expired. intros ->. reflexivity. Qed.

(** What the cleanup loop leaves at a key, for any table it starts from. *)
Lemma cleanup_fold_lookup now (m c0 : gmap string CacheEntry) l0 k :
  fst (map_fold (fun key entry acc =>
              if is_expired now entry
              then (delete key (fst acc), snd acc ++ [(key, value entry)])
              else acc) (c0, l0) m) !! k
  = match m !! k with
    | Some e => if is_expired now e then None else c0 !! k
    | None => c0 !! k
    end.
Proof.
  revert k.
  apply (map_fold_weak_ind
           (fun r m => forall k, fst r !! k
              = match m !! k with
                | Some e => if is_expired now e then None else c0 !! k
                | None => c0 !! k
                end)).
  - intros k. rewrite lookup_empty. reflexivity.
  - intros i e m' r Hi IH k.
    destruct (decide (i = k)) as [->|Hne].
    + rewrite lookup_insert_eq.
      destruct (is_expired now e); simpl.
      * apply lookup_delete_eq.
      * rewrite IH, Hi. reflexivity.
    + rewrite lookup_insert_ne by exact Hne.
      destruct (is_expired now e); simpl.
      * rewrite lookup_delete_ne by exact Hne. apply IH.
      * apply IH.
Qed.

Lemma cleanup_loop_live now cache log :
  fst (cleanup_loop now cache log) = live now cache.
Proof.
  apply map_eq. intros k. unfold cleanup_loop, live.
  rewrite cleanup_fold_lookup, map_lookup_filter.
  destruct (cache !! k) as [e|]; simpl; [|reflexivity].
  destruct (is_expired now e) eqn:E.
  - rewrite option_guard_False; [reflexivity|]. simpl. discriminate.
  - rewrite option_guard_True; [reflexivity|]. simpl. reflexivity.
Qed.

Lemma cleanup_expired_cache now force st :
  cache_ (cleanup_expired now force st) = cache_ st
  \/ cache_ (cleanup_expired now force st) = live now (cache_ st).
Proof.
  unfold cleanup_expired.
  destruct (negb force && negb (should_cleanup now st)); [left; reflexivity|].
  right. rewrite <- (cleanup_loop_live now (cache_ st) (notified st)).
  destruct (cleanup_loop now (cache_ st) (notified st)). reflexivity.
Qed.

Lemma cleanup_expired_config now force st :
  config_ (cleanup_expired now force st) = config_ st.
Proof.
  unfold cleanup_expired.
  destruct (negb force && negb (should_cleanup now st)); [reflexivity|].
  destruct (cleanup_loop now (cache_ st) (notified st)). reflexivity.
Qed.

Lemma live_lookup_persistent now (cache : gmap string CacheEntry) k e :
  cache !! k = Some e -> is_persistent e = true -> live now cache !! k = Some e.
Proof.
  intros Hk Hp. unfold live. apply map_lookup_filter_Some. split; [exact Hk|].
  simpl. apply persistent_not_expired, Hp.
Qed.

Lemma cleanup_expired_persistent now force st k e :
  cache_ st !! k = Some e -> is_persistent e = true ->
  cache_ (cleanup_expired now force st) !! k = Some e.
Proof.
  intros Hk Hp.
  destruct (cleanup_expired_cache now force st) as [-> | ->];
    [exact Hk | apply live_lookup_persistent; assumption].
Qed.

Lemma evict_loop_persistent order budget cache log k e :
  cache !! k = Some e -> is_persistent e = true ->
  fst (evict_loop order budget cache log) !! k = Some e.
Proof.
  revert budget cache log.
  induction order as [|key rest IH]; intros budget cache log Hk Hp.
  - destruct budget; exact Hk.
  - destruct budget as [|b]; [exact Hk|]. simpl.
    destruct (cache !! key) as [e'|] eqn:E; [|apply IH; assumption].
    destruct (is_persistent e') eqn:P; [apply IH; assumption|].
    apply IH; [|exact Hp].
    rewrite lookup_delete_ne; [exact Hk|]. intros ->. congruence.
Qed.

Lemma evict_lru_persistent fl order required st k e :
  cache_ st !! k = Some e -> is_persistent e = true ->
  cache_ (evict_lru fl order required st) !! k = Some e.
Proof.
  intros Hk Hp. unfold evict_lru.
  destruct (bool_decide (cache_ st = ∅)); [exact Hk|].
  match goal with
  | |- context [evict_loop ?o ?b ?c ?l] =>
      pose proof (evict_loop_persistent o b c l k e Hk Hp) as H;
      destruct (evict_loop o b c l)
  end.
  exact H.
Qed.

Lemma evict_lru_config fl order required st :
  config_ (evict_lru fl order required st) = config_ st.
Proof.
  unfold evict_lru.
  destruct (bool_decide (cache_ st = ∅)); [reflexivity|].
  match goal with
  | |- context [evict_loop ?o ?b ?c ?l] => destruct (evict_loop o b c l)
  end.
  reflexivity.
Qed.

Lemma make_room_config fl order now st :
  config_ (make_room fl order now st) = config_ st.
Proof.
  unfold make_room.
  destruct (should_cleanup now st);
    match goal with
    | |- context [if ?b then _ else _] => destruct b
    end;
    rewrite ?evict_lru_config, ?cleanup_expired_config; reflexivity.
Qed.

Lemma make_room_persistent fl order now st k e :
  cache_ st !! k = Some e -> is_persistent e = true ->
  cache_ (make_room fl order now st) !! k = Some e.
Proof.
  intros Hk Hp. unfold make_room.
  assert (H : cache_ (if should_cleanup now st
                      then cleanup_expired now false st else st) !! k = Some e).
  { destruct (should_cleanup now st);
      [apply cleanup_expired_persistent; assumption | exact Hk]. }
  match goal with
  | |- context [if ?b then _ else _] => destruct b
  end; [apply evict_lru_persistent; assumption | exact H].
Qed.

Lemma step_persistent fl st c k e :
  cache_ st !! k = Some e -> is_persistent e = true -> names k c = false ->
  cache_ (step fl st c) !! k = Some e.
Proof.
  intros Hk Hp Hn.
  destruct c as [order now key val ttl | order now key val | now key | now key
                 | key | now key ttl | now key | now | order config]; simpl in *.
  - unfold set. destruct (String.eqb key ""); [exact Hk|]. simpl.
    rewrite lookup_insert_ne by (apply String.eqb_neq, Hn).
    apply make_room_persistent; assumption.
  - unfold set_persistent. destruct (String.eqb key ""); [exact Hk|]. simpl.
    rewrite lookup_insert_ne by (apply String.eqb_neq, Hn).
    apply make_room_persistent; assumption.
  - unfold get, Cache.get. destruct (String.eqb key ""); [exact Hk|].
    destruct (cache_ st !! key) as [e'|] eqn:E; [|exact Hk].
    destruct (is_expired now e') eqn:X; [|exact Hk]. simpl.
    rewrite lookup_delete_ne; [exact Hk|]. intros ->.
    rewrite Hk in E. injection E as <-.
    rewrite (persistent_not_expired now e Hp) in X. discriminate.
  - unfold exists_. destruct (String.eqb key ""); [exact Hk|].
    destruct (cache_ st !! key) as [e'|] eqn:E; [|exact Hk].
    destruct (is_expired now e') eqn:X; [|exact Hk]. simpl.
    rewrite lookup_delete_ne; [exact Hk|]. intros ->.
    rewrite Hk in E. injection E as <-.
    rewrite (persistent_not_expired now e Hp) in X. discriminate.
  - unfold remove. destruct (String.eqb key ""); [exact Hk|].
    destruct (cache_ st !! key) as [e'|] eqn:E; [|exact Hk]. simpl.
    rewrite lookup_delete_ne by (apply String.eqb_neq, Hn). exact Hk.
  - unfold update_ttl.
    destruct (cache_ st !! key) as [e'|] eqn:E; [|exact Hk].
    destruct (is_persistent e') eqn:P; [exact Hk|]. simpl.
    rewrite lookup_insert_ne; [exact Hk|]. intros ->. congruence.
  - exact Hk.
  - apply cleanup_expired_persistent; assumption.
  - unfold set_config.
    match goal with
    | |- context [if ?b then _ else _] => destruct b
    end; [apply evict_lru_persistent; assumption | exact Hk].
Qed.

(** A time to live whose count of nanoseconds, and whose end, fit the 64
    bits of the clock ends at the exact sum. *)
Lemma after_seconds_fits tp ttl :
  fits_int64 (ttl * ticks_per_second) ->
  fits_int64 (tp + ttl * ticks_per_second) ->
  after_seconds tp ttl = tp + ttl * ticks_per_second.
Proof.
  intros H1 H2. unfold after_seconds.
  by rewrite (to_int64_fits _ H1), (to_int64_fits _ H2).
Qed.

(** X18: an entry stored under a non-empty key with a positive time to
    live, whose count of nanoseconds and whose end fit the 64 bits of the
    clock, is returned by every read up to and including the instant [ttl]
    seconds after the store; the first read after that instant returns
    nothing and erases the entry.  This holds whatever cleanup or eviction
    the store itself triggers. *)
Theorem ttl_is_respected (fl : Q -> Q) order now key val ttl st :
  key <> "" -> 0 < ttl ->
  fits_int64 (ttl * ticks_per_second) ->
  fits_int64 (now + ttl * ticks_per_second) ->
  exists st',
    set fl order now key val ttl st = Ok st'
    /\ (forall now', now' <= now + ttl * ticks_per_second ->
          get now' key st' = (Some val, st'))
    /\ (forall now', now + ttl * ticks_per_second < now' ->
          fst (get now' key st') = None
          /\ cache_ (snd (get now' key st')) !! key = None).
Proof.
  intros Hkey Httl Hfit1 Hfit2.
  apply String.eqb_neq in Hkey.
  unfold set. rewrite Hkey.
  assert (T : (0 <? ttl) = true) by (apply Z.ltb_lt; exact Httl).
  rewrite T. eexists. split; [reflexivity|].
  split; intros now' Hnow'; unfold get, Cache.get; rewrite Hkey; simpl;
    rewrite lookup_insert_eq; unfold is_expired, new_CacheEntry; simpl;
    rewrite T, (after_seconds_fits _ _ Hfit1 Hfit2).
  - assert (E : (now + ttl * ticks_per_second <? now') = false)
      by (apply Z.ltb_ge; exact Hnow').
    rewrite E. simpl. unfold with_cache. simpl. reflexivity.
  - assert (E : (now + ttl * ticks_per_second <? now') = true)
      by (apply Z.ltb_lt; exact Hnow').
    rewrite E. simpl. split; [reflexivity | apply lookup_delete_eq].
Qed.

(** X18 at an entry stored for 60 seconds in a new cache. *)
Lemma ttl_is_respected_witness :
  exists st',
    set (fun q => q) [] 0 "a" (JInt 1) 60
        (new_CacheManager 0 Samples.default_config) = Ok st'
    /\ (forall now', now' <= 0 + 60 * ticks_per_second ->
          get now' "a" st' = (Some (JInt 1), st'))
    /\ (forall now', 0 + 60 * ticks_per_second < now' ->
          fst (get now' "a" st') = None
          /\ cache_ (snd (get now' "a" st')) !! "a" = None).
Proof.
  apply (ttl_is_respected (fun q => q) [] 0 "a" (JInt 1) 60
           (new_CacheManager 0 Samples.default_config)).
  - discriminate.
  - lia.
  - unfold fits_int64, INT64_MIN, INT64_MAX, ticks_per_second. lia.
  - unfold fits_int64, INT64_MIN, INT64_MAX, ticks_per_second. lia.
Defined.

(** X19: a persistent entry stays in the cache, unchanged, through any
    sequence of calls of [set], [set_persistent], [get], [exists],
    [remove], [update_ttl], [get_ttl], [force_cleanup] and [set_config]
    in which no [set], [set_persistent] or [remove] names its key: no
    cleanup, eviction or read at any instant removes it, and [update_ttl]
    on its own key does not change it. *)
Theorem persistent_entries_survive (fl : Q -> Q) calls st key e :
  cache_ st !! key = Some e -> is_persistent e = true ->
  forallb (fun c => negb (names key c)) calls = true ->
  cache_ (run fl st calls) !! key = Some e.
Proof.
  revert st. unfold run.
  induction calls as [|c calls IH]; intros st Hk Hp Hn; [exact Hk|].
  simpl in Hn. apply andb_true_iff in Hn as [Hc Hn].
  simpl. apply IH; [|exact Hp|exact Hn].
  apply step_persistent; [exact Hk|exact Hp|].
  destruct (names key c); [discriminate|reflexivity].
Qed.

(** X19 at a cache with one persistent entry, through a cleanup, an
    [update_ttl] of its key and a read, long after any expiry. *)
Lemma persistent_entries_survive_witness :
  cache_ (run (fun q => q)
            (with_cache (<["p" := new_CacheEntry 0 JNull 0 true]> ∅)
                        (new_CacheManager 0 Samples.default_config))
            [ForceCleanup (2 ^ 63); UpdateTtl 5 "p" 1; Get (2 ^ 63) "p"])
    !! "p"
  = Some (new_CacheEntry 0 JNull 0 true).
Proof.
  apply (persistent_entries_survive (fun q => q)
           [ForceCleanup (2 ^ 63); UpdateTtl 5 "p" 1; Get (2 ^ 63) "p"]).
  - reflexivity.
  - reflexivity.
  - reflexivity.
Defined.

(** X20: a forced cleanup leaves exactly the entries that are not expired
    at that instant: every expired entry is erased and no other entry is
    touched. *)
Theorem force_cleanup_keeps_the_live now st :
  cache_ (force_cleanup now st) = live now (cache_ st).
Proof.
  unfold force_cleanup, cleanup_expired. simpl.
  rewrite <- (cleanup_loop_live now (cache_ st) (notified st)).
  destruct (cleanup_loop now (cache_ st) (notified st)). reflexivity.
Qed.

Lemma live_all_persistent now (cache : gmap string CacheEntry) :
  (forall k e, cache !! k = Some e -> is_persistent e = true) ->
  live now cache = cache.
Proof.
  intros H. apply map_eq. intros k. unfold live.
  rewrite map_lookup_filter.
  destruct (cache !! k) as [e|] eqn:E; simpl; [|reflexivity].
  rewrite option_guard_True; [reflexivity|].
  simpl. apply persistent_not_expired. eapply H, E.
Qed.

Lemma evict_loop_all_persistent order budget (cache : gmap string CacheEntry) log :
  (forall k e, cache !! k = Some e -> is_persistent e = true) ->
  evict_loop order budget cache log = (cache, log).
Proof.
  intros H. revert budget.
  induction order as [|key rest IH]; intros budget;
    [destruct budget; reflexivity|].
  destruct budget as [|b]; [reflexivity|]. simpl.
  destruct (cache !! key) as [e|] eqn:E; [|apply IH].
  rewrite (H key e E). apply IH.
Qed.

Lemma make_room_all_persistent fl order now st :
  (forall k e, cache_ st !! k = Some e -> is_persistent e = true) ->
  cache_ (make_room fl order now st) = cache_ st.
Proof.
  intros H. unfold make_room.
  assert (C : cache_ (if should_cleanup now st
                      then cleanup_expired now false st else st) = cache_ st).
  { destruct (should_cleanup now st); [|reflexivity].
    destruct (cleanup_expired_cache now false st) as [-> | ->];
      [reflexivity | apply live_all_persistent, H]. }
  match goal with
  | |- context [if ?b then evict_lru _ _ _ ?s else _] =>
      destruct b; [|exact C]; generalize dependent s
  end.
  intros s C. unfold evict_lru.
  destruct (bool_decide (cache_ s = ∅)); [exact C|].
  rewrite evict_loop_all_persistent by (rewrite C; exact H).
  simpl. exact C.
Qed.

(** X21: the limit on the number of entries is not enforced against
    persistent entries: when every entry of the cache is persistent, a
    [set] under a new, non-empty key evicts nothing and the cache grows by
    one, whatever [max_entries] is. *)
Theorem persistent_cache_outgrows_limit (fl : Q -> Q) order now key val ttl st :
  key <> "" ->
  (forall k e, cache_ st !! k = Some e -> is_persistent e = true) ->
  cache_ st !! key = None ->
  exists st' entry,
    set fl order now key val ttl st = Ok st'
    /\ cache_ st' = <[key := entry]> (cache_ st)
    /\ value entry = val
    /\ size (cache_ st') = S (size (cache_ st)).
Proof.
  intros Hkey Hall Hnew. apply String.eqb_neq in Hkey.
  unfold set. rewrite Hkey.
  eexists. eexists. split; [reflexivity|].
  simpl. rewrite make_room_all_persistent by exact Hall.
  split; [reflexivity|]. split; [reflexivity|].
  apply map_size_insert_None, Hnew.
Qed.

(** X21 at a cache of one persistent entry whose limit is one entry. *)
Lemma persistent_cache_outgrows_limit_witness :
  exists st' entry,
    set (fun q => q) ["p"] 0 "a" (JInt 1) 60
        {| cache_ := cache_ pinned;
           config_ := {| max_entries := 1; default_ttl := 3600;
                         cleanup_interval := 300; enable_persistence := false;
                         enable_compression := false;
                         cleanup_threshold := 8 # 10 |};
           last_cleanup_ := 0; notified := [] |} = Ok st'
    /\ cache_ st' = <["a" := entry]> (cache_ pinned)
    /\ value entry = JInt 1
    /\ size (cache_ st') = S (size (cache_ pinned)).
Proof.
  apply (persistent_cache_outgrows_limit (fun q => q) ["p"] 0 "a" (JInt 1) 60
           {| cache_ := cache_ pinned;
              config_ := {| max_entries := 1; default_ttl := 3600;
                            cleanup_interval := 300; enable_persistence := false;
                            enable_compression := false;
                            cleanup_threshold := 8 # 10 |};
              last_cleanup_ := 0; notified := [] |}).
  - discriminate.
  - intros k e H. simpl in H.
    apply lookup_insert_Some in H as [[_ <-] | [_ H]];
      [reflexivity | rewrite lookup_empty in H; discriminate].
  - reflexivity.
Defined.




Lemma whole_seconds_back tp :
  on_whole_seconds tp ->
  time_point_of_seconds (to_int (seconds_since_epoch tp)) = tp.
Proof.
  intros (s & Hs & ->).
  unfold seconds_since_epoch, time_point_of_seconds, ticks_per_second.
  rewrite Z.quot_mul by lia. rewrite to_int_fits by exact Hs. reflexivity.
Qed.

(** X23: when no key is empty and every creation and expiry instant is a
    whole number of seconds that fits an [int], exporting a cache and
    importing the result into an empty cache gives back exactly the
    entries that were not expired at the export. *)
Theorem round_trip_exact now config (cache : gmap string CacheEntry) :
  (forall key e, cache !! key = Some e ->
     key <> "" /\ on_whole_seconds (created_at e)
     /\ on_whole_seconds (expires_at e)) ->
  Samples.round_trip now config cache = live now cache.
Proof.
  intros H. apply map_eq. intros key.
  rewrite round_trip_lookup. unfold live. rewrite map_lookup_filter.
  destruct (cache !! key) as [e|] eqn:E; simpl.
  - destruct (H key e E) as (Hk & Hc & Hx).
    apply String.eqb_neq in Hk. rewrite Hk.
    destruct (is_expired now e) eqn:X.
    + rewrite option_guard_False; [reflexivity | simpl; discriminate].
    + rewrite option_guard_True by (simpl; reflexivity).
      simpl. f_equal. unfold Samples.reimported.
      rewrite (whole_seconds_back _ Hc), (whole_seconds_back _ Hx).
      destruct e; reflexivity.
  - destruct (String.eqb key ""); reflexivity.
Qed.

(** X23 at a cache of one entry, created at the epoch for 60 seconds. *)
Lemma round_trip_exact_witness :
  Samples.round_trip 5 Samples.default_config
    (<["a" := new_CacheEntry 0 (JInt 1) 60 false]> ∅)
  = live 5 (<["a" := new_CacheEntry 0 (JInt 1) 60 false]> ∅).
Proof.
  apply (round_trip_exact 5 Samples.default_config
           (<["a" := new_CacheEntry 0 (JInt 1) 60 false]> ∅)).
  intros key e H.
  apply lookup_insert_Some in H as [[<- <-] | [_ H]];
    [|rewrite lookup_empty in H; discriminate].
  split; [discriminate|]. split.
  - exists 0. split; [unfold fits_int, INT_MIN, INT_MAX; lia | reflexivity].
  - exists 60. split; [unfold fits_int, INT_MIN, INT_MAX; lia | reflexivity].
Defined.

(** X24: after [update_ttl] with a positive time to live, whose count of
    nanoseconds and whose end fit the 64 bits of the clock, on an entry
    that is not persistent, [get_ttl] at the same instant answers that time
    to live, and a number of whole seconds later it answers what is left
    of it. *)
Theorem update_ttl_then_get_ttl now key ttl st e elapsed :
  cache_ st !! key = Some e -> is_persistent e = false ->
  0 < ttl -> 0 <= elapsed <= ttl ->
  fits_int64 (ttl * ticks_per_second) ->
  fits_int64 (now + ttl * ticks_per_second) ->
  get_ttl (now + elapsed * ticks_per_second) key (update_ttl now key ttl st)
  = ttl - elapsed.
Proof.
  intros Hk P Httl He Hfit1 Hfit2. unfold update_ttl. rewrite Hk, P.
  unfold get_ttl. simpl.
  rewrite lookup_insert_eq. unfold is_expired. simpl. rewrite ?P. simpl.
  assert (T : (0 <? ttl) = true) by (apply Z.ltb_lt; exact Httl).
  rewrite T, (after_seconds_fits _ _ Hfit1 Hfit2). unfold ticks_per_second.
  assert (E1 : (now + ttl * 1000000000 <? now + elapsed * 1000000000) = false)
    by (apply Z.ltb_ge; lia).
  rewrite E1.
  destruct (Z.leb_spec (now + ttl * 1000000000) (now + elapsed * 1000000000)).
  - lia.
  - replace (now + ttl * 1000000000 - (now + elapsed * 1000000000))
      with ((ttl - elapsed) * 1000000000) by lia.
    rewrite to_int64_fits.
    + apply Z.quot_mul. lia.
    + unfold fits_int64, INT64_MIN, INT64_MAX, ticks_per_second in *. nia.
Qed.

(** X24 at an entry whose time to live is set to 30 seconds, read 10
    seconds later. *)
Lemma update_ttl_then_get_ttl_witness :
  get_ttl (7 + 10 * ticks_per_second) "a"
    (update_ttl 7 "a" 30
       (with_cache (<["a" := new_CacheEntry 0 (JInt 1) 60 false]> ∅)
                   (new_CacheManager 0 Samples.default_config)))
  = 30 - 10.
Proof.
  apply (update_ttl_then_get_ttl 7 "a" 30
           (with_cache (<["a" := new_CacheEntry 0 (JInt 1) 60 false]> ∅)
                       (new_CacheManager 0 Samples.default_config))
           (new_CacheEntry 0 (JInt 1) 60 false) 10).
  - reflexivity.
  - reflexivity.
  - lia.
  - lia.
  - unfold fits_int64, INT64_MIN, INT64_MAX, ticks_per_second. lia.
  - unfold fits_int64, INT64_MIN, INT64_MAX, ticks_per_second. lia.
Defined.

End CacheFacts.

(** ** Filters, collectors and the rate-limiting middleware *)

Section FilterFacts.
Import Events EventFilters.

(** X25: the filter combinators obey De Morgan's laws on every event,
    empty filters included, and [emit_filtered] delivers an event exactly
    when [and_filter] of its filters holds on it; otherwise it leaves the
    dispatcher as it was. *)
Theorem filters_de_morgan filters event_name event d :
  holds (not_filter (and_filter filters)) event
  = holds (or_filter (map not_filter filters)) event
  /\ holds (not_filter (or_filter filters)) event
     = holds (and_filter (map not_filter filters)) event
  /\ emit_filtered event_name event filters d
     = if holds (and_filter filters) event
       then emit event_name event d else ([], d).
Proof.
  split; [|split; [|reflexivity]]; simpl.
  - induction filters as [|f fs IH]; [reflexivity|].
    simpl. rewrite <- IH. rewrite negb_andb, negb_involutive. reflexivity.
  - induction filters as [|f fs IH]; [reflexivity|].
    simpl. rewrite <- IH. rewrite negb_orb.
    destruct f as [p|]; simpl; [|reflexivity].
    rewrite negb_involutive. reflexivity.
Qed.

End FilterFacts.

Section CollectorFacts.
Import Collector MoreSamples.

Lemma callback_inactive c events :
  is_active_ c = false -> foldl callback c events = c.
Proof.
  intros H. induction events as [|ev events IH]; [reflexivity|].
  simpl. unfold callback at 2. rewrite H. simpl. exact IH.
Qed.

Lemma callback_run events : forall c,
  is_active_ c = true ->
  0 < max_matches (config_ c) <= INT_MAX ->
  (length (collected_items_ c) < Z.to_nat (max_matches (config_ c)))%nat ->
  let c' := foldl callback c events in
  let hits := filter (fun ev => accepted (filter_ c) ev = true) events in
  collected_items_ c'
  = collected_items_ c
    ++ take (Z.to_nat (max_matches (config_ c)) - length (collected_items_ c))
            hits
  /\ is_active_ c'
     = negb (Z.to_nat (max_matches (config_ c)) - length (collected_items_ c)
             <=? length hits)%nat.
Proof.
  induction events as [|ev events IH]; intros c Ha Hm Hl; cbn [foldl].
  - rewrite filter_nil, take_nil, app_nil_r. split; [reflexivity|].
    rewrite Ha. symmetry. apply negb_true_iff, Nat.leb_gt. simpl. lia.
  - assert (Hsz : to_size_t (max_matches (config_ c)) = max_matches (config_ c)).
    { unfold to_size_t. apply Z.mod_small. unfold INT_MAX in Hm. lia. }
    assert (Hpos : (0 <? max_matches (config_ c)) = true)
      by (apply Z.ltb_lt; lia).
    assert (Hcollect :
      accepted (filter_ c) ev = true ->
      callback c ev
      = if should_stop_collecting (push_back ev c)
        then stop (push_back ev c) else push_back ev c).
    { unfold accepted, callback. rewrite Ha. simpl.
      destruct (filter_ c) as [f|]; [|reflexivity].
      destruct (f ev) as [[|]|]; [reflexivity|discriminate|discriminate]. }
    assert (Hskip : accepted (filter_ c) ev = false -> callback c ev = c).
    { unfold accepted, callback. rewrite Ha. simpl.
      destruct (filter_ c) as [f|]; [|discriminate].
      destruct (f ev) as [[|]|]; [discriminate|reflexivity|reflexivity]. }
    rewrite filter_cons.
    destruct (decide (accepted (filter_ c) ev = true)) as [Hacc|Hacc].
    + rewrite (Hcollect Hacc).
      unfold should_stop_collecting. simpl. rewrite Hpos, Hsz. simpl.
      rewrite length_app. simpl.
      destruct (Z.leb_spec (max_matches (config_ c))
                  (Z.of_nat (length (collected_items_ c) + 1))) as [Hfull|Hroom].
      * rewrite callback_inactive
          by (unfold stop; simpl; rewrite Ha; reflexivity).
        unfold stop. simpl. rewrite Ha. simpl.
        replace (Z.to_nat (max_matches (config_ c))
                 - length (collected_items_ c))%nat with 1%nat by lia.
        simpl. rewrite take_0. split; [reflexivity|reflexivity].
      * destruct (IH (push_back ev c)) as [IH1 IH2];
          [exact Ha | exact Hm | simpl; rewrite length_app; simpl; lia |].
        simpl in IH1, IH2. rewrite length_app in IH1, IH2. simpl in IH1, IH2.
        rewrite IH1, IH2.
        replace (Z.to_nat (max_matches (config_ c))
                 - length (collected_items_ c))%nat
          with (S (Z.to_nat (max_matches (config_ c))
                   - (length (collected_items_ c) + 1)))%nat by lia.
        simpl. rewrite <- app_assoc. split; reflexivity.
    + apply not_true_is_false in Hacc. rewrite (Hskip Hacc).
      apply IH; assumption.
Qed.

(** X26: a collector that was started with a positive [max_matches]
    holds, after any sequence of events delivered to its callback, the
    first [max_matches] of the events its filter lets through, in order,
    and is active exactly as long as fewer than that were let through.  An
    event on which the filter throws is not collected. *)
Theorem collector_keeps_first_matches now flt config events :
  0 < max_matches config <= INT_MAX ->
  let c := foldl callback (start now (new_EventCollector flt config)) events in
  let hits := List.filter (accepted flt) events in
  collected_items_ c = take (Z.to_nat (max_matches config)) hits
  /\ is_active_ c = negb (Z.to_nat (max_matches config) <=? length hits)%nat.
Proof.
  intros Hm.
  destruct (callback_run events (start now (new_EventCollector flt config)))
    as [H1 H2]; [reflexivity | exact Hm | simpl; lia |].
  simpl in H1, H2. rewrite Nat.sub_0_r in H1, H2.
  assert (E : filter (fun ev => accepted flt ev = true) events
              = List.filter (accepted flt) events).
  { clear. induction events as [|ev events IH]; [reflexivity|].
    rewrite filter_cons. simpl.
    destruct (accepted flt ev) eqn:A.
    - rewrite decide_True by reflexivity. f_equal. exact IH.
    - rewrite decide_False by discriminate. exact IH. }
  rewrite E in H1, H2. split; assumption.
Qed.

(** X26 at the default configuration, one match, and two events. *)
Lemma collector_keeps_first_matches_witness :
  let c := foldl callback
             (start 0 (new_EventCollector None
                         {| timeout := 30000; max_matches := 1;
                            dispose_on_timeout := true |}))
             [JInt 1; JInt 2] in
  let hits := List.filter (accepted None) [JInt 1; JInt 2] in
  collected_items_ c = take (Z.to_nat 1) hits
  /\ is_active_ c = negb (Z.to_nat 1 <=? length hits)%nat.
Proof.
  apply (collector_keeps_first_matches 0 None
           {| timeout := 30000; max_matches := 1; dispose_on_timeout := true |}
           [JInt 1; JInt 2]).
  unfold INT_MAX. simpl. lia.
Defined.

End CollectorFacts.

Section MiddlewareFacts.
Import EventMiddleware.

(** X27: within one window the rate-limiting middleware passes at most
    what is left of [max_events_per_window_]: of the events of one name
    that arrive before the window ends, the first ones are passed until
    the count reaches the maximum, and the rest are blocked.  The window
    size in nanoseconds, and the time since the window began, are taken to
    fit the 64 bits of the clock. *)
Theorem window_passes_at_most_max event_name nows rl count began :
  counters_ rl !! event_name = Some (count, began) ->
  0 <= count <= max_events_per_window_ rl ->
  fits_int64 (window_size_ rl * ticks_per_ms) ->
  Forall (fun now => fits_int64 (now - began)
                     /\ now - began < window_size_ rl * ticks_per_ms) nows ->
  fst (passed event_name nows rl)
  = Z.min (Z.of_nat (length nows)) (max_events_per_window_ rl - count).
Proof.
  revert rl count.
  induction nows as [|now nows IH]; intros rl count Hc Hr Hfit Hw.
  - simpl. lia.
  - apply Forall_cons in Hw as [[Hnowfit Hnow] Hw].
    cbn [passed]. unfold process. rewrite Hc. simpl.
    rewrite (to_int64_fits _ Hfit), (to_int64_fits _ Hnowfit).
    assert (E : (window_size_ rl * ticks_per_ms <=? now - began) = false)
      by (apply Z.leb_gt; exact Hnow).
    rewrite E. simpl.
    destruct (Z.leb_spec (max_events_per_window_ rl) count) as [Hfull|Hroom].
    + match goal with
      | |- context [passed event_name nows ?r] =>
          pose proof (IH r count) as IH'; destruct (passed event_name nows r)
      end.
      simpl in *.
      rewrite IH'; [lia | apply lookup_insert_eq | lia | exact Hfit | exact Hw].
    + match goal with
      | |- context [passed event_name nows ?r] =>
          pose proof (IH r (count + 1)) as IH';
          destruct (passed event_name nows r)
      end.
      simpl in *.
      rewrite IH'; [lia | apply lookup_insert_eq | lia | exact Hfit | exact Hw].
Qed.

(** X27 at a limit of two events per second and three events within 400 ms. *)
Lemma window_passes_at_most_max_witness :
  fst (passed "MESSAGE_CREATE" [1000000000; 1200000000; 1400000000]
         {| max_events_per_window_ := 2; window_size_ := 1000;
            counters_ := <["MESSAGE_CREATE" := (0, 1000000000)]> ∅ |})
  = Z.min (Z.of_nat (length [1000000000; 1200000000; 1400000000])) (2 - 0).
Proof.
  apply (window_passes_at_most_max "MESSAGE_CREATE"
           [1000000000; 1200000000; 1400000000]
           {| max_events_per_window_ := 2; window_size_ := 1000;
              counters_ := <["MESSAGE_CREATE" := (0, 1000000000)]> ∅ |}
           0 1000000000).
  - reflexivity.
  - simpl. lia.
  - unfold fits_int64, INT64_MIN, INT64_MAX, ticks_per_ms. simpl. lia.
  - unfold fits_int64, INT64_MIN, INT64_MAX, ticks_per_ms. simpl.
    repeat constructor; lia.
Defined.

End MiddlewareFacts.

(** ** Registration, removal and one-shot handlers *)

Section HandlerFacts.
Import Events MoreSamples.

Lemma before_runs_before a b : before a b = true -> runs_before a b.
Proof.
  unfold before, runs_before.
  destruct (Z.eqb_spec (priority a) (priority b)); simpl; intros H.
  - right. apply Z.ltb_lt in H. lia.
  - left. apply Z.ltb_lt in H. exact H.
Qed.

Lemma not_before_runs_before a b : before a b = false -> runs_before b a.
Proof.
  unfold before, runs_before.
  destruct (Z.eqb_spec (priority a) (priority b)); simpl; intros H.
  - right. apply Z.ltb_ge in H. lia.
  - left. apply Z.ltb_ge in H. lia.
Qed.

Lemma runs_before_trans a b c :
  runs_before a b -> runs_before b c -> runs_before a c.
Proof. unfold runs_before. lia. Qed.

Lemma insert_sorted_perm h v : insert_sorted h v ≡ₚ h :: v.
Proof.
  induction v as [|x rest IH]; simpl; [reflexivity|].
  destruct (before h x); [reflexivity|].
  rewrite IH. apply Permutation_swap.
Qed.

Lemma insert_sorted_sorted h v :
  StronglySorted runs_before v -> StronglySorted runs_before (insert_sorted h v).
Proof.
  induction v as [|x rest IH]; simpl; intros Hs.
  - repeat constructor.
  - apply StronglySorted_inv in Hs as [Hs Hx].
    destruct (before h x) eqn:B.
    + constructor; [constructor; assumption|].
      apply before_runs_before in B.
      constructor; [exact B|].
      eapply Forall_impl; [exact Hx|].
      intros y Hy. simpl. eapply runs_before_trans; eassumption.
    + constructor; [apply IH, Hs|].
      rewrite insert_sorted_perm.
      constructor; [apply not_before_runs_before, B | exact Hx].
Qed.

Lemma sort_handlers_perm v : sort_handlers v ≡ₚ v.
Proof.
  unfold sort_handlers. induction v as [|x rest IH]; simpl; [reflexivity|].
  rewrite insert_sorted_perm, IH. reflexivity.
Qed.

Lemma sort_handlers_sorted v : StronglySorted runs_before (sort_handlers v).
Proof.
  unfold sort_handlers. induction v as [|x rest IH]; simpl.
  - constructor.
  - apply insert_sorted_sorted, IH.
Qed.

Lemma call_handlers_called event_data handlers :
  fst (fst (call_handlers event_data handlers)) = callables handlers.
Proof.
  unfold callables.
  induction handlers as [|h rest IH]; [reflexivity|].
  simpl. destruct (call_handlers event_data rest) as [[called executed] tr].
  simpl in IH. destruct (callback h) as [cb|]; simpl; [|exact IH].
  destruct (throws cb event_data); simpl; by rewrite IH.
Qed.

Lemma emit_calls event_name event_data d :
  fst (emit event_name event_data d)
  = if chain_passes event_name event_data (middleware_ d)
    then callables (get_handlers event_name d) else [].
Proof.
  unfold emit. simpl.
  destruct (chain_passes event_name event_data (middleware_ d)); [|reflexivity].
  unfold deliver, get_handlers. simpl.
  destruct (handlers_ d !! event_name) as [hs|]; [|reflexivity].
  pose proof (call_handlers_called event_data hs) as H.
  destruct (call_handlers event_data hs) as [[called executed] tr].
  exact H.
Qed.

(** X28: after every registration the handlers of the event are the ones
    it had and the new one, ordered by descending priority and, among
    equal priorities, by the instant of registration; an [emit] that the
    middleware lets through calls them in that order, and calls none when
    a middleware blocks the event. *)
Theorem handlers_run_by_priority now event_name cb prio handler_id is_once d
    event_data :
  let d' := snd (on now event_name cb prio handler_id is_once d) in
  let hs := get_handlers event_name d' in
  (exists info,
      callback info = Some cb /\ priority info = prio
      /\ id info = fst (on now event_name cb prio handler_id is_once d)
      /\ once info = is_once /\ created_at info = now
      /\ hs ≡ₚ get_handlers event_name d ++ [info])
  /\ StronglySorted runs_before hs
  /\ fst (emit event_name event_data d')
     = if chain_passes event_name event_data (middleware_ d)
       then callables hs else [].
Proof.
  intros d' hs.
  assert (E : hs = sort_handlers
                     (get_handlers event_name d
                      ++ [{| callback := Some cb; priority := prio;
                             id := fst (on now event_name cb prio handler_id
                                           is_once d);
                             once := is_once; created_at := now |}])).
  { subst hs d'. unfold get_handlers, on. simpl.
    rewrite lookup_insert_eq. reflexivity. }
  split; [|split].
  - exists {| callback := Some cb; priority := prio;
              id := fst (on now event_name cb prio handler_id is_once d);
              once := is_once; created_at := now |}.
    do 5 (split; [reflexivity|]).
    rewrite E. apply sort_handlers_perm.
  - rewrite E. apply sort_handlers_sorted.
  - rewrite emit_calls. reflexivity.
Qed.

Lemma find_if_split pred v :
  (find_if pred v = length v /\ List.filter (fun x => negb (pred x)) v = v)
  \/ (exists x,
        (find_if pred v < length v)%nat
        /\ v !! find_if pred v = Some x /\ pred x = true
        /\ List.filter (fun x => negb (pred x)) (take (find_if pred v) v)
           = take (find_if pred v) v).
Proof.
  induction v as [|y rest IH]; simpl; [left; split; reflexivity|].
  destruct (pred y) eqn:P; simpl.
  - right. exists y. repeat split; [lia|exact P].
  - destruct IH as [[H1 H2] | (x & H1 & H2 & H3 & H4)].
    + left. rewrite H1, H2. split; reflexivity.
    + right. exists x. simpl. rewrite P. simpl. rewrite H4.
      repeat split; [lia | exact H2 | exact H3].
Qed.

Lemma remove_if_loop_spec pred fuel : forall v result first,
  (result < first)%nat -> (first <= length v)%nat ->
  (length v - first <= fuel)%nat ->
  take (snd (remove_if_loop pred fuel v result first))
       (fst (remove_if_loop pred fuel v result first))
  = take result v ++ List.filter (fun x => negb (pred x)) (drop first v)
  /\ snd (remove_if_loop pred fuel v result first)
     = (result + length (List.filter (fun x => negb (pred x)) (drop first v)))%nat.
Proof.
  induction fuel as [|fuel IH]; intros v result first Hrf Hfl Hfuel.
  - simpl. rewrite drop_ge by lia. simpl. rewrite app_nil_r. split; [reflexivity|lia].
  - simpl. destruct (v !! first) as [x|] eqn:E.
    + rewrite (drop_S v x first E). simpl.
      apply lookup_lt_Some in E as Hlt.
      destruct (pred x) eqn:P; simpl.
      * apply IH; lia.
      * destruct (IH (<[first := moved_from x]> (<[result := x]> v))
                     (S result) (S first)) as [IH1 IH2];
          [lia | rewrite !length_insert; lia | rewrite !length_insert; lia |].
        rewrite IH1, IH2.
        rewrite !drop_insert_lt by lia.
        rewrite take_insert_ge by lia.
        rewrite (take_S_r _ _ x)
          by (apply list_lookup_insert_eq; lia).
        rewrite take_insert_ge by lia.
        rewrite <- app_assoc. simpl. split; [reflexivity|lia].
    + apply lookup_ge_None in E. rewrite drop_ge by lia. simpl.
      rewrite app_nil_r. split; [reflexivity|lia].
Qed.

(** What [std::remove_if] returns: the elements to keep, in order, before
    the returned position, in a vector of the same size. *)
Lemma remove_if_spec pred v :
  take (snd (remove_if pred v)) (fst (remove_if pred v))
  = List.filter (fun x => negb (pred x)) v
  /\ snd (remove_if pred v)
     = length (List.filter (fun x => negb (pred x)) v).
Proof.
  unfold remove_if.
  destruct (find_if_split pred v) as [[H1 H2] | (x & H1 & H2 & H3 & H4)].
  - rewrite H1, Nat.eqb_refl. simpl. rewrite H2, firstn_all. split; reflexivity.
  - destruct (Nat.eqb_spec (find_if pred v) (length v)); [lia|].
    destruct (remove_if_loop_spec pred (length v) v (find_if pred v)
                (S (find_if pred v))) as [L1 L2]; [lia|lia|lia|].
    rewrite L1, L2.
    assert (F : List.filter (fun x => negb (pred x)) v
                = take (find_if pred v) v
                  ++ List.filter (fun x => negb (pred x))
                       (drop (S (find_if pred v)) v)).
    { rewrite <- (take_drop_middle v (find_if pred v) x H2) at 1.
      rewrite List.filter_app. simpl. rewrite H3. simpl. rewrite H4.
      reflexivity. }
    rewrite F, length_app, length_take. split; [reflexivity|lia].
Qed.

Lemma filter_length_le {A} (p : A -> bool) l :
  (length (List.filter p l) <= length l)%nat.
Proof. induction l as [|x l IH]; simpl; [lia|]. destruct (p x); simpl; lia. Qed.

Lemma filter_length_all {A} (p : A -> bool) l :
  length (List.filter (fun x => negb (p x)) l) = length l <->
  existsb p l = false.
Proof.
  induction l as [|x l IH]; simpl; [tauto|].
  pose proof (filter_length_le (fun x => negb (p x)) l).
  destruct (p x); simpl; [split; [lia|discriminate]|].
  rewrite <- IH. lia.
Qed.

(** X29: [off] answers true exactly when a handler with the given id is
    registered for the event.  It never shrinks a handler list: every
    event keeps as many entries as it had, the handlers with other ids
    come first, in their order, and whatever follows them stays in the
    table. *)
Theorem off_reports_and_keeps event_name handler_id d :
  let hs := get_handlers event_name d in
  let d' := snd (off event_name handler_id d) in
  let kept := List.filter (fun h => negb (String.eqb (id h) handler_id)) hs in
  fst (off event_name handler_id d)
  = existsb (fun h => String.eqb (id h) handler_id) hs
  /\ take (length kept) (get_handlers event_name d') = kept
  /\ (forall e, length (get_handlers e d') = length (get_handlers e d)).
Proof.
  intros hs d' kept.
  split; [|split]; [| |intros e; apply off_keeps_count].
  - subst hs. unfold off, get_handlers.
    destruct (handlers_ d !! event_name) as [handlers|]; [|reflexivity].
    simpl.
    pose proof (remove_if_spec
                  (fun info => String.eqb (id info) handler_id) handlers)
      as [_ Hpos].
    pose proof (remove_if_length
                  (fun info => String.eqb (id info) handler_id) handlers)
      as Hlen.
    destruct (remove_if _ handlers) as [handlers' pos]. simpl in *.
    rewrite Hlen, Hpos.
    destruct (existsb (fun h => String.eqb (id h) handler_id) handlers) eqn:X.
    + apply negb_true_iff, Nat.eqb_neq. intros Heq.
      apply filter_length_all in Heq. congruence.
    + apply negb_false_iff, Nat.eqb_eq.
      apply filter_length_all. exact X.
  - subst kept hs d'. unfold off, get_handlers.
    destruct (handlers_ d !! event_name) as [handlers|] eqn:E; simpl.
    + pose proof (remove_if_spec
                    (fun info => String.eqb (id info) handler_id) handlers)
        as [Htake Hpos].
      destruct (remove_if _ handlers) as [handlers' pos]. simpl in *.
      rewrite lookup_insert_eq. simpl. rewrite <- Hpos. exact Htake.
    + rewrite E. reflexivity.
Qed.

Lemma call_handlers_to_remove event_data handlers :
  snd (call_handlers event_data handlers)
  = List.filter (fired event_data) handlers.
Proof.
  induction handlers as [|h rest IH]; [reflexivity|].
  simpl. destruct (call_handlers event_data rest) as [[called executed] tr].
  simpl in IH. unfold fired at 1.
  destruct (callback h) as [cb|]; simpl; [|exact IH].
  destruct (throws cb event_data); simpl; [exact IH|].
  destruct (once h); simpl; by rewrite IH.
Qed.

Lemma filter_id_singleton (v : list EventHandlerInfo) rid :
  List.NoDup (map id v) -> In rid (map id v) ->
  length (List.filter (fun h => String.eqb (id h) rid) v) = 1%nat.
Proof.
  induction v as [|x rest IH]; simpl; intros Hnd Hin; [contradiction|].
  apply List.NoDup_cons_iff in Hnd as [Hx Hnd].
  destruct (String.eqb_spec (id x) rid) as [Heq|Hne]; simpl.
  - f_equal. apply length_zero_iff_nil.
    assert (F : forall l, ~ In rid (map id l) ->
                List.filter (fun h => String.eqb (id h) rid) l = []).
    { induction l as [|y l IHl]; simpl; intros Hn; [reflexivity|].
      destruct (String.eqb_spec (id y) rid); [tauto|]. apply IHl. tauto. }
    apply F. intros Hr. apply Hx. rewrite Heq. exact Hr.
  - apply IH; [exact Hnd|]. destruct Hin; [contradiction|assumption].
Qed.

Lemma filter_split_length {A} (p : A -> bool) l :
  (length (List.filter p l) + length (List.filter (fun x => negb (p x)) l)
   = length l)%nat.
Proof. induction l as [|x l IH]; simpl; [lia|]. destruct (p x); simpl; lia. Qed.

(** With exactly one handler of the id, the removal in [emit] leaves the
    other handlers and nothing else. *)
Lemma remove_one (v : list EventHandlerInfo) rid :
  List.NoDup (map id v) -> In rid (map id v) ->
  (let '(v', pos) := remove_if (fun info => String.eqb (id info) rid) v in
   erase_at v' pos)
  = List.filter (fun h => negb (String.eqb (id h) rid)) v.
Proof.
  intros Hnd Hin.
  pose proof (remove_if_spec (fun info => String.eqb (id info) rid) v)
    as [Htake Hpos].
  pose proof (remove_if_length (fun info => String.eqb (id info) rid) v) as Hlen.
  pose proof (filter_id_singleton v rid Hnd Hin) as H1.
  pose proof (filter_split_length (fun h => String.eqb (id h) rid) v) as Hsum.
  destruct (remove_if _ v) as [v' pos]. simpl in *.
  unfold erase_at. rewrite Htake, drop_ge by lia. apply app_nil_r.
Qed.

Lemma NoDup_map_filter (p : EventHandlerInfo -> bool) v :
  List.NoDup (map id v) -> List.NoDup (map id (List.filter p v)).
Proof.
  induction v as [|x rest IH]; simpl; intros Hnd; [constructor|].
  apply List.NoDup_cons_iff in Hnd as [Hx Hnd].
  destruct (p x); simpl; [|apply IH, Hnd].
  apply List.NoDup_cons_iff. split; [|apply IH, Hnd].
  intros Hin. apply Hx.
  apply in_map_iff in Hin as (y & Hy & Hin).
  apply in_map_iff. exists y. split; [exact Hy|].
  apply List.filter_In in Hin. tauto.
Qed.

Lemma remove_fired_spec to_remove : forall v,
  List.NoDup (map id v) -> List.NoDup (map id to_remove) ->
  (forall r, In r to_remove -> In (id r) (map id v)) ->
  remove_fired to_remove v
  = List.filter
      (fun h => negb (existsb (fun r => String.eqb (id h) (id r)) to_remove)) v.
Proof.
  unfold remove_fired.
  induction to_remove as [|r rest IH]; intros v Hv Hr Hin; simpl.
  - clear. induction v as [|x v IHv]; simpl; [reflexivity|].
    f_equal. exact IHv.
  - rewrite remove_one; [|exact Hv|apply Hin; left; reflexivity].
    apply List.NoDup_cons_iff in Hr as [Hr1 Hr2].
    rewrite IH; [|apply NoDup_map_filter, Hv|exact Hr2|].
    + clear. induction v as [|x v IHv]; simpl; [reflexivity|].
      destruct (String.eqb (id x) (id r)); simpl; [exact IHv|].
      destruct (existsb _ rest); simpl; [exact IHv|]. by rewrite IHv.
    + intros r' Hr'. specialize (Hin r' (or_intror Hr')).
      apply in_map_iff in Hin as (y & Hy & Hyin).
      apply in_map_iff. exists y. split; [exact Hy|].
      apply List.filter_In. split; [exact Hyin|].
      apply negb_true_iff, String.eqb_neq. intros Heq.
      apply Hr1. apply in_map_iff.
      exists r'. split; [congruence|exact Hr'].
Qed.

Lemma same_id_same_handler (v : list EventHandlerInfo) a b :
  List.NoDup (map id v) -> In a v -> In b v -> id a = id b -> a = b.
Proof.
  induction v as [|x rest IH]; simpl; intros Hnd Ha Hb Heq; [contradiction|].
  apply List.NoDup_cons_iff in Hnd as [Hx Hnd].
  destruct Ha as [<-|Ha], Hb as [<-|Hb]; [reflexivity| | |apply IH; assumption].
  - exfalso. apply Hx. apply in_map_iff.
    exists b. split; [congruence|exact Hb].
  - exfalso. apply Hx. apply in_map_iff.
    exists a. split; [congruence|exact Ha].
Qed.

(** X30: when the handlers of an event have pairwise distinct ids, an
    [emit] that the middleware lets through removes exactly the one-shot
    handlers whose callback returned: the handlers left are the others, in
    their order, and no emptied entry stays behind. *)
Theorem one_shot_handlers_removed event_name event_data d :
  List.NoDup (map id (get_handlers event_name d)) ->
  chain_passes event_name event_data (middleware_ d) = true ->
  get_handlers event_name (snd (emit event_name event_data d))
  = List.filter (fun h => negb (fired event_data h))
                (get_handlers event_name d).
Proof.
  intros Hnd Hpass. unfold emit. simpl. rewrite Hpass.
  unfold deliver, get_handlers in *. simpl.
  destruct (handlers_ d !! event_name) as [hs|] eqn:E; simpl;
    [|rewrite E; reflexivity].
  pose proof (call_handlers_to_remove event_data hs) as Htr.
  destruct (call_handlers event_data hs) as [[called executed] tr].
  simpl in *. subst tr.
  assert (Hspec :
    remove_fired (List.filter (fired event_data) hs) hs
    = List.filter (fun h => negb (fired event_data h)) hs).
  { rewrite remove_fired_spec;
      [|exact Hnd|apply NoDup_map_filter, Hnd|].
    - apply List.filter_ext_in. intros h Hh. f_equal.
      destruct (fired event_data h) eqn:F.
      + apply existsb_exists. exists h. split.
        * apply List.filter_In. split; assumption.
        * apply String.eqb_refl.
      + apply not_true_is_false. intros Hex.
        apply existsb_exists in Hex as (r & Hr & Heq).
        apply List.filter_In in Hr as [Hr Hf].
        apply String.eqb_eq in Heq.
        rewrite (same_id_same_handler hs h r Hnd Hh Hr Heq) in F. congruence.
    - intros r Hr. apply List.filter_In in Hr as [Hr _].
      apply in_map, Hr. }
  destruct (List.filter (fired event_data) hs) as [|r rest] eqn:F.
  - simpl. rewrite E. simpl. rewrite <- Hspec. reflexivity.
  - simpl. rewrite lookup_insert_eq. simpl. exact Hspec.
Qed.

(** X30 at a permanent and a one-shot handler of the same event. *)
Lemma one_shot_handlers_removed_witness :
  get_handlers "MESSAGE_CREATE"
    (snd (emit "MESSAGE_CREATE" JNull
            (snd (on 300 "MESSAGE_CREATE" Samples.logger 5 "once" true
                     Samples.one_handler))))
  = List.filter (fun h => negb (fired JNull h))
      (get_handlers "MESSAGE_CREATE"
         (snd (on 300 "MESSAGE_CREATE" Samples.logger 5 "once" true
                  Samples.one_handler))).
Proof.
  apply (one_shot_handlers_removed "MESSAGE_CREATE" JNull
           (snd (on 300 "MESSAGE_CREATE" Samples.logger 5 "once" true
                    Samples.one_handler))).
  - vm_compute. repeat constructor; simpl; intuition discriminate.
  - reflexivity.
Defined.

End HandlerFacts.
